(** * snyk-refresh: pagination safety, target normalisation and duplicate cleanup

    A shallow embedding of the Go sources [internal/api.go] (paged fetches and
    the next-link check) and [main.go] ([runRefresh], [runDedup]), together
    with the target helpers of [internal/targets.go].

    Go strings are byte strings: they are modelled by [string], compared
    bytewise.  Go maps are modelled by [gmap]; a nil map reads like the empty
    map.  Calls to the remote API are explicit state passing over an abstract
    remote. *)

From Stdlib Require Import Ascii String ZArith Lia List Permutation Sorted Bool
  DecimalString.
From stdpp Require Import gmap strings list fin_maps sorting.

Set Warnings "-register-all".
Local Open Scope Z_scope.

(** ** Go's [strings] package, the part the program uses *)

Module Strings.

  (** [strings.HasPrefix(s, prefix)]. *)
Fixpoint HasPrefix (s pre : string) : bool :=
    match pre, s with
    | EmptyString, _ => true
    | String _ _, EmptyString => false
    | String a pre', String b s' => if Ascii.eqb a b then HasPrefix s' pre' else false
    end.

  (** [strings.HasSuffix(s, suffix)]: [suffix] is [s] or a suffix of its tail. *)
Fixpoint HasSuffix (s suf : string) : bool :=
    if String.eqb s suf then true
    else match s with
         | EmptyString => false
         | String _ s' => HasSuffix s' suf
         end.

  (** [strings.Cut(s, sep)] for a one-byte separator: the text before and
      after the first [sep], or [None] when [s] has no [sep]. *)
Fixpoint Cut (s : string) (sep : ascii) : option (string * string) :=
    match s with
    | EmptyString => None
    | String a s' =>
        if Ascii.eqb a sep then Some (EmptyString, s')
        else match Cut s' sep with
             | Some (before, after) => Some (String a before, after)
             | None => None
             end
    end.

  (** [strings.ContainsRune(s, c)] for a one-byte [c]. *)
Fixpoint Contains (s : string) (c : ascii) : bool :=
    match s with
    | EmptyString => false
    | String a s' => if Ascii.eqb a c then true else Contains s' c
    end.

  (** The text of [s] before the first [sep], all of [s] when there is none. *)
Definition Before (s : string) (sep : ascii) : string :=
    match Cut s sep with
    | Some (before, _) => before
    | None => s
    end.

  (** [strings.Join(parts, sep)]. *)
Fixpoint Join (parts : list string) (sep : string) : string :=
    match parts with
    | [] => EmptyString
    | [p] => p
    | p :: rest => p +:+ sep +:+ Join rest sep
    end.

End Strings.

(** ** Library values the program handles *)

(** [net/url]: what the program observes of a [*url.URL]: the [Scheme] and
    [Host] fields and the [Hostname()] method (the host without its port). *)
Module Url.
Record t : Type := mk { Scheme : string; Host : string; Hostname : string }.
End Url.

(** [net/http]: a request as the program builds it, and the reply of
    [DoWithRetry] (status code and body already read). *)
Module Http.
Record Request : Type := mkRequest {
  Method : string;
  URL : string;
  Header : gmap string string
}.
Record Response : Type := mkResponse { StatusCode : Z; Body : string }.
End Http.

(** Go [error] values.  [Wrapped c e] is [fmt.Errorf(c + ": %w", e)];
    [StatusError c code body] is
    [fmt.Errorf(c + ": status %d, body: %s", code, body)]. *)
Inductive error : Type :=
| LibraryError (msg : string)
| Wrapped (context : string) (cause : error)
| StatusError (context : string) (status : Z) (body : string).

(** A Go result pair [(value, err)]. *)
Inductive result (A : Type) : Type :=
| Ok (a : A)
| Err (e : error).
Arguments Ok {A} a.
Arguments Err {A} e.

(** A decoded JSON value, as [encoding/json] stores it in an [interface{}]. *)
Inductive JSON : Type :=
| JNull
| JBool (b : bool)
| JNumber (literal : string)
| JString (s : string)
| JArray (elems : list JSON)
| JObject (fields : gmap string JSON).

(** [v, _ := m[k].(string)]: the string under [k], the zero value otherwise. *)
Definition asString (v : option JSON) : string :=
  match v with
  | Some (JString s) => s
  | _ => EmptyString
  end.

(** [v, ok := m[k].(map[string]interface{})]. *)
Definition asObject (v : option JSON) : option (gmap string JSON) :=
  match v with
  | Some (JObject fields) => Some fields
  | _ => None
  end.

(** One element of [data] and the whole page, as both paged fetches declare
    their anonymous [result] struct.  A nil map reads like the empty map. *)
Module Page.
Record Item : Type := mkItem {
  ID : string;
  Attributes : gmap string JSON;
  Relationships : gmap string JSON
}.
Record t : Type := mk { Data : list Item; Links : gmap string JSON }.
End Page.

(** ** Records of the remote API *)

Module Org.
Record t : Type := mk { ID : string; Name : string; Slug : string }.
End Org.

Module Project.
Record t : Type := mk {
  ID : string;
  Name : string;
  Origin : string;
  Branch : string;
  TargetReference : string;
  Created : string;
  TargetID : string
}.
End Project.

Module APITarget.
Record t : Type := mk {
  ID : string;
  DisplayName : string;
  IntegrationID : string;
  IntegrationType : string;
  CreatedAt : string
}.
End APITarget.

(** ** The target helpers of [internal/targets.go] *)

Module Targets.

(** Modelled from the spec: the declaration of [Target] in
    [internal/targets.go], which is not among the sources.  A canonical
    target has one of two shapes, told apart by an explicit variant tag:
    owner, name and branch for path-style providers, project key and
    repository slug for the key/slug-style provider. *)
Inductive Target : Type :=
| PathTarget (Owner Name Branch : string)
| KeySlugTarget (ProjectKey RepoSlug : string).

(** Modelled from the spec: the allowlist of path-style origin tags of
    [internal/targets.go]; the tags are those its test exercises. *)
Definition pathStyleOrigins : list string :=
  [ "github"; "github-cloud-app"; "github-enterprise"; "bitbucket-cloud";
    "bitbucket-cloud-app"; "bitbucket-connect-app"; "azure-repos" ].

(** Modelled from the spec: the one key/slug-style origin tag of
    [internal/targets.go]. *)
Definition keySlugStyleOrigins : list string := [ "bitbucket-server" ].

(** Modelled from the spec: [IsSCMOrigin] of [internal/targets.go], membership
    in the fixed allowlist of supported origin tags. *)
Definition IsSCMOrigin (origin : string) : bool :=
  bool_decide (origin ∈ pathStyleOrigins ++ keySlugStyleOrigins).

(** Modelled from the spec: [OriginToIntegrationKey] of
    [internal/targets.go].  One origin tag, the cloud app variant, aliases to
    the connect-app connector key; every other tag maps to itself. *)
Definition OriginToIntegrationKey (origin : string) : string :=
  if String.eqb origin "bitbucket-cloud-app" then "bitbucket-connect-app"
  else origin.

(** Modelled from the spec: the name parser of [internal/targets.go].  The raw
    name ["<owner>/<repo>:<manifestPath>"] is split on the first ["/"] for the
    owner and on the colon terminator for the repository and its suffix; a
    parenthetical decoration after the repository is stripped.  A name with
    no ["/"] is a parse failure. *)
Definition splitName (rawName : string) : option (string * string) :=
  match Strings.Cut rawName "/" with
  | None => None
  | Some (owner, rest) =>
      Some (owner, Strings.Before (Strings.Before rest ":") "(")
  end.

(** Modelled from the spec: [ProjectToTarget] of [internal/targets.go], the
    spec's [normalize].  [None] is [ok = false].  Path-style origins take the
    branch from the hint when it is non-empty and leave the zero value
    otherwise; the key/slug-style origin ignores the hint. *)
Definition ProjectToTarget (rawName origin branchHint : string) : option Target :=
  if bool_decide (origin ∈ pathStyleOrigins) then
    match splitName rawName with
    | None => None
    | Some (owner, repo) =>
        let branch :=
          if String.eqb branchHint EmptyString then EmptyString else branchHint in
        Some (PathTarget owner repo branch)
    end
  else if bool_decide (origin ∈ keySlugStyleOrigins) then
    match splitName rawName with
    | None => None
    | Some (projectKey, repoSlug) => Some (KeySlugTarget projectKey repoSlug)
    end
  else None.

(** Modelled from the spec: the discriminating fields of a target in the
    fixed order [TargetID] joins them: name, owner, branch for the path
    style; key, slug for the key/slug style. *)
Definition discriminatingFields (t : Target) : list string :=
  match t with
  | PathTarget owner name branch => [name; owner; branch]
  | KeySlugTarget projectKey repoSlug => [projectKey; repoSlug]
  end.

(** Modelled from the spec: [TargetID] of [internal/targets.go].  The account
    identity, the connector identity and the discriminating fields joined
    with the fixed delimiter [":"]. *)
Definition TargetID (orgID integrationID : string) (t : Target) : string :=
  Strings.Join (orgID :: integrationID :: discriminatingFields t) ":".

End Targets.

(** ** What a run does to the outside *)

(** The calls [main.go] makes to the API functions of package [internal]. *)
Inductive Call : Type :=
| CallListIntegrations (orgID : string)
| CallFetchProjects (orgID : string)
| CallFetchTargets (orgID : string)
| CallDeleteProject (orgID projectID : string)
| CallDeleteTarget (orgID targetID : string).

(** One [log.Printf] or [fmt.Printf] of a run, with the values it formats.
    The lines about a target also record the org whose targets the loop is
    going through when it prints them. *)
Inductive Line : Type :=
| LogFetched (orgLabel : string) (count : nat)
| LogDebugProject (p : Project.t)
| WarnFailedOrg (orgLabel : string) (e : error)
| WarnGitlabSkipped (orgLabel : string) (count : Z)
| LogOrgTargets (orgLabel : string) (count : nat)
| LogNoSCMProjects (orgLabel : string)
| LogNoTargets
| PrintOrg (orgLabel : string)
| PrintDuplicate (name : string)
| PrintKeep (original : Project.t)
| PrintDeleteFailed (d : Project.t) (e : error)
| PrintDeleted (d : Project.t)
| PrintWouldDelete (d : Project.t)
| PrintCleaningUp
| PrintWouldRemoveHeader
| WarnFetchTargets (orgID : string) (e : error)
| WarnRefetchProjects (orgID : string) (e : error)
| LogTargetDeleteFailed (orgID : string) (t : APITarget.t) (e : error)
| PrintTargetDeleted (orgID : string) (t : APITarget.t)
| PrintTargetWouldDelete (orgID : string) (t : APITarget.t)
| PrintNoDuplicates
| PrintSummaryDelete (duplicates : Z) (orgs : nat) (deleted failed : Z)
| PrintSummaryTargets (cleaned failed : Z)
| PrintSummaryDryRun (duplicates : Z) (orgs : nat)
| PrintSummaryDryRunTargets (wouldRemove : Z)
| PrintRunWithDelete
| PrintFailedOrgs (count : Z).

Inductive Event : Type :=
| Called (c : Call)
| Printed (l : Line).

(** Why a run of the model stops before its end: a paged fetch used up its
    page budget, or the program indexed a slice out of range. *)
Inductive Abort : Type :=
| OutOfPages
| Panic.

Inductive Outcome (A : Type) : Type :=
| Done (a : A)
| Aborted (why : Abort).
Arguments Done {A} a.
Arguments Aborted {A} why.

(** ** A small remote to run the program on *)

(** Stand-ins for the library calls and for the remote service, used to run
    the program on concrete inputs.  The remote is the list of replies it
    will give, one per request, in order. *)
Module Demo.

Definition Remote : Type := list Http.Response.

(** Reads [scheme://host[:port]/path] for the schemes [https] and [http];
    anything else is read as a relative reference with no scheme and no
    host. *)
Definition url_Parse (raw : string) : option Url.t :=
  let parsed (scheme : string) (rest : string) :=
    let host := Strings.Before rest "/" in
    Some (Url.mk scheme host (Strings.Before host ":")) in
  if Strings.HasPrefix raw "https://" then
    parsed "https" (String.substring 8 (String.length raw - 8) raw)
  else if Strings.HasPrefix raw "http://" then
    parsed "http" (String.substring 7 (String.length raw - 7) raw)
  else Some (Url.mk EmptyString EmptyString EmptyString).

Definition url_PathEscape (s : string) : string := s.

Definition http_NewRequest (method url : string) : result Http.Request :=
  Ok (Http.mkRequest method url ∅).

Definition DoWithRetry (req : Http.Request) (r : Remote)
  : result Http.Response * Remote :=
  match r with
  | reply :: rest => (Ok reply, rest)
  | [] => (Err (LibraryError "no reply"), [])
  end.

Definition projectItem (id name origin created targetID : string) : Page.Item :=
  Page.mkItem id
    (<["name" := JString name]>
       (<["origin" := JString origin]> {["created" := JString created]}))
    {["target" := JObject {["data" := JObject {["id" := JString targetID]}]}]}.

Definition targetItem (id displayName : string) : Page.Item :=
  Page.mkItem id {["display_name" := JString displayName]} ∅.

(** The pages the decoder knows, by body. *)
Definition pages : list (string * Page.t) :=
  [ ("projects of org-a",
     Page.mk
       [ projectItem "p3" "acme/app:package.json" "github"
           "2024-03-01T00:00:00Z" "t-app-2";
         projectItem "p1" "acme/app:package.json" "github"
           "2024-01-01T00:00:00Z" "t-app-1";
         projectItem "p2" "acme/app:package.json" "bitbucket-server"
           "2024-02-01T00:00:00Z" "t-app-2";
         projectItem "p4" "acme/lib:pom.xml" "bitbucket-server"
           "2024-01-15T00:00:00Z" "t-lib" ]
       ∅);
    ("projects of org-a, after phase 1",
     Page.mk
       [ projectItem "p1" "acme/app:package.json" "github"
           "2024-01-01T00:00:00Z" "t-app-1";
         projectItem "p4" "acme/lib:pom.xml" "bitbucket-server"
           "2024-01-15T00:00:00Z" "t-lib" ]
       ∅);
    ("projects of org-b",
     Page.mk
       [ projectItem "q1" "acme/app:package.json" "github"
           "2024-01-05T00:00:00Z" "t-b-app" ]
       ∅);
    ("targets of org-a",
     Page.mk
       [ targetItem "t-app-1" "acme/app";
         targetItem "t-app-2" "acme/app";
         targetItem "t-lib" "acme/lib";
         targetItem "t-old" "acme/old" ]
       ∅);
    ("a page with an outside link",
     Page.mk
       [ projectItem "p1" "acme/app:package.json" "github"
           "2024-01-01T00:00:00Z" "t-app-1" ]
       {["next" := JString "https://evilapi.snyk.io/rest/orgs/org-a/projects"]}) ].

Definition json_Unmarshal_page (body : string) : result Page.t :=
  match List.find (fun entry => String.eqb (fst entry) body) pages with
  | Some (_, page) => Ok page
  | None => Err (LibraryError "invalid character")
  end.

Definition json_Unmarshal_integrations (body : string)
  : result (gmap string string) :=
  if String.eqb body "integrations" then
    Ok (<["github" := "int-github"]> {["bitbucket-server" := "int-bbs"]})
  else Err (LibraryError "invalid character").

(** A sort that meets the contract of [sort.Slice]. *)
Definition sort_Slice (less : Project.t -> Project.t -> bool)
    (l : list Project.t) : list Project.t :=
  @merge_sort _ (fun a b => less b a = false)
    (fun a b => decide (less b a = false)) l.

Definition baseURL : string := "https://api.snyk.io".
Definition token : string := "secret".
Definition pageBudget : nat := 8.

Definition ok (body : string) : Http.Response := Http.mkResponse 200 body.

(** Two linked pages of projects: the first names the second by a relative
    link, the second has a null link. *)
Definition linkedPage1 : Page.t :=
  Page.mk
    [ projectItem "p1" "acme/app:package.json" "github"
        "2024-01-01T00:00:00Z" "t-app-1";
      projectItem "p2" "acme/app:package.json" "bitbucket-server"
        "2024-02-01T00:00:00Z" "t-app-2" ]
    {["next" := JString "/rest/orgs/org-a/projects?starting_after=p2"]}.

Definition linkedPage2 : Page.t :=
  Page.mk
    [ projectItem "p4" "acme/lib:pom.xml" "bitbucket-server"
        "2024-01-15T00:00:00Z" "t-lib" ]
    {["next" := JNull]}.

Definition linkedPages : list (string * Page.t) :=
  [ ("projects, page 1", linkedPage1); ("projects, page 2", linkedPage2) ].

(** A decoder that knows the linked pages as well. *)
Definition json_Unmarshal_linked (body : string) : result Page.t :=
  match List.find (fun entry => String.eqb (fst entry) body) linkedPages with
  | Some (_, page) => Ok page
  | None => json_Unmarshal_page body
  end.

(** The org lists the decoder knows, by body: a page of a hundred orgs
    and a page of two. *)
Definition hundredOrgs : list Org.t :=
  List.repeat (Org.mk "org-x" "Org X" "org-x") 100.

Definition twoOrgs : list Org.t :=
  [ Org.mk "org-a" "Org A" "org-a"; Org.mk "org-b" EmptyString EmptyString ].

Definition json_Unmarshal_orgs (body : string) : result (list Org.t) :=
  if String.eqb body "a hundred orgs" then Ok hundredOrgs
  else if String.eqb body "two orgs" then Ok twoOrgs
  else Err (LibraryError "invalid character").

(** An org, and the replies of a remote to a clean-up of it in delete mode:
    its projects; a 204 to each of the two deletions of duplicates; its
    targets; its projects again; a 204 to the deletion of a target. *)
Definition orgA : Org.t := Org.mk "org-a" "Org A" "org-a".

Definition dedupReplies : Remote :=
  [ ok "projects of org-a"; Http.mkResponse 204 EmptyString;
    Http.mkResponse 204 EmptyString; ok "targets of org-a";
    ok "projects of org-a, after phase 1"; Http.mkResponse 204 EmptyString ].

(** A remote without state that answers every request with the same page,
    whose link leads back to it. *)
Definition sameReply (req : Http.Request) (r : unit)
  : result Http.Response * unit :=
  (Ok (ok "a page that links to itself"), tt).

Definition selfLinkedPage : Page.t :=
  Page.mk
    [ projectItem "p1" "acme/app:package.json" "github"
        "2024-01-01T00:00:00Z" "t-app-1" ]
    {["next" := JString "/rest/orgs/org-a/projects?version=2025-09-28&limit=100"]}.

Definition json_Unmarshal_selfLinked (body : string) : result Page.t :=
  if String.eqb body "a page that links to itself" then Ok selfLinkedPage
  else Err (LibraryError "invalid character").

End Demo.

(** ** The program *)

Section Program.

Set Default Proof Using "Type".

(** *** What the program takes from outside *)

(** The state of the remote service, changed by the requests it serves. *)
Variable Remote : Type.

(** [url.Parse]; [None] is its parse error. *)
Variable url_Parse : string -> option Url.t.
(** [url.PathEscape]. *)
Variable url_PathEscape : string -> string.
(** [http.NewRequestWithContext(ctx, method, url, nil)]. *)
Variable http_NewRequest : string -> string -> result Http.Request.
(** [DoWithRetry(ctx, client, req)] of the HTTP helper, the reliable fetch the
    program treats as a black box. *)
Variable DoWithRetry : Http.Request -> Remote -> result Http.Response * Remote.
(** [json.Unmarshal] into the page struct of the paged fetches, and into the
    [map[string]string] of [ListIntegrations]. *)
Variable json_Unmarshal_page : string -> result Page.t.
Variable json_Unmarshal_integrations : string -> result (gmap string string).
(** [sort.Slice], an unstable sort by a [less] function. *)
Variable sort_Slice :
  (Project.t -> Project.t -> bool) -> list Project.t -> list Project.t.
(** [GetSnykAPIBaseURL()] and the API token. *)
Variable baseURL : string.
Variable token : string.
(** How many pages a paged fetch may read before the model gives up on it. *)
Variable pageBudget : nat.

(** *** [isAllowedNextURL] *)

(** [isAllowedNextURL] validates a pagination URL: relative URLs (starting
    with ["/"]) and absolute URLs on the allowed host pass. *)
Definition isAllowedNextURL (nextURL allowedHost : string) : bool :=
  if String.eqb nextURL EmptyString then false
  else if Strings.HasPrefix nextURL "/" then true
  else match url_Parse nextURL with
       | None => false
       | Some u =>
           if negb (String.eqb (Url.Scheme u) "https") then false
           else
             let host := Url.Hostname u in
             String.eqb host allowedHost
             || Strings.HasSuffix host ("." +:+ allowedHost)
       end.

(** *** Paged fetches *)

(** The host pagination may stay on: the host of the base URL when it parses
    and has one, ["api.snyk.io"] otherwise. *)
Definition apiHost : string :=
  match url_Parse baseURL with
  | Some parsed =>
      if negb (String.eqb (Url.Host parsed) EmptyString) then Url.Host parsed
      else "api.snyk.io"
  | None => "api.snyk.io"
  end.

(** The two [req.Header.Set] calls every request gets. *)
Definition withHeaders (accept : string) (req : Http.Request) : Http.Request :=
  Http.mkRequest (Http.Method req) (Http.URL req)
    (<["Accept" := accept]>
       (<["Authorization" := "token " +:+ token]> (Http.Header req))).

(** The end of a page loop body: the URL of the next page, or the empty
    string, which ends the loop.  A link is followed only when it is a
    non-empty string that [isAllowedNextURL] accepts. *)
Definition nextPageURL (links : gmap string JSON) : string :=
  match links !! "next" with
  | Some (JString nextStr) =>
      if negb (String.eqb nextStr EmptyString) then
        if isAllowedNextURL nextStr apiHost then
          if Strings.HasPrefix nextStr "/" then baseURL +:+ nextStr
          else nextStr
        else EmptyString
      else EmptyString
  | _ => EmptyString
  end.

(** What one turn of a page loop does: go on with the next URL and the
    records so far, or return. *)
Inductive pageStep (A : Type) : Type :=
| NextPage (nextURL : string) (records : list A)
| Return (r : result (list A)).
Arguments NextPage {A} nextURL records.
Arguments Return {A} r.

(** The body of the loop [for nextURL != ""] of [FetchProjects] and of
    [FetchTargets]; the two differ in the word [what] of their error messages
    and in how an item of [data] becomes a record. *)
Definition fetchPage {A : Type} (what : string) (record : Page.Item -> A)
    (nextURL : string) (records : list A) (r : Remote)
  : pageStep A * Remote :=
  match http_NewRequest "GET" nextURL with
  | Err e => (Return (Err (Wrapped "create request" e)), r)
  | Ok req =>
      match DoWithRetry (withHeaders "application/vnd.api+json" req) r with
      | (Err e, r') => (Return (Err (Wrapped ("fetch " +:+ what) e)), r')
      | (Ok resp, r') =>
          if Http.StatusCode resp =? 404 then (Return (Ok records), r')
          else if negb (Http.StatusCode resp =? 200) then
            (Return (Err (StatusError ("fetch " +:+ what)
                            (Http.StatusCode resp) (Http.Body resp))), r')
          else
            match json_Unmarshal_page (Http.Body resp) with
            | Err e => (Return (Err (Wrapped ("decode " +:+ what) e)), r')
            | Ok page =>
                (NextPage (nextPageURL (Page.Links page))
                   (records ++ map record (Page.Data page)), r')
            end
      end
  end.

(** The loop itself.  [None] says the page budget ran out before the loop
    ended. *)
Fixpoint fetchLoop {A : Type} (what : string) (record : Page.Item -> A)
    (budget : nat) (nextURL : string) (records : list A) (r : Remote)
  : option (result (list A)) * Remote :=
  if String.eqb nextURL EmptyString then (Some (Ok records), r)
  else
    match budget with
    | O => (None, r)
    | S budget' =>
        match fetchPage what record nextURL records r with
        | (Return res, r') => (Some res, r')
        | (NextPage next records', r') =>
            fetchLoop what record budget' next records' r'
        end
    end.

(** The record built from one item of a projects page. *)
Definition projectOfItem (p : Page.Item) : Project.t :=
  let attrs := Page.Attributes p in
  let name := asString (attrs !! "name") in
  let origin := asString (attrs !! "origin") in
  let created := asString (attrs !! "created") in
  let targetRef :=
    let targetRef := asString (attrs !! "targetReference") in
    if String.eqb targetRef EmptyString
    then asString (attrs !! "target_reference") else targetRef in
  let branch :=
    let branch := asString (attrs !! "branch") in
    if String.eqb branch EmptyString then targetRef else branch in
  let targetID :=
    match asObject (Page.Relationships p !! "target") with
    | Some targetRel =>
        match asObject (targetRel !! "data") with
        | Some targetData => asString (targetData !! "id")
        | None => EmptyString
        end
    | None => EmptyString
    end in
  Project.mk (Page.ID p) name origin branch targetRef created targetID.

(** The record built from one item of a targets page. *)
Definition targetOfItem (t : Page.Item) : APITarget.t :=
  let attrs := Page.Attributes t in
  let displayName := asString (attrs !! "display_name") in
  let createdAt := asString (attrs !! "created_at") in
  let '(integrationID, integrationType) :=
    match asObject (Page.Relationships t !! "integration") with
    | Some intRel =>
        match asObject (intRel !! "data") with
        | Some intData =>
            (asString (intData !! "id"),
             match asObject (intData !! "attributes") with
             | Some intAttrs => asString (intAttrs !! "integration_type")
             | None => EmptyString
             end)
        | None => (EmptyString, EmptyString)
        end
    | None => (EmptyString, EmptyString)
    end in
  APITarget.mk (Page.ID t) displayName integrationID integrationType createdAt.

(** The URL of the first page of projects of an org. *)
Definition projectsFirstURL (orgID : string) : string :=
  baseURL +:+ "/rest/orgs/" +:+ url_PathEscape orgID
    +:+ "/projects?version=2025-09-28&limit=100".

(** [FetchProjects] fetches all projects of an org, page after page. *)
Definition FetchProjects (orgID : string) (r : Remote)
  : option (result (list Project.t)) * Remote :=
  fetchLoop "projects" projectOfItem pageBudget (projectsFirstURL orgID) [] r.

(** The URL of the first page of targets of an org. *)
Definition targetsFirstURL (orgID : string) : string :=
  baseURL +:+ "/rest/orgs/" +:+ url_PathEscape orgID
    +:+ "/targets?version=2025-09-28&limit=100&exclude_empty=false".

(** [FetchTargets] fetches all targets of an org, the empty ones too. *)
Definition FetchTargets (orgID : string) (r : Remote)
  : option (result (list APITarget.t)) * Remote :=
  fetchLoop "targets" targetOfItem pageBudget (targetsFirstURL orgID) [] r.

(** The body shared by [DeleteProject] and [DeleteTarget]: one [DELETE]
    request; 204 and 200 are success.  [None] is a nil error. *)
Definition deleteRecord (what : string) (apiURL : string) (r : Remote)
  : option error * Remote :=
  match http_NewRequest "DELETE" apiURL with
  | Err e => (Some (Wrapped "create request" e), r)
  | Ok req =>
      match DoWithRetry (withHeaders "application/vnd.api+json" req) r with
      | (Err e, r') => (Some (Wrapped ("delete " +:+ what) e), r')
      | (Ok resp, r') =>
          if negb (Http.StatusCode resp =? 204)
             && negb (Http.StatusCode resp =? 200)
          then (Some (StatusError ("delete " +:+ what)
                        (Http.StatusCode resp) (Http.Body resp)), r')
          else (None, r')
      end
  end.

(** [DeleteProject] deletes a single project of an org. *)
Definition DeleteProject (orgID projectID : string) (r : Remote)
  : option error * Remote :=
  deleteRecord "project"
    (baseURL +:+ "/rest/orgs/" +:+ url_PathEscape orgID +:+ "/projects/"
       +:+ url_PathEscape projectID +:+ "?version=2025-09-28") r.

(** [DeleteTarget] deletes a target of an org. *)
Definition DeleteTarget (orgID targetID : string) (r : Remote)
  : option error * Remote :=
  deleteRecord "target"
    (baseURL +:+ "/rest/orgs/" +:+ url_PathEscape orgID +:+ "/targets/"
       +:+ url_PathEscape targetID +:+ "?version=2025-09-28") r.

(** [ListIntegrations]: the map from integration type to integration ID. *)
Definition ListIntegrations (orgID : string) (r : Remote)
  : result (gmap string string) * Remote :=
  match http_NewRequest "GET"
          (baseURL +:+ "/v1/org/" +:+ url_PathEscape orgID +:+ "/integrations") with
  | Err e => (Err (Wrapped "create request" e), r)
  | Ok req =>
      match DoWithRetry (withHeaders "application/json" req) r with
      | (Err e, r') => (Err (Wrapped "list integrations" e), r')
      | (Ok resp, r') =>
          if negb (Http.StatusCode resp =? 200) then
            (Err (StatusError "list integrations"
                    (Http.StatusCode resp) (Http.Body resp)), r')
          else
            match json_Unmarshal_integrations (Http.Body resp) with
            | Err e => (Err (Wrapped "decode integrations" e), r')
            | Ok data => (Ok data, r')
            end
      end
  end.

(** *** Runs: the state a run threads, and its calls to the API *)

(** The five counters [runDedup] keeps in local variables. *)
Record Counters : Type := mkCounters {
  totalDuplicates : Z;
  totalDeleted : Z;
  totalFailed : Z;
  targetsDeleted : Z;
  targetsFailed : Z
}.

Record State : Type := mkState {
  remote : Remote;
  trace : list Event;
  counters : Counters
}.

Definition M (A : Type) : Type := State -> Outcome A * State.

Definition ret {A : Type} (a : A) : M A := fun s => (Done a, s).

Definition bind {A B : Type} (m : M A) (k : A -> M B) : M B :=
  fun s =>
    match m s with
    | (Done a, s') => k a s'
    | (Aborted why, s') => (Aborted why, s')
    end.

Local Notation "x <- m ;; k" := (bind m (fun x => k))
  (at level 100, m at next level, right associativity).
Local Notation "m ;;; k" := (bind m (fun _ : unit => k))
  (at level 100, right associativity).

Definition abort {A : Type} (why : Abort) : M A := fun s => (Aborted why, s).

Definition emit (e : Event) : M unit :=
  fun s => (Done tt, mkState (remote s) (trace s ++ [e]) (counters s)).

Definition print (l : Line) : M unit := emit (Printed l).

Definition updateCounters (f : Counters -> Counters) : M unit :=
  fun s => (Done tt, mkState (remote s) (trace s) (f (counters s))).

Definition getCounters : M Counters := fun s => (Done (counters s), s).

(** A [for ... range] loop whose body has effects. *)
Fixpoint forEach {A : Type} (l : list A) (body : A -> M unit) : M unit :=
  match l with
  | [] => ret tt
  | x :: rest => body x ;;; forEach rest body
  end.

(** The results of the per-org tasks, in the order the tasks run. *)
Fixpoint mapM {A B : Type} (f : A -> M B) (l : list A) : M (list B) :=
  match l with
  | [] => ret []
  | x :: rest => y <- f x ;; ys <- mapM f rest ;; ret (y :: ys)
  end.

(** A call of a paged fetch from [main.go]: it is recorded, then served by
    the remote. *)
Definition callPaged {A : Type} (c : Call)
    (fetch : Remote -> option (result (list A)) * Remote)
  : M (result (list A)) :=
  fun s =>
    let s1 := mkState (remote s) (trace s ++ [Called c]) (counters s) in
    match fetch (remote s) with
    | (Some res, r') => (Done res, mkState r' (trace s1) (counters s1))
    | (None, r') => (Aborted OutOfPages, mkState r' (trace s1) (counters s1))
    end.

(** A call of one of the other API functions. *)
Definition callAPI {A : Type} (c : Call) (f : Remote -> A * Remote) : M A :=
  fun s =>
    let '(a, r') := f (remote s) in
    (Done a, mkState r' (trace s ++ [Called c]) (counters s)).

Definition callFetchProjects (orgID : string) : M (result (list Project.t)) :=
  callPaged (CallFetchProjects orgID) (FetchProjects orgID).

Definition callFetchTargets (orgID : string) : M (result (list APITarget.t)) :=
  callPaged (CallFetchTargets orgID) (FetchTargets orgID).

Definition callListIntegrations (orgID : string) : M (result (gmap string string)) :=
  callAPI (CallListIntegrations orgID) (ListIntegrations orgID).

Definition callDeleteProject (orgID projectID : string) : M (option error) :=
  callAPI (CallDeleteProject orgID projectID) (DeleteProject orgID projectID).

Definition callDeleteTarget (orgID targetID : string) : M (option error) :=
  callAPI (CallDeleteTarget orgID targetID) (DeleteTarget orgID targetID).

(** The label of an org in the logs: [name (slug)], or the ID when the org has
    no name. *)
Definition orgLabelOf (o : Org.t) : string :=
  if negb (String.eqb (Org.Name o) EmptyString)
  then Org.Name o +:+ " (" +:+ Org.Slug o +:+ ")"
  else Org.ID o.

(** *** [runDedup]: duplicate projects, then empty duplicate targets *)

(** [duplicateGroup] holds the projects that share a name, sorted by creation
    timestamp.  The first entry is the original (oldest); the rest are
    duplicates. *)
Record duplicateGroup : Type := mkGroup {
  key : string;
  projects : list Project.t
}.

Record dedupResult : Type := mkDedupResult {
  dedup_orgID : string;
  dedup_orgLabel : string;
  dedup_groups : list duplicateGroup;
  dedup_projectCount : nat;
  dedup_err : option error
}.

Record collectedResult : Type := mkCollected {
  orgID : string;
  orgLabel : string;
  groups : list duplicateGroup
}.

(** [grouped[p.Name] = append(grouped[p.Name], p)] for every project: the
    key is the name only. *)
Definition groupByName (ps : list Project.t) : gmap string (list Project.t) :=
  foldl (fun grouped p =>
           <[Project.Name p := default [] (grouped !! Project.Name p) ++ [p]]> grouped)
        ∅ ps.

(** The [less] function handed to [sort.Slice]: [Created] ascending, as Go
    compares strings. *)
Definition createdLess (a b : Project.t) : bool :=
  String.ltb (Project.Created a) (Project.Created b).

(** The loop over [grouped]: groups of fewer than two projects are skipped,
    the others are sorted and kept.  Go ranges over a map in no fixed order;
    the model goes through the entries in the order of [map_to_list]. *)
Definition findDuplicateGroups (ps : list Project.t) : list duplicateGroup :=
  omap (fun '(k, projs) =>
          if (length projs <? 2)%nat then None
          else Some (mkGroup k (sort_Slice createdLess projs)))
       (map_to_list (groupByName ps)).

(** The body of the task [runDedup] starts for each org. *)
Definition scanOrg (debug : bool) (o : Org.t) : M dedupResult :=
  let label := orgLabelOf o in
  fetched <- callFetchProjects (Org.ID o) ;;
  match fetched with
  | Err e =>
      ret (mkDedupResult (Org.ID o) label [] 0
             (Some (Wrapped "fetch projects" e)))
  | Ok ps =>
      print (LogFetched label (length ps)) ;;;
      (if debug then forEach ps (fun p => print (LogDebugProject p))
       else ret tt) ;;;
      ret (mkDedupResult (Org.ID o) label (findDuplicateGroups ps)
             (length ps) None)
  end.

(** The loop that drains the results channel: failed orgs are counted and
    warned about, orgs with at least one group are kept for the two phases. *)
Fixpoint collectResults (results : list dedupResult)
  : M (list collectedResult * Z) :=
  match results with
  | [] => ret ([], 0)
  | res :: rest =>
      match dedup_err res with
      | Some e =>
          print (WarnFailedOrg (dedup_orgLabel res) e) ;;;
          collected <- collectResults rest ;;
          ret (fst collected, 1 + snd collected)
      | None =>
          collected <- collectResults rest ;;
          if (0 <? length (dedup_groups res))%nat then
            ret (mkCollected (dedup_orgID res) (dedup_orgLabel res)
                   (dedup_groups res) :: fst collected, snd collected)
          else ret collected
      end
  end.

(** Phase 1, one duplicate: deleted in delete mode, reported otherwise. *)
Definition resolveDuplicate (doDelete : bool) (org : string) (d : Project.t)
  : M unit :=
  if doDelete then
    failure <- callDeleteProject org (Project.ID d) ;;
    match failure with
    | Some e =>
        updateCounters (fun c =>
          mkCounters (totalDuplicates c) (totalDeleted c) (totalFailed c + 1)
            (targetsDeleted c) (targetsFailed c)) ;;;
        print (PrintDeleteFailed d e)
    | None =>
        updateCounters (fun c =>
          mkCounters (totalDuplicates c) (totalDeleted c + 1) (totalFailed c)
            (targetsDeleted c) (targetsFailed c)) ;;;
        print (PrintDeleted d)
    end
  else print (PrintWouldDelete d).

(** Phase 1, one group: [g.projects[0]] is kept, [g.projects[1:]] are the
    duplicates.  Indexing an empty slice panics. *)
Definition resolveGroup (doDelete : bool) (org : string) (g : duplicateGroup)
  : M unit :=
  match projects g with
  | [] => abort Panic
  | original :: dupes =>
      updateCounters (fun c =>
        mkCounters (totalDuplicates c + Z.of_nat (length dupes))
          (totalDeleted c) (totalFailed c) (targetsDeleted c) (targetsFailed c)) ;;;
      print (PrintDuplicate (Project.Name original)) ;;;
      print (PrintKeep original) ;;;
      forEach dupes (resolveDuplicate doDelete org)
  end.

(** Phase 1: report and optionally delete duplicate projects. *)
Definition phase1 (doDelete : bool) (orgsWithDuplicates : list collectedResult)
  : M unit :=
  forEach orgsWithDuplicates (fun res =>
    print (PrintOrg (orgLabel res)) ;;;
    forEach (groups res) (resolveGroup doDelete (orgID res))).

(** The set [orgsAffected] the phase-1 loop fills: the IDs of the orgs with
    duplicates. *)
Definition orgsAffectedOf (orgsWithDuplicates : list collectedResult)
  : gset string :=
  list_to_set (map orgID orgsWithDuplicates).

(** The set of target IDs that still have projects: [activeTargets]. *)
Definition activeTargetsOf (ps : list Project.t) : gmap string bool :=
  foldl (fun active p =>
           if negb (String.eqb (Project.TargetID p) EmptyString)
           then <[Project.TargetID p := true]> active
           else active)
        ∅ ps.

(** [activeTargets[id]]: a missing key reads as [false]. *)
Definition isActive (active : gmap string bool) (id : string) : bool :=
  default false (active !! id).

(** Targets grouped by display name: [targetsByName]. *)
Definition groupTargetsByName (ts : list APITarget.t)
  : gmap string (list APITarget.t) :=
  foldl (fun byName t =>
           <[APITarget.DisplayName t :=
               default [] (byName !! APITarget.DisplayName t) ++ [t]]> byName)
        ∅ ts.

(** The targets the loop over [targetsByName] reaches past both [continue]s:
    for each name with at least two targets, those that are not active. *)
Definition emptyDuplicateTargets (ts : list APITarget.t) (ps : list Project.t)
  : list APITarget.t :=
  let activeTargets := activeTargetsOf ps in
  flat_map (fun '(_, tgts) =>
              if (length tgts <? 2)%nat then []
              else filter (fun t => negb (isActive activeTargets (APITarget.ID t)))
                     tgts)
           (map_to_list (groupTargetsByName ts)).

(** Phase 2, one empty duplicate target: deleted in delete mode, reported
    otherwise (and counted for the dry-run summary). *)
Definition cleanTarget (doDelete : bool) (org : string) (t : APITarget.t)
  : M unit :=
  if doDelete then
    failure <- callDeleteTarget org (APITarget.ID t) ;;
    match failure with
    | Some e =>
        updateCounters (fun c =>
          mkCounters (totalDuplicates c) (totalDeleted c) (totalFailed c)
            (targetsDeleted c) (targetsFailed c + 1)) ;;;
        print (LogTargetDeleteFailed org t e)
    | None =>
        updateCounters (fun c =>
          mkCounters (totalDuplicates c) (totalDeleted c) (totalFailed c)
            (targetsDeleted c + 1) (targetsFailed c)) ;;;
        print (PrintTargetDeleted org t)
    end
  else
    print (PrintTargetWouldDelete org t) ;;;
    updateCounters (fun c =>
      mkCounters (totalDuplicates c) (totalDeleted c) (totalFailed c)
        (targetsDeleted c + 1) (targetsFailed c)).

(** Phase 2 for one affected org: fetch its targets, fetch its projects
    again, and clean up the empty duplicate targets. *)
Definition phase2Org (doDelete : bool) (org : string) : M unit :=
  fetchedTargets <- callFetchTargets org ;;
  match fetchedTargets with
  | Err e => print (WarnFetchTargets org e)
  | Ok ts =>
      refetched <- callFetchProjects org ;;
      match refetched with
      | Err e => print (WarnRefetchProjects org e)
      | Ok ps => forEach (emptyDuplicateTargets ts ps) (cleanTarget doDelete org)
      end
  end.

(** Phase 2: find and clean up empty duplicate targets, in the orgs phase 1
    marked as affected.  Go ranges over [orgsAffected] in no fixed order; the
    model goes through [elements]. *)
Definition phase2 (doDelete : bool) (orgsAffected : gset string) : M unit :=
  if (0 <? size orgsAffected)%nat then
    c <- getCounters ;;
    (if doDelete then print PrintCleaningUp
     else if 0 <? totalDuplicates c then print PrintWouldRemoveHeader
     else ret tt) ;;;
    forEach (elements orgsAffected) (phase2Org doDelete)
  else ret tt.

(** The summary at the end of [runDedup]. *)
Definition printSummary (doDelete : bool) (orgsAffected : gset string)
    (failedOrgs : Z) : M unit :=
  c <- getCounters ;;
  (if (totalDuplicates c =? 0) && (targetsDeleted c =? 0) then
     print PrintNoDuplicates
   else if doDelete then
     print (PrintSummaryDelete (totalDuplicates c) (size orgsAffected)
              (totalDeleted c) (totalFailed c)) ;;;
     (if (0 <? targetsDeleted c) || (0 <? targetsFailed c)
      then print (PrintSummaryTargets (targetsDeleted c) (targetsFailed c))
      else ret tt)
   else
     print (PrintSummaryDryRun (totalDuplicates c) (size orgsAffected)) ;;;
     (if 0 <? targetsDeleted c
      then print (PrintSummaryDryRunTargets (targetsDeleted c))
      else ret tt) ;;;
     print PrintRunWithDelete) ;;;
  (if 0 <? failedOrgs then print (PrintFailedOrgs failedOrgs) else ret tt).

(** [runDedup] once the flags are parsed and the orgs resolved.  The per-org
    tasks are run one after the other, in the order of [orgs], and hand their
    results to the collector in that order. *)
Definition runDedup (doDelete debug : bool) (orgs : list Org.t) : M unit :=
  results <- mapM (scanOrg debug) orgs ;;
  collected <- collectResults results ;;
  let orgsWithDuplicates := fst collected in
  let failedOrgs := snd collected in
  phase1 doDelete orgsWithDuplicates ;;;
  phase2 doDelete (orgsAffectedOf orgsWithDuplicates) ;;;
  printSummary doDelete (orgsAffectedOf orgsWithDuplicates) failedOrgs.

(** A run starts with an empty trace and all counters at zero. *)
Definition initialState (r : Remote) : State :=
  mkState r [] (mkCounters 0 0 0 0 0).

(** *** [runRefresh]: the import targets of every org *)

(** The helpers of [internal/targets.go] as [runRefresh] uses them.
    [ProjectToTarget] returns [None] for [ok = false]. *)
Variable Target : Type.
Variable IsSCMOrigin : string -> bool.
Variable OriginToIntegrationKey : string -> string.
Variable ProjectToTarget : string -> string -> string -> option Target.
Variable TargetID : string -> string -> Target -> string.

(** [ImportTarget]: one entry of the output file. *)
Record ImportTarget : Type := mkImportTarget {
  import_Target : Target;
  OrgID : string;
  IntegrationID : string
}.

Record OrgMeta : Type := mkOrgMeta { meta_Name : string; meta_Slug : string }.

Record orgResult : Type := mkOrgResult {
  targets : list ImportTarget;
  orgMeta : gmap string OrgMeta;
  intMeta : gmap string string;
  gitlabCount : Z;
  refresh_err : option error;
  refresh_orgID : string;
  refresh_orgLabel : string
}.

(** [RefreshOutput] is the structure written to the output file. *)
Record RefreshOutput : Type := mkOutput {
  GroupID : string;
  Orgs : gmap string OrgMeta;
  Integrations : gmap string string;
  Targets : list ImportTarget
}.

(** The local variables the conversion loop changes. *)
Record conversion : Type := mkConversion {
  seen : gmap string bool;
  gitlabSkipped : Z;
  converted : list ImportTarget
}.

(** One turn of the loop over the projects of an org; every [continue]
    leaves the state as it is. *)
Definition convertProject (integrationType org : string)
    (integrations : gmap string string) (st : conversion) (p : Project.t)
  : conversion :=
  if String.eqb (Project.Origin p) "gitlab" then
    mkConversion (seen st) (gitlabSkipped st + 1) (converted st)
  else if negb (IsSCMOrigin (Project.Origin p)) then st
  else if negb (String.eqb integrationType EmptyString)
          && negb (String.eqb (Project.Origin p) integrationType)
          && negb (String.eqb (OriginToIntegrationKey (Project.Origin p))
                     integrationType)
  then st
  else
    let intKey := OriginToIntegrationKey (Project.Origin p) in
    match integrations !! intKey with
    | None => st
    | Some integrationID =>
        if String.eqb integrationID EmptyString then st
        else
          let branch :=
            if String.eqb (Project.Branch p) EmptyString
            then Project.TargetReference p else Project.Branch p in
          match ProjectToTarget (Project.Name p) (Project.Origin p) branch with
          | None => st
          | Some target =>
              let tid := TargetID org integrationID target in
              if default false (seen st !! tid) then st
              else
                mkConversion (<[tid := true]> (seen st)) (gitlabSkipped st)
                  (converted st
                     ++ [mkImportTarget target org integrationID])
          end
    end.

(** The whole loop, from an empty [seen] map. *)
Definition convertProjects (integrationType org : string)
    (integrations : gmap string string) (ps : list Project.t) : conversion :=
  foldl (convertProject integrationType org integrations)
        (mkConversion ∅ 0 []) ps.

(** [res.intMeta[intID] = intType] for every integration of the org. *)
Definition integrationMeta (integrations : gmap string string)
  : gmap string string :=
  foldl (fun meta '(intType, intID) => <[intID := intType]> meta)
        ∅ (map_to_list integrations).

(** The body of the task [runRefresh] starts for each org.  Its two fetches
    run side by side in the program; the model makes them one after the
    other. *)
Definition refreshOrg (integrationType : string) (o : Org.t) : M orgResult :=
  let label := orgLabelOf o in
  let meta : gmap string OrgMeta :=
    if negb (String.eqb (Org.Name o) EmptyString)
       || negb (String.eqb (Org.Slug o) EmptyString)
    then {[ Org.ID o := mkOrgMeta (Org.Name o) (Org.Slug o) ]} else ∅ in
  listed <- callListIntegrations (Org.ID o) ;;
  fetched <- callFetchProjects (Org.ID o) ;;
  match listed, fetched with
  | Err e, _ =>
      ret (mkOrgResult [] meta ∅ 0 (Some (Wrapped "list integrations" e))
             (Org.ID o) label)
  | Ok _, Err e =>
      ret (mkOrgResult [] meta ∅ 0 (Some (Wrapped "fetch projects" e))
             (Org.ID o) label)
  | Ok integrations, Ok ps =>
      if (length ps =? 0)%nat then
        ret (mkOrgResult [] meta (integrationMeta integrations) 0 None
               (Org.ID o) label)
      else
        let st := convertProjects integrationType (Org.ID o) integrations ps in
        ret (mkOrgResult (converted st) meta (integrationMeta integrations)
               (gitlabSkipped st) None (Org.ID o) label)
  end.

(** The loop that drains the results channel of [runRefresh] into the
    output; the results of failed orgs are left out. *)
Fixpoint collectOutput (out : RefreshOutput) (results : list orgResult)
  : M RefreshOutput :=
  match results with
  | [] => ret out
  | res :: rest =>
      match refresh_err res with
      | Some e =>
          print (WarnFailedOrg (refresh_orgLabel res) e) ;;;
          collectOutput out rest
      | None =>
          (if 0 <? gitlabCount res
           then print (WarnGitlabSkipped (refresh_orgLabel res) (gitlabCount res))
           else ret tt) ;;;
          (if (0 <? length (targets res))%nat
           then print (LogOrgTargets (refresh_orgLabel res) (length (targets res)))
           else if gitlabCount res =? 0
                then print (LogNoSCMProjects (refresh_orgLabel res))
                else ret tt) ;;;
          collectOutput
            (mkOutput (GroupID out) (orgMeta res ∪ Orgs out)
               (intMeta res ∪ Integrations out) (Targets out ++ targets res))
            rest
      end
  end.

(** [runRefresh] once the flags are parsed and the orgs resolved, up to the
    output structure it marshals and writes. *)
Definition runRefresh (groupID integrationType : string) (orgs : list Org.t)
  : M RefreshOutput :=
  results <- mapM (refreshOrg integrationType) orgs ;;
  out <- collectOutput (mkOutput groupID ∅ ∅ []) results ;;
  (if (length (Targets out) =? 0)%nat then print LogNoTargets else ret tt) ;;;
  ret out.

(** A page loop at [url], with the remote in state [r], gets a 200 reply
    that decodes to [page] and leaves the remote in state [r']. *)
Definition pageServed (url : string) (r : Remote) (page : Page.t) (r' : Remote)
  : Prop :=
  exists req resp,
    http_NewRequest "GET" url = Ok req
    /\ DoWithRetry (withHeaders "application/vnd.api+json" req) r = (Ok resp, r')
    /\ Http.StatusCode resp = 200
    /\ json_Unmarshal_page (Http.Body resp) = Ok page.

(** A page loop at [url] gets a reply with status [status] and body [body]. *)
Definition pageReplied (url : string) (r : Remote) (status : Z) (body : string)
    (r' : Remote) : Prop :=
  exists req,
    http_NewRequest "GET" url = Ok req
    /\ DoWithRetry (withHeaders "application/vnd.api+json" req) r
       = (Ok (Http.mkResponse status body), r').

(** *** Reading a trace *)

(** The API calls of a trace, in order. *)
Definition callsOf (tr : list Event) : list Call :=
  omap (fun e => match e with Called c => Some c | _ => None end) tr.

(** The projects a trace reports as kept ([keep:] lines). *)
Definition keptOf (tr : list Event) : list Project.t :=
  omap (fun e => match e with Printed (PrintKeep p) => Some p | _ => None end) tr.

(** The projects a dry run reports as duplicates to delete ([delete:] lines). *)
Definition wouldDeleteOf (tr : list Event) : list Project.t :=
  omap (fun e => match e with
                 | Printed (PrintWouldDelete d) => Some d
                 | _ => None
                 end) tr.

(** The targets a dry run reports as empty duplicates, with their org. *)
Definition wouldDeleteTargetsOf (tr : list Event) : list (string * APITarget.t) :=
  omap (fun e => match e with
                 | Printed (PrintTargetWouldDelete org t) => Some (org, t)
                 | _ => None
                 end) tr.

(** [e] is part of the target clean-up of org [org]: a fetch of its targets,
    the deletion of one of them, or a line about one of them. *)
Definition touchesTargetsOf (org : string) (e : Event) : Prop :=
  match e with
  | Called (CallFetchTargets o) => o = org
  | Called (CallDeleteTarget o _) => o = org
  | Printed (WarnFetchTargets o _) => o = org
  | Printed (WarnRefetchProjects o _) => o = org
  | Printed (LogTargetDeleteFailed o _ _) => o = org
  | Printed (PrintTargetDeleted o _) => o = org
  | Printed (PrintTargetWouldDelete o _) => o = org
  | _ => False
  end.

(** Every event a computation adds to the trace satisfies [Q], whether the
    computation ends or aborts. *)
Definition emitsOnly {A : Type} (Q : Event -> Prop) (m : M A) : Prop :=
  forall s, exists new, trace (m s).2 = trace s ++ new /\ Forall Q new.

(** Every value a computation ends with satisfies [P]. *)
Definition returns {A : Type} (m : M A) (P : A -> Prop) : Prop :=
  forall s a s', m s = (Done a, s') -> P a.

(** An event that is part of no target clean-up. *)
Definition noTargetEvent (e : Event) : Prop :=
  forall org, ~ touchesTargetsOf org e.

(** An event that is part of the target clean-up of orgs in [X] only. *)
Definition targetEventsWithin (X : string -> Prop) (e : Event) : Prop :=
  forall org, touchesTargetsOf org e -> X org.

(** The scan of [org] found at least one duplicate group: one of the scan
    results is for [org], has no error and has a group. *)
Definition hasDuplicates (results : list dedupResult) (org : string) : Prop :=
  exists res, res ∈ results /\ dedup_orgID res = org
              /\ dedup_err res = None /\ dedup_groups res <> [].

(** A computation never indexes a slice out of range. *)
Definition neverPanics {A : Type} (m : M A) : Prop :=
  forall s, (m s).1 <> Aborted Panic.



(** *** Counting what a run printed *)

(** How many lines of a trace [f] holds of. *)
Fixpoint countLines (f : Line -> bool) (tr : list Event) : Z :=
  match tr with
  | [] => 0
  | Printed l :: rest => (if f l then 1 else 0) + countLines f rest
  | Called _ :: rest => countLines f rest
  end.

(** How many deletions of a project a trace calls. *)
Fixpoint countProjectDeletions (tr : list Event) : Z :=
  match tr with
  | [] => 0
  | Called (CallDeleteProject _ _) :: rest => 1 + countProjectDeletions rest
  | _ :: rest => countProjectDeletions rest
  end.

Definition isWouldDelete (l : Line) : bool :=
  match l with PrintWouldDelete _ => true | _ => false end.

Definition isDeleted (l : Line) : bool :=
  match l with PrintDeleted _ => true | _ => false end.

Definition isDeleteFailed (l : Line) : bool :=
  match l with PrintDeleteFailed _ _ => true | _ => false end.

Definition isTargetWouldDelete (l : Line) : bool :=
  match l with PrintTargetWouldDelete _ _ => true | _ => false end.

Definition isTargetDeleted (l : Line) : bool :=
  match l with PrintTargetDeleted _ _ => true | _ => false end.

Definition isTargetDeleteFailed (l : Line) : bool :=
  match l with LogTargetDeleteFailed _ _ _ => true | _ => false end.

(** The lines of the summary that give numbers, or say there are none. *)
Definition isSummary (l : Line) : bool :=
  match l with
  | PrintNoDuplicates | PrintSummaryDelete _ _ _ _ | PrintSummaryTargets _ _
  | PrintSummaryDryRun _ _ | PrintSummaryDryRunTargets _ => true
  | _ => false
  end.

(** A line of the summary says what the trace holds: its numbers are the
    numbers of lines, and of deletions called, of the trace. *)
Definition summaryTruthful (doDelete : bool) (tr : list Event) (l : Line)
  : Prop :=
  match l with
  | PrintSummaryDelete duplicates _ deleted failed =>
      doDelete = true
      /\ deleted = countLines isDeleted tr
      /\ failed = countLines isDeleteFailed tr
      /\ duplicates = deleted + failed
      /\ duplicates = countProjectDeletions tr
  | PrintSummaryTargets cleaned failed =>
      doDelete = true
      /\ cleaned = countLines isTargetDeleted tr
      /\ failed = countLines isTargetDeleteFailed tr
  | PrintSummaryDryRun duplicates _ =>
      doDelete = false
      /\ duplicates = countLines isWouldDelete tr
      /\ countProjectDeletions tr = 0
  | PrintSummaryDryRunTargets wouldRemove =>
      doDelete = false
      /\ wouldRemove = countLines isTargetWouldDelete tr
  | PrintNoDuplicates =>
      countLines isWouldDelete tr = 0
      /\ countLines isDeleted tr = 0
      /\ countLines isDeleteFailed tr = 0
      /\ countLines isTargetWouldDelete tr = 0
      /\ countLines isTargetDeleted tr = 0
      /\ countProjectDeletions tr = 0
  | _ => True
  end.

(** The counters of a state agree with its trace, up to [pending]
    duplicates that are counted and not yet gone through; the trace has no
    line of the summary yet. *)
Definition accounted (doDelete : bool) (pending : Z) (s : State) : Prop :=
  totalDuplicates (counters s)
  = countLines isWouldDelete (trace s) + countLines isDeleted (trace s)
    + countLines isDeleteFailed (trace s) + pending
  /\ totalDeleted (counters s) = countLines isDeleted (trace s)
  /\ totalFailed (counters s) = countLines isDeleteFailed (trace s)
  /\ targetsDeleted (counters s)
     = countLines isTargetDeleted (trace s)
       + countLines isTargetWouldDelete (trace s)
  /\ targetsFailed (counters s) = countLines isTargetDeleteFailed (trace s)
  /\ countProjectDeletions (trace s)
     = countLines isDeleted (trace s) + countLines isDeleteFailed (trace s)
  /\ (if doDelete
      then countLines isWouldDelete (trace s)
           + countLines isTargetWouldDelete (trace s)
      else countLines isDeleted (trace s) + countLines isDeleteFailed (trace s)
           + countLines isTargetDeleted (trace s)
           + countLines isTargetDeleteFailed (trace s)) = 0
  /\ countLines isSummary (trace s) = 0.

(** From a state where [P] holds, a computation ends in a state where [Q]
    holds of its value, or aborts in a state where [R] holds. *)
Definition hoare {A : Type} (P : State -> Prop) (m : M A)
    (Q : A -> State -> Prop) (R : State -> Prop) : Prop :=
  forall s, P s ->
    match m s with
    | (Done a, s') => Q a s'
    | (Aborted _, s') => R s'
    end.

(** *** What a refresh logs *)

(** A line the collector of [runRefresh] logs about an org says what the
    result [res] of that org holds: the error of a failed org; the number of
    gitlab projects skipped, when there are some; the number of entries,
    when there are some; that there are neither entries nor gitlab
    projects. *)
Definition logsResult (res : orgResult) (l : Line) : Prop :=
  match l with
  | WarnFailedOrg label e =>
      label = refresh_orgLabel res /\ refresh_err res = Some e
  | WarnGitlabSkipped label count =>
      label = refresh_orgLabel res /\ refresh_err res = None
      /\ count = gitlabCount res /\ 0 < count
  | LogOrgTargets label count =>
      label = refresh_orgLabel res /\ refresh_err res = None
      /\ count = length (targets res) /\ (0 < count)%nat
  | LogNoSCMProjects label =>
      label = refresh_orgLabel res /\ refresh_err res = None
      /\ targets res = [] /\ gitlabCount res = 0
  | _ => False
  end.

(** What the result of refreshing [o] holds, given what the API returned for
    [o]: the error of the listing of integrations, or else of the fetch of
    projects, each wrapped with the step that failed; or else the entries
    of the projects and the number of gitlab projects among them. *)
Definition resultOfOrg (integrationType : string) (o : Org.t) (res : orgResult)
  : Prop :=
  refresh_orgID res = Org.ID o
  /\ refresh_orgLabel res = orgLabelOf o
  /\ exists r0 listed r1 fetched r2,
       ListIntegrations (Org.ID o) r0 = (listed, r1)
       /\ FetchProjects (Org.ID o) r1 = (Some fetched, r2)
       /\ match listed, fetched with
          | Err e, _ =>
              refresh_err res = Some (Wrapped "list integrations" e)
              /\ targets res = []
          | Ok _, Err e =>
              refresh_err res = Some (Wrapped "fetch projects" e)
              /\ targets res = []
          | Ok integrations, Ok ps =>
              refresh_err res = None
              /\ targets res
                 = converted (convertProjects integrationType (Org.ID o)
                                integrations ps)
              /\ gitlabCount res
                 = Z.of_nat (length (filter (fun p => Project.Origin p = "gitlab")
                                       ps))
          end.

(** *** Manifest entries *)

(** The entry the conversion loop builds for a project before it looks at
    [seen]: [None] when one of the filters skips the project. *)
Definition entryOf (integrationType org : string)
    (integrations : gmap string string) (p : Project.t) : option ImportTarget :=
  if String.eqb (Project.Origin p) "gitlab" then None
  else if negb (IsSCMOrigin (Project.Origin p)) then None
  else if negb (String.eqb integrationType EmptyString)
          && negb (String.eqb (Project.Origin p) integrationType)
          && negb (String.eqb (OriginToIntegrationKey (Project.Origin p))
                     integrationType)
  then None
  else
    match integrations !! OriginToIntegrationKey (Project.Origin p) with
    | None => None
    | Some integrationID =>
        if String.eqb integrationID EmptyString then None
        else
          let branch :=
            if String.eqb (Project.Branch p) EmptyString
            then Project.TargetReference p else Project.Branch p in
          match ProjectToTarget (Project.Name p) (Project.Origin p) branch with
          | None => None
          | Some target => Some (mkImportTarget target org integrationID)
          end
    end.

(** The identity string of an entry, the key of [seen]. *)
Definition entryID (e : ImportTarget) : string :=
  TargetID (OrgID e) (IntegrationID e) (import_Target e).

(** First seen wins: the entries of [l] whose identity is not yet in [seen]
    and has not occurred earlier in [l]. *)
Fixpoint firstSeenFrom (seenIDs : gmap string bool) (l : list ImportTarget)
  : list ImportTarget :=
  match l with
  | [] => []
  | e :: rest =>
      if default false (seenIDs !! entryID e) then firstSeenFrom seenIDs rest
      else e :: firstSeenFrom (<[entryID e := true]> seenIDs) rest
  end.

Definition firstSeen (l : list ImportTarget) : list ImportTarget :=
  firstSeenFrom ∅ l.

(** *** Order of creation *)

(** [b] is not created before [a]: what [sort.Slice] establishes between an
    earlier element [a] and a later element [b]. *)
Definition createdOrdered (a b : Project.t) : Prop := createdLess b a = false.

(** [a] is created strictly before [b]. *)
Definition createdBefore (a b : Project.t) : Prop := createdLess a b = true.

(** What the program relies on of [sort.Slice]: the result is a rearrangement
    of the input, and no element of it is less than an earlier one. *)
Definition sortContract : Prop :=
  (forall less l, sort_Slice less l ≡ₚ l)
  /\ (forall l, StronglySorted createdOrdered (sort_Slice createdLess l)).

(** A project references a target when its target ID is set and is the
    target's ID. *)
Definition references (p : Project.t) (t : APITarget.t) : Prop :=
  Project.TargetID p <> EmptyString /\ Project.TargetID p = APITarget.ID t.

(** *** [FetchOrgs] *)

(** [json.Unmarshal] into the response struct of [FetchOrgs]: the elements of
    its [orgs] field, which the loop copies field by field into [Org]
    values. *)
Variable json_Unmarshal_orgs : string -> result (list Org.t).

(** The verb [%d] of [fmt.Sprintf] for an [int]. *)
Definition itoa (n : Z) : string := NilZero.string_of_int (Z.to_int n).

(** The local [perPage] of [FetchOrgs]. *)
Definition perPage : Z := 100.

(** The URL of page [page] of the orgs of a group. *)
Definition orgsPageURL (groupID : string) (page : Z) : string :=
  baseURL +:+ "/v1/group/" +:+ url_PathEscape groupID
    +:+ "/orgs?perPage=" +:+ itoa perPage +:+ "&page=" +:+ itoa page.

(** What one turn of the loop of [FetchOrgs] does: go on to the next page
    number with the orgs so far, or return. *)
Inductive orgsStep : Type :=
| NextOrgsPage (allOrgs : list Org.t)
| ReturnOrgs (res : result (list Org.t)).

(** The body of the loop [for { ... }] of [FetchOrgs]. *)
Definition fetchOrgsPage (groupID : string) (page : Z) (allOrgs : list Org.t)
    (r : Remote) : orgsStep * Remote :=
  match http_NewRequest "GET" (orgsPageURL groupID page) with
  | Err e => (ReturnOrgs (Err (Wrapped "create request" e)), r)
  | Ok req =>
      match DoWithRetry (withHeaders "application/json" req) r with
      | (Err e, r') =>
          (ReturnOrgs (Err (Wrapped ("fetch orgs page " +:+ itoa page) e)), r')
      | (Ok resp, r') =>
          if negb (Http.StatusCode resp =? 200) then
            (ReturnOrgs (Err (StatusError "fetch orgs"
                                (Http.StatusCode resp) (Http.Body resp))), r')
          else
            match json_Unmarshal_orgs (Http.Body resp) with
            | Err e => (ReturnOrgs (Err (Wrapped "decode orgs response" e)), r')
            | Ok orgs =>
                if Z.of_nat (length orgs) <? perPage
                then (ReturnOrgs (Ok (allOrgs ++ orgs)), r')
                else (NextOrgsPage (allOrgs ++ orgs), r')
            end
      end
  end.

(** The loop itself.  [None] says the page budget ran out before the loop
    ended. *)
Fixpoint fetchOrgsLoop (groupID : string) (budget : nat) (page : Z)
    (allOrgs : list Org.t) (r : Remote)
  : option (result (list Org.t)) * Remote :=
  match budget with
  | O => (None, r)
  | S budget' =>
      match fetchOrgsPage groupID page allOrgs r with
      | (ReturnOrgs res, r') => (Some res, r')
      | (NextOrgsPage allOrgs', r') =>
          fetchOrgsLoop groupID budget' (page + 1) allOrgs' r'
      end
  end.

(** [FetchOrgs] fetches all organizations of a group, page after page, from
    page 1 on. *)
Definition FetchOrgs (groupID : string) (r : Remote)
  : option (result (list Org.t)) * Remote :=
  fetchOrgsLoop groupID pageBudget 1 [] r.

(** [FetchOrgs], asking for page [page] with the remote in state [r], gets a
    reply with status [status] and body [body]. *)
Definition orgsReplied (groupID : string) (page : Z) (r : Remote) (status : Z)
    (body : string) (r' : Remote) : Prop :=
  exists req,
    http_NewRequest "GET" (orgsPageURL groupID page) = Ok req
    /\ DoWithRetry (withHeaders "application/json" req) r
       = (Ok (Http.mkResponse status body), r').

(** [FetchOrgs] gets a 200 reply for page [page] that decodes to [orgs]. *)
Definition orgsServed (groupID : string) (page : Z) (r : Remote)
    (orgs : list Org.t) (r' : Remote) : Prop :=
  exists body,
    orgsReplied groupID page r 200 body r'
    /\ json_Unmarshal_orgs body = Ok orgs.

(** [FetchOrgs] reads [pages] from page number [page] on, each of them with
    at least [perPage] orgs, and then stands at page number [page']. *)
Inductive fullOrgPagesRead (groupID : string)
  : Z -> Remote -> list (list Org.t) -> Z -> Remote -> Prop :=
| fullOrgPagesRead_none (page : Z) (r : Remote) :
    fullOrgPagesRead groupID page r [] page r
| fullOrgPagesRead_page (page : Z) (r r1 : Remote) (orgs : list Org.t)
    (pages : list (list Org.t)) (page' : Z) (r' : Remote) :
    orgsServed groupID page r orgs r1 ->
    perPage <= Z.of_nat (length orgs) ->
    fullOrgPagesRead groupID (page + 1) r1 pages page' r' ->
    fullOrgPagesRead groupID page r (orgs :: pages) page' r'.

(** A [DELETE] of [url], with the remote in state [r], gets a reply with
    status [status] and body [body]. *)
Definition deleteReplied (url : string) (r : Remote) (status : Z)
    (body : string) (r' : Remote) : Prop :=
  exists req,
    http_NewRequest "DELETE" url = Ok req
    /\ DoWithRetry (withHeaders "application/vnd.api+json" req) r
       = (Ok (Http.mkResponse status body), r').

(** *** The refresh subcommand, from its flags on *)

(** Why a subcommand exits with status 1 before its run: neither of the
    flags [--groupId] and [--orgId] is given, both are given, or the orgs of
    the group could not be fetched. *)
Inductive EarlyExit : Type :=
| NoOrgFlag
| BothOrgFlags
| FetchOrgsFailed (e : error).

(** How a subcommand ends: it exits early, with the remote as it then is, or
    it gets to its run. *)
Inductive Ended (A : Type) : Type :=
| Exited (why : EarlyExit) (r : Remote)
| Ran (outcome : Outcome A) (final : State).
Arguments Exited {A} why r.
Arguments Ran {A} outcome final.

(** The orgs of a run: those of the group when a group ID is given, the one
    org of the given ID, with no name and no slug, otherwise. *)
Definition resolveOrgs (groupID orgID : string) (r : Remote)
  : option (result (list Org.t)) * Remote :=
  if negb (String.eqb groupID EmptyString) then FetchOrgs groupID r
  else (Some (Ok [Org.mk orgID EmptyString EmptyString]), r).

(** [runRefresh] from the check of its two org flags to the output
    structure, when no version is asked for and the token is read; the lines
    it logs before the orgs are processed are left out.  A fetch of the orgs
    that uses up the page budget ends the model's run there. *)
Definition refreshCommand (groupID orgID integrationType : string) (r : Remote)
  : Ended RefreshOutput :=
  if String.eqb groupID EmptyString && String.eqb orgID EmptyString
  then Exited NoOrgFlag r
  else if negb (String.eqb groupID EmptyString)
          && negb (String.eqb orgID EmptyString)
  then Exited BothOrgFlags r
  else
    match resolveOrgs groupID orgID r with
    | (None, r') => Ran (Aborted OutOfPages) (initialState r')
    | (Some (Err e), r') => Exited (FetchOrgsFailed e) r'
    | (Some (Ok orgs), r') =>
        let run := runRefresh groupID integrationType orgs (initialState r') in
        Ran run.1 run.2
    end.

(** *** Reading several pages *)

(** A page loop that starts at [url] with the remote in state [r] reads
    [pages], one after the other, each at the URL the link of the one before
    led to; it then stands at [url'] with the remote in state [r']. *)
Inductive pagesRead
  : string -> Remote -> list Page.t -> string -> Remote -> Prop :=
| pagesRead_none (url : string) (r : Remote) : pagesRead url r [] url r
| pagesRead_page (url : string) (r r1 : Remote) (page : Page.t)
    (pages : list Page.t) (url' : string) (r' : Remote) :
    url <> EmptyString ->
    pageServed url r page r1 ->
    pagesRead (nextPageURL (Page.Links page)) r1 pages url' r' ->
    pagesRead url r (page :: pages) url' r'.

(** The records of [pages], in the order of the pages and of their items. *)
Definition recordsOf {A : Type} (record : Page.Item -> A) (pages : list Page.t)
  : list A :=
  flat_map (fun page => map record (Page.Data page)) pages.

(** *** The requests a run sends *)

(** A transport that also keeps the requests it is handed, oldest first. *)
Definition logged {R : Type}
    (send : Http.Request -> R -> result Http.Response * R)
    (req : Http.Request) (rl : R * list Http.Request)
  : result Http.Response * (R * list Http.Request) :=
  let '(resp, r') := send req rl.1 in (resp, (r', rl.2 ++ [req])).

(** A URL within the API: the base URL followed by a root-relative
    path, or an HTTPS URL on the allowed host or on a subdomain of it. *)
Definition withinAPI (u : string) : Prop :=
  (exists path, u = baseURL +:+ "/" +:+ path)
  \/ exists parsed,
       url_Parse u = Some parsed
       /\ Url.Scheme parsed = "https"
       /\ (Url.Hostname parsed = apiHost
           \/ exists sub, Url.Hostname parsed = sub +:+ "." +:+ apiHost).

(** A request of a page loop for [url]: a [GET] of that URL with the token
    and the JSON:API media type in its headers. *)
Definition pageRequest (url : string) (req : Http.Request) : Prop :=
  Http.Method req = "GET"
  /\ Http.URL req = url
  /\ Http.Header req !! "Authorization" = Some ("token " +:+ token)
  /\ Http.Header req !! "Accept" = Some "application/vnd.api+json".

(** [http.NewRequestWithContext] gives a request with the method and the URL
    it is asked for. *)
Definition requestAsAsked : Prop :=
  forall method url req,
    http_NewRequest method url = Ok req ->
    Http.Method req = method /\ Http.URL req = url.


(** Between [before] and [after], a logging remote was sent requests that
    all satisfy [P], and no others. *)
Definition sends {R : Type} (P : Http.Request -> Prop)
    (before after : R * list Http.Request) : Prop :=
  exists new, after.2 = before.2 ++ new /\ Forall P new.


(** ** Properties *)

(** *** Strings *)

Lemma append_nil_l (t : string) : EmptyString +:+ t = t.
Proof. reflexivity. Qed.

Lemma append_cons (a : ascii) (s t : string) :
  String a s +:+ t = String a (s +:+ t).
Proof. reflexivity. Qed.

Lemma append_nil_r (s : string) : s +:+ EmptyString = s.
Proof. induction s as [|a s IH]; [reflexivity|]. rewrite append_cons, IH. reflexivity. Qed.

Lemma append_assoc (s t u : string) : (s +:+ t) +:+ u = s +:+ (t +:+ u).
Proof.
  induction s as [|a s IH]; [reflexivity|].
  rewrite !append_cons, IH. reflexivity.
Qed.

Lemma HasPrefix_empty (s : string) : Strings.HasPrefix s EmptyString = true.
Proof. destruct s; reflexivity. Qed.

Lemma HasPrefix_slash (s : string) :
  Strings.HasPrefix s "/" = true <-> exists rest, s = "/" +:+ rest.
Proof.
  destruct s as [|a s]; cbn [Strings.HasPrefix].
  - split; [discriminate | intros [rest H]; discriminate].
  - destruct (Ascii.eqb_spec "/" a) as [<-|Hne].
    + rewrite HasPrefix_empty. split; [exists s; reflexivity | reflexivity].
    + split; [discriminate|].
      intros [rest H]. rewrite append_cons in H. congruence.
Qed.

Lemma HasSuffix_spec (s suf : string) :
  Strings.HasSuffix s suf = true <-> exists pre, s = pre +:+ suf.
Proof.
  induction s as [|a s IH]; cbn [Strings.HasSuffix].
  - destruct (String.eqb_spec EmptyString suf) as [<-|Hne].
    + split; [exists EmptyString; reflexivity | reflexivity].
    + split; [discriminate|].
      intros [[|b pre] H]; [rewrite append_nil_l in H; congruence|].
      rewrite append_cons in H. discriminate.
  - destruct (String.eqb_spec (String a s) suf) as [<-|Hne].
    + split; [exists EmptyString; reflexivity | reflexivity].
    + rewrite IH. split.
      * intros [pre ->]. exists (String a pre). reflexivity.
      * intros [[|b pre] H]; [rewrite append_nil_l in H; congruence|].
        rewrite append_cons in H. injection H as _ ->. eauto.
Qed.

Lemma append_empty_inv (s1 s2 : string) :
  s1 +:+ s2 = EmptyString -> s1 = EmptyString /\ s2 = EmptyString.
Proof.
  destruct s1; [rewrite append_nil_l; auto|].
  rewrite append_cons. discriminate.
Qed.

(** *** The next-link check *)

Lemma isAllowedNextURL_true (nextURL allowedHost : string) :
  isAllowedNextURL nextURL allowedHost = true <->
  nextURL <> EmptyString
  /\ ((exists rest, nextURL = "/" +:+ rest)
      \/ exists u, url_Parse nextURL = Some u
                   /\ Url.Scheme u = "https"
                   /\ (Url.Hostname u = allowedHost
                       \/ exists sub, Url.Hostname u = sub +:+ "." +:+ allowedHost)).
Proof.
  unfold isAllowedNextURL.
  destruct (String.eqb_spec nextURL EmptyString) as [->|Hne].
  { split; [discriminate | intros [H _]; congruence]. }
  destruct (Strings.HasPrefix nextURL "/") eqn:Hpre.
  { apply HasPrefix_slash in Hpre. split; auto. }
  assert (Hrel : ~ exists rest, nextURL = "/" +:+ rest).
  { intros H. apply HasPrefix_slash in H. congruence. }
  destruct (url_Parse nextURL) as [u|] eqn:Hparse.
  2:{ split; [discriminate|]. intros [_ [H|(u & H & _)]]; [contradiction | discriminate]. }
  destruct (String.eqb_spec (Url.Scheme u) "https") as [Hs|Hs]; simpl.
  - rewrite orb_true_iff, HasSuffix_spec.
    destruct (String.eqb_spec (Url.Hostname u) allowedHost) as [Hh|Hh].
    + split; [|auto]. intros _. split; [assumption|]. right. eauto.
    + split.
      * intros [H|H]; [discriminate|]. split; [assumption|]. right. eauto.
      * intros [_ [H|(u' & Hu & _ & H)]]; [contradiction|].
        injection Hu as <-. destruct H; auto.
  - split; [discriminate|].
    intros [_ [H|(u' & Hu & Hs' & _)]]; [contradiction|]. congruence.
Qed.

(** *** The page loop *)

Lemma fetchLoop_at {A : Type} (what : string) (record : Page.Item -> A)
    (budget : nat) (url : string) (records : list A) (r : Remote) :
  url <> EmptyString ->
  fetchLoop what record (S budget) url records r =
  match fetchPage what record url records r with
  | (Return res, r') => (Some res, r')
  | (NextPage next records', r') => fetchLoop what record budget next records' r'
  end.
Proof.
  intros Hurl. cbn [fetchLoop].
  destruct (String.eqb_spec url EmptyString); [contradiction | reflexivity].
Qed.

Lemma fetchLoop_end {A : Type} (what : string) (record : Page.Item -> A)
    (budget : nat) (records : list A) (r : Remote) :
  fetchLoop what record budget EmptyString records r = (Some (Ok records), r).
Proof. destruct budget; reflexivity. Qed.

Lemma fetchPage_served {A : Type} (what : string) (record : Page.Item -> A)
    (url : string) (records : list A) (r r' : Remote) (page : Page.t) :
  pageServed url r page r' ->
  fetchPage what record url records r =
  (NextPage (nextPageURL (Page.Links page))
     (records ++ map record (Page.Data page)), r').
Proof.
  intros (req & resp & Hreq & Hdo & Hstatus & Hjson).
  unfold fetchPage. rewrite Hreq, Hdo, Hstatus. cbn. rewrite Hjson. reflexivity.
Qed.

Lemma fetchPage_replied {A : Type} (what : string) (record : Page.Item -> A)
    (url : string) (records : list A) (r r' : Remote) (status : Z) (body : string) :
  pageReplied url r status body r' ->
  fetchPage what record url records r =
  if status =? 404 then (Return (Ok records), r')
  else if negb (status =? 200) then
    (Return (Err (StatusError ("fetch " +:+ what) status body)), r')
  else
    match json_Unmarshal_page body with
    | Err e => (Return (Err (Wrapped ("decode " +:+ what) e)), r')
    | Ok page =>
        (NextPage (nextPageURL (Page.Links page))
           (records ++ map record (Page.Data page)), r')
    end.
Proof.
  intros (req & Hreq & Hdo). unfold fetchPage. rewrite Hreq, Hdo. reflexivity.
Qed.

Lemma isAllowedNextURL_empty (allowedHost : string) :
  isAllowedNextURL EmptyString allowedHost = false.
Proof. reflexivity. Qed.

Lemma nextPageURL_string (links : gmap string JSON) (nextStr : string) :
  links !! "next" = Some (JString nextStr) ->
  nextPageURL links =
  if isAllowedNextURL nextStr apiHost then
    if Strings.HasPrefix nextStr "/" then baseURL +:+ nextStr else nextStr
  else EmptyString.
Proof.
  intros Hnext. unfold nextPageURL. rewrite Hnext.
  destruct (String.eqb_spec nextStr EmptyString) as [->|Hne]; reflexivity.
Qed.

Lemma followed_nonempty (nextStr : string) :
  isAllowedNextURL nextStr apiHost = true ->
  (if Strings.HasPrefix nextStr "/" then baseURL +:+ nextStr else nextStr)
  <> EmptyString.
Proof.
  intros Hallowed.
  assert (Hne : nextStr <> EmptyString).
  { intros ->. rewrite isAllowedNextURL_empty in Hallowed. discriminate. }
  destruct (Strings.HasPrefix nextStr "/"); [|assumption].
  intros H. apply append_empty_inv in H as [_ H]. contradiction.
Qed.

(** C1.  A continuation link is followed exactly when it is a root-relative
    path, or parses as an absolute HTTPS URL whose hostname is the allowed
    host or ends with ["."] followed by the allowed host.  A page loop that
    reads a page with any other link ends there and returns the records read
    so far, with no error; with a link that passes, it goes on to a
    (non-empty) next URL.  [url.Parse] gives the empty string no HTTPS
    scheme. *)
Theorem pagination_link_followed_iff (nextStr allowedHost : string) :
  (forall u, url_Parse EmptyString = Some u -> Url.Scheme u <> "https") ->
  (isAllowedNextURL nextStr allowedHost = true <->
     (exists rest, nextStr = "/" +:+ rest)
     \/ exists u, url_Parse nextStr = Some u
                  /\ Url.Scheme u = "https"
                  /\ (Url.Hostname u = allowedHost
                      \/ exists sub, Url.Hostname u = sub +:+ "." +:+ allowedHost))
  /\ forall (A : Type) (what : string) (record : Page.Item -> A) (budget : nat)
       (url : string) (records : list A) (r r' : Remote) (page : Page.t),
       url <> EmptyString ->
       pageServed url r page r' ->
       Page.Links page !! "next" = Some (JString nextStr) ->
       (isAllowedNextURL nextStr apiHost = false ->
        fetchLoop what record (S budget) url records r
        = (Some (Ok (records ++ map record (Page.Data page))), r'))
       /\ (isAllowedNextURL nextStr apiHost = true ->
           exists next,
             next <> EmptyString
             /\ next = (if Strings.HasPrefix nextStr "/"
                        then baseURL +:+ nextStr else nextStr)
             /\ fetchLoop what record (S budget) url records r
                = fetchLoop what record budget next
                    (records ++ map record (Page.Data page)) r').
Proof.
  intros Hempty. split.
  - rewrite isAllowedNextURL_true. split.
    + intros [_ H]. exact H.
    + intros H. split; [|exact H].
      intros ->. destruct H as [[rest H]|(u & Hu & Hs & _)].
      * rewrite append_cons in H. discriminate.
      * exact (Hempty u Hu Hs).
  - intros A what record budget url records r r' page Hurl Hserved Hnext.
    rewrite (fetchLoop_at _ _ _ _ _ _ Hurl), (fetchPage_served _ _ _ _ _ _ _ Hserved).
    rewrite (nextPageURL_string _ _ Hnext). split; intros Hallowed; rewrite Hallowed.
    + apply fetchLoop_end.
    + eexists. split; [|split; reflexivity].
      apply followed_nonempty. assumption.
Qed.

(** *** Status handling of the paged fetches *)

Lemma append_nonempty_r (s t : string) : t <> EmptyString -> s +:+ t <> EmptyString.
Proof. intros Ht H. apply append_empty_inv in H as [_ H]. contradiction. Qed.

Lemma projectsFirstURL_nonempty (orgID : string) :
  projectsFirstURL orgID <> EmptyString.
Proof. unfold projectsFirstURL. apply append_nonempty_r. discriminate. Qed.

Lemma targetsFirstURL_nonempty (orgID : string) :
  targetsFirstURL orgID <> EmptyString.
Proof. unfold targetsFirstURL. apply append_nonempty_r. discriminate. Qed.

Lemma fetchLoop_not_found {A : Type} (what : string) (record : Page.Item -> A)
    (budget : nat) (url : string) (records : list A) (r r' : Remote) (body : string) :
  url <> EmptyString ->
  pageReplied url r 404 body r' ->
  fetchLoop what record (S budget) url records r = (Some (Ok records), r').
Proof.
  intros Hurl Hreply.
  rewrite (fetchLoop_at _ _ _ _ _ _ Hurl), (fetchPage_replied _ _ _ _ _ _ _ _ Hreply).
  reflexivity.
Qed.

Lemma fetchLoop_bad_status {A : Type} (what : string) (record : Page.Item -> A)
    (budget : nat) (url : string) (records : list A) (r r' : Remote)
    (status : Z) (body : string) :
  url <> EmptyString ->
  pageReplied url r status body r' ->
  status <> 404 -> status <> 200 ->
  fetchLoop what record (S budget) url records r
  = (Some (Err (StatusError ("fetch " +:+ what) status body)), r').
Proof.
  intros Hurl Hreply H404 H200.
  rewrite (fetchLoop_at _ _ _ _ _ _ Hurl), (fetchPage_replied _ _ _ _ _ _ _ _ Hreply).
  destruct (Z.eqb_spec status 404); [contradiction|].
  destruct (Z.eqb_spec status 200); [contradiction|]. reflexivity.
Qed.

(** C9.  For the project fetch and the target fetch alike: a 404 reply to
    the first page gives the empty list and no error; a reply with any
    status other than 404 and 200, to the first page or to a later one,
    makes the fetch fail with an error carrying that status code and the
    reply's body. *)
Theorem paged_fetch_status_handling (orgID : string) (r r' : Remote)
    (status : Z) (body : string) :
  (0 < pageBudget)%nat ->
  (pageReplied (projectsFirstURL orgID) r status body r' ->
   (status = 404 -> FetchProjects orgID r = (Some (Ok []), r'))
   /\ (status <> 404 -> status <> 200 ->
       FetchProjects orgID r
       = (Some (Err (StatusError "fetch projects" status body)), r')))
  /\ (pageReplied (targetsFirstURL orgID) r status body r' ->
      (status = 404 -> FetchTargets orgID r = (Some (Ok []), r'))
      /\ (status <> 404 -> status <> 200 ->
          FetchTargets orgID r
          = (Some (Err (StatusError "fetch targets" status body)), r')))
  /\ (forall (budget : nat) (url : string),
        url <> EmptyString ->
        pageReplied url r status body r' ->
        status <> 404 -> status <> 200 ->
        (forall records,
            fetchLoop "projects" projectOfItem (S budget) url records r
            = (Some (Err (StatusError "fetch projects" status body)), r'))
        /\ (forall records,
               fetchLoop "targets" targetOfItem (S budget) url records r
               = (Some (Err (StatusError "fetch targets" status body)), r'))).
Proof.
  intros Hbudget. unfold FetchProjects, FetchTargets.
  destruct pageBudget as [|budget]; [lia|].
  split; [|split].
  - intros Hreply. split.
    + intros ->. eapply fetchLoop_not_found; eauto using projectsFirstURL_nonempty.
    + intros H404 H200.
      apply (fetchLoop_bad_status "projects"); auto using projectsFirstURL_nonempty.
  - intros Hreply. split.
    + intros ->. eapply fetchLoop_not_found; eauto using targetsFirstURL_nonempty.
    + intros H404 H200.
      apply (fetchLoop_bad_status "targets"); auto using targetsFirstURL_nonempty.
  - intros b url Hurl Hreply H404 H200. split; intros records.
    + apply (fetchLoop_bad_status "projects"); auto.
    + apply (fetchLoop_bad_status "targets"); auto.
Qed.

(** *** Grouping by name *)

Lemma groupByName_snoc (ps : list Project.t) (p : Project.t) :
  groupByName (ps ++ [p])
  = <[Project.Name p :=
        default [] (groupByName ps !! Project.Name p) ++ [p]]> (groupByName ps).
Proof. unfold groupByName. rewrite foldl_app. reflexivity. Qed.

(** The entry of a name holds the projects of that name, in fetch order; a
    name no project has owns no entry. *)
Lemma groupByName_lookup (ps : list Project.t) (k : string) :
  groupByName ps !! k
  = match filter (fun p => Project.Name p = k) ps with
    | [] => None
    | projs => Some projs
    end.
Proof.
  induction ps as [|p ps IH] using rev_ind.
  - reflexivity.
  - rewrite groupByName_snoc, filter_app, lookup_insert.
    destruct (decide (Project.Name p = k)) as [Hk|Hk].
    + subst k. rewrite IH. rewrite (filter_cons_True _ p []) by reflexivity.
      rewrite filter_nil.
      destruct (filter (fun q => Project.Name q = Project.Name p) ps);
        reflexivity.
    + rewrite IH. rewrite (filter_cons_False _ p []) by assumption.
      rewrite filter_nil, app_nil_r. reflexivity.
Qed.

Lemma groupByName_Some (ps projs : list Project.t) (k : string) :
  groupByName ps !! k = Some projs <->
  projs = filter (fun p => Project.Name p = k) ps /\ projs <> [].
Proof.
  rewrite groupByName_lookup.
  destruct (filter (fun p => Project.Name p = k) ps) as [|q qs].
  - split; [discriminate | intros [-> H]; contradiction].
  - split; [intros [= <-]; split; [reflexivity | discriminate]|].
    intros [-> _]. reflexivity.
Qed.

Lemma findDuplicateGroups_elem (ps : list Project.t) (g : duplicateGroup) :
  g ∈ findDuplicateGroups ps <->
  (2 <= length (filter (fun p => Project.Name p = key g) ps))%nat
  /\ projects g
     = sort_Slice createdLess (filter (fun p => Project.Name p = key g) ps).
Proof.
  unfold findDuplicateGroups. rewrite list_elem_of_omap. split.
  - intros ([k projs] & Hin & Hg).
    apply elem_of_map_to_list, groupByName_Some in Hin as [-> _].
    destruct (Nat.ltb_spec (length (filter (fun p => Project.Name p = k) ps)) 2);
      [discriminate|].
    injection Hg as <-. simpl. split; [assumption | reflexivity].
  - intros [Hlen Hprojs].
    exists (key g, filter (fun p => Project.Name p = key g) ps). split.
    + apply elem_of_map_to_list, groupByName_Some. split; [reflexivity|].
      intros H. rewrite H in Hlen. simpl in Hlen. lia.
    + destruct (Nat.ltb_spec
                  (length (filter (fun p => Project.Name p = key g) ps)) 2);
        [lia|].
      destruct g as [k projs]. simpl in *. subst projs. reflexivity.
Qed.

Lemma omap_fst_NoDup {A B : Type} (f : string * A -> option B) (kf : B -> string)
    (l : list (string * A)) :
  (forall x y, f x = Some y -> kf y = x.1) ->
  NoDup (l.*1) -> NoDup (kf <$> omap f l).
Proof.
  intros Hkey. induction l as [|x l IH]; simpl; [constructor|].
  intros Hnd. apply NoDup_cons in Hnd as [Hx Hnd].
  destruct (f x) as [y|] eqn:Hfx; [|auto].
  rewrite fmap_cons. apply NoDup_cons. split; [|auto].
  intros Hin. apply Hx.
  apply list_elem_of_fmap in Hin as (y' & Hy' & Hin').
  apply list_elem_of_omap in Hin' as (x' & Hx' & Hfx').
  apply list_elem_of_fmap. exists x'. split; [|assumption].
  rewrite <- (Hkey _ _ Hfx), <- (Hkey _ _ Hfx'). assumption.
Qed.

(** No name has two groups. *)
Lemma findDuplicateGroups_NoDup (ps : list Project.t) :
  NoDup (key <$> findDuplicateGroups ps).
Proof.
  unfold findDuplicateGroups. apply omap_fst_NoDup.
  - intros [k projs] g. destruct (length projs <? 2)%nat; [discriminate|].
    intros [= <-]. reflexivity.
  - apply NoDup_fst_map_to_list.
Qed.

(** *** Order of creation *)

Lemma ltb_total (s1 s2 : string) :
  String.ltb s1 s2 = false -> s1 <> s2 -> String.ltb s2 s1 = true.
Proof.
  unfold String.ltb. rewrite (String.compare_antisym s1 s2).
  destruct (String.compare s2 s1) eqn:Hc; simpl; try discriminate; auto.
  apply String.compare_eq_iff in Hc. congruence.
Qed.

Lemma ltb_asym (s1 s2 : string) :
  String.ltb s1 s2 = true -> String.ltb s2 s1 = false.
Proof.
  unfold String.ltb. rewrite (String.compare_antisym s1 s2).
  destruct (String.compare s2 s1); simpl; auto; discriminate.
Qed.

Lemma ltb_irrefl (s : string) : String.ltb s s = false.
Proof.
  unfold String.ltb. pose proof (String.compare_antisym s s) as H.
  destruct (String.compare s s); simpl in H; [reflexivity | discriminate | reflexivity].
Qed.

(** Two projects of a list with pairwise distinct timestamps that are
    ordered both ways are one project. *)
Lemma createdOrdered_antisym (l : list Project.t) (a b : Project.t) :
  NoDup (Project.Created <$> l) -> a ∈ l -> b ∈ l ->
  createdOrdered a b -> createdOrdered b a -> a = b.
Proof.
  intros Hnd Ha Hb Hab Hba. unfold createdOrdered, createdLess in *.
  destruct (decide (Project.Created a = Project.Created b)) as [Heq|Hne].
  - apply list_elem_of_lookup in Ha as [i Hi]. apply list_elem_of_lookup in Hb as [j Hj].
    assert (i = j).
    { eapply NoDup_lookup; [exact Hnd| |].
      - rewrite list_lookup_fmap, Hi. reflexivity.
      - rewrite list_lookup_fmap, Hj. simpl. congruence. }
    subst j. congruence.
  - apply ltb_total in Hab; [|congruence]. congruence.
Qed.

(** With pairwise distinct timestamps, a sorted list is strictly ascending. *)
Lemma sorted_distinct_strict (l : list Project.t) :
  StronglySorted createdOrdered l ->
  NoDup (Project.Created <$> l) ->
  StronglySorted createdBefore l.
Proof.
  induction 1 as [|a l Hs IH Hall]; intros Hnd; [constructor|].
  rewrite fmap_cons in Hnd. apply NoDup_cons in Hnd as [Ha Hnd].
  constructor; [auto|].
  rewrite Forall_forall in Hall |- *. intros b Hb.
  unfold createdBefore, createdLess. apply ltb_total.
  - exact (Hall b Hb).
  - intros Heq. apply Ha. rewrite <- Heq. apply list_elem_of_fmap_2. assumption.
Qed.

(** A list has one sorted rearrangement when its timestamps are pairwise
    distinct. *)
Lemma sorted_unique (l1 l2 : list Project.t) :
  NoDup (Project.Created <$> l1) ->
  StronglySorted createdOrdered l1 -> StronglySorted createdOrdered l2 ->
  l1 ≡ₚ l2 -> l1 = l2.
Proof.
  intros Hnd H1 H2 Hperm.
  apply (StronglySorted_unique_strong createdOrdered); try assumption.
  intros a b Ha Hb. apply (createdOrdered_antisym l1); try assumption.
  rewrite Hperm. assumption.
Qed.

Lemma strict_sorted_NoDup (l : list Project.t) :
  StronglySorted createdBefore l -> NoDup (Project.Created <$> l).
Proof.
  induction 1 as [|a l Hs IH Hall]; [constructor|].
  rewrite fmap_cons. apply NoDup_cons. split; [|assumption].
  intros Hin. apply list_elem_of_fmap in Hin as (b & Hab & Hb).
  rewrite Forall_forall in Hall. specialize (Hall b Hb).
  unfold createdBefore, createdLess in Hall. rewrite Hab, ltb_irrefl in Hall.
  discriminate.
Qed.

Lemma strict_sorted_ordered (l : list Project.t) :
  StronglySorted createdBefore l -> StronglySorted createdOrdered l.
Proof.
  induction 1 as [|a l Hs IH Hall]; constructor; [assumption|].
  eapply Forall_impl; [exact Hall|]. intros b Hb. apply ltb_asym. exact Hb.
Qed.

(** A group found in one fetch order is found, with the same order inside,
    in every other fetch order, when its timestamps are pairwise distinct. *)
Lemma findDuplicateGroups_fetch_order (ps ps' : list Project.t)
    (g : duplicateGroup) :
  sortContract ->
  ps' ≡ₚ ps ->
  g ∈ findDuplicateGroups ps ->
  NoDup (Project.Created <$> projects g) ->
  g ∈ findDuplicateGroups ps'.
Proof.
  intros [Hperm Hsorted] Hps Hg Hnd.
  apply findDuplicateGroups_elem in Hg as [Hlen Hprojs].
  apply findDuplicateGroups_elem.
  assert (Hf : filter (fun p => Project.Name p = key g) ps'
               ≡ₚ filter (fun p => Project.Name p = key g) ps)
    by (rewrite Hps; reflexivity).
  split; [rewrite Hf; assumption|].
  rewrite Hprojs in Hnd |- *. apply sorted_unique; auto.
  rewrite !Hperm. symmetry. assumption.
Qed.

(** *** Runs and their traces *)

Lemma callsOf_app (a b : list Event) : callsOf (a ++ b) = callsOf a ++ callsOf b.
Proof. apply omap_app. Qed.

Lemma keptOf_app (a b : list Event) : keptOf (a ++ b) = keptOf a ++ keptOf b.
Proof. apply omap_app. Qed.

Lemma wouldDeleteOf_app (a b : list Event) :
  wouldDeleteOf (a ++ b) = wouldDeleteOf a ++ wouldDeleteOf b.
Proof. apply omap_app. Qed.

Lemma wouldDeleteTargetsOf_app (a b : list Event) :
  wouldDeleteTargetsOf (a ++ b)
  = wouldDeleteTargetsOf a ++ wouldDeleteTargetsOf b.
Proof. apply omap_app. Qed.

(** A projection of traces that distributes over [++], read off the pieces a
    loop adds one by one. *)
Lemma projection_concat {A B : Type} (proj : list Event -> list B)
    (f : A -> list B) (l : list A) (news : list (list Event)) :
  proj [] = [] ->
  (forall a b, proj (a ++ b) = proj a ++ proj b) ->
  Forall2 (fun x new => proj new = f x) l news ->
  proj (concat news) = concat (f <$> l).
Proof.
  intros Hnil Happ. induction 1 as [|x new l news Hx _ IH]; simpl; [assumption|].
  rewrite Happ, Hx, IH. reflexivity.
Qed.

Lemma concat_fmap_nil {A B : Type} (l : list A) :
  concat ((fun _ => @nil B) <$> l) = [].
Proof. induction l as [|x l IH]; [reflexivity|]. rewrite fmap_cons. simpl. exact IH. Qed.

Lemma concat_fmap_singleton {A B : Type} (f : A -> B) (l : list A) :
  concat ((fun x => [f x]) <$> l) = f <$> l.
Proof. induction l as [|x l IH]; [reflexivity|]. rewrite !fmap_cons. simpl. rewrite IH. reflexivity. Qed.

(** A loop whose every turn ends adds the pieces of its turns, in order. *)
Lemma forEach_run {A : Type} (P : A -> list Event -> Prop) (body : A -> M unit)
    (l : list A) :
  (forall x s, x ∈ l ->
     exists s' new, body x s = (Done tt, s')
                    /\ trace s' = trace s ++ new /\ P x new) ->
  forall s, exists s' news,
    forEach l body s = (Done tt, s')
    /\ trace s' = trace s ++ concat news
    /\ Forall2 P l news.
Proof.
  induction l as [|x l IH]; intros Hbody s.
  - exists s, []. simpl. rewrite app_nil_r. repeat split; constructor.
  - destruct (Hbody x s) as (s1 & new & Hrun & Htrace & HP); [left|].
    destruct (IH (fun y s Hy => Hbody y s (list_elem_of_further _ _ _ Hy)) s1)
      as (s2 & news & Hrun2 & Htrace2 & Hall).
    exists s2, (new :: news). cbn [forEach]. unfold bind at 1.
    rewrite Hrun, Hrun2. split; [reflexivity|]. split.
    + rewrite Htrace2, Htrace. simpl. rewrite app_assoc. reflexivity.
    + constructor; assumption.
Qed.

Lemma resolveDuplicate_run (doDelete : bool) (org : string) (d : Project.t)
    (s : State) :
  exists s' new,
    resolveDuplicate doDelete org d s = (Done tt, s')
    /\ trace s' = trace s ++ new
    /\ (keptOf new = []
        /\ wouldDeleteOf new = (if doDelete then [] else [d])
        /\ callsOf new
           = (if doDelete then [CallDeleteProject org (Project.ID d)] else [])).
Proof.
  unfold resolveDuplicate. destruct doDelete.
  - unfold bind, callDeleteProject, callAPI.
    destruct (DeleteProject org (Project.ID d) (remote s)) as [[e|] r'];
      simpl; eexists _, _; (split; [reflexivity|]); simpl;
      rewrite <- app_assoc; (split; [reflexivity|]); repeat split.
  - simpl. eexists _, _. split; [reflexivity|]. simpl.
    split; [reflexivity|]. repeat split.
Qed.

(** Phase 1 on one group: the first project is reported as kept, the others
    are the duplicates.  In a dry run they are reported and nothing is
    called; in delete mode a deletion is called for each of them, in
    order. *)
Lemma resolveGroup_run (doDelete : bool) (org : string) (g : duplicateGroup)
    (original : Project.t) (dupes : list Project.t) (s : State) :
  projects g = original :: dupes ->
  exists s' new,
    resolveGroup doDelete org g s = (Done tt, s')
    /\ trace s' = trace s ++ new
    /\ keptOf new = [original]
    /\ wouldDeleteOf new = (if doDelete then [] else dupes)
    /\ callsOf new
       = (if doDelete
          then (fun d => CallDeleteProject org (Project.ID d)) <$> dupes
          else []).
Proof.
  intros Hg. unfold resolveGroup. rewrite Hg.
  unfold bind at 1. cbn [updateCounters].
  unfold bind at 1. cbn [print emit].
  unfold bind at 1. cbn [print emit].
  match goal with |- context [forEach dupes ?b ?s0] =>
    destruct (forEach_run
                (fun d new =>
                   keptOf new = []
                   /\ wouldDeleteOf new = (if doDelete then [] else [d])
                   /\ callsOf new
                      = (if doDelete
                         then [CallDeleteProject org (Project.ID d)] else []))
                b dupes
                (fun d s _ => resolveDuplicate_run doDelete org d s) s0)
      as (s' & news & Hrun & Htrace & Hall)
  end.
  exists s'. eexists. split; [exact Hrun|]. split.
  { rewrite Htrace. cbn [trace]. rewrite <- !app_assoc. reflexivity. }
  assert (Hk : keptOf (concat news) = concat ((fun _ => []) <$> dupes)).
  { apply projection_concat; [reflexivity | apply keptOf_app|].
    eapply Forall2_impl; [exact Hall|]. intros ? ? (H & _ & _). exact H. }
  assert (Hw : wouldDeleteOf (concat news)
               = concat ((fun d => if doDelete then [] else [d]) <$> dupes)).
  { apply projection_concat; [reflexivity | apply wouldDeleteOf_app|].
    eapply Forall2_impl; [exact Hall|]. intros ? ? (_ & H & _). exact H. }
  assert (Hc : callsOf (concat news)
               = concat ((fun d => if doDelete
                                   then [CallDeleteProject org (Project.ID d)]
                                   else []) <$> dupes)).
  { apply projection_concat; [reflexivity | apply callsOf_app|].
    eapply Forall2_impl; [exact Hall|]. intros ? ? (_ & _ & H). exact H. }
  rewrite !keptOf_app, !wouldDeleteOf_app, !callsOf_app, Hk, Hw, Hc.
  clear. rewrite concat_fmap_nil.
  destruct doDelete;
    rewrite ?concat_fmap_nil, ?(concat_fmap_singleton (fun d => d)),
      ?(concat_fmap_singleton (fun d => CallDeleteProject org (Project.ID d))),
      ?list_fmap_id;
    repeat split.
Qed.

Lemma ltb_leb (s1 s2 : string) : String.ltb s1 s2 = negb (String.leb s2 s1).
Proof.
  unfold String.ltb, String.leb. rewrite (String.compare_antisym s1 s2).
  destruct (String.compare s2 s1); reflexivity.
Qed.

Lemma ltb_trans (s1 s2 s3 : string) :
  String.ltb s1 s2 = true -> String.ltb s2 s3 = true -> String.ltb s1 s3 = true.
Proof.
  rewrite !ltb_leb, !negb_true_iff. intros H12 H23.
  destruct (String.leb s3 s1) eqn:H31; [|reflexivity].
  assert (H21 : String.leb s2 s1 = true); [|congruence].
  destruct (String.leb_total s2 s3) as [H|H]; [|congruence].
  apply Is_true_true. apply (@transitivity _ String.le _ s2 s3 s1);
    apply Is_true_true; assumption.
Qed.

Lemma single_key_group (l : list duplicateGroup) (g : duplicateGroup) :
  NoDup (key <$> l) -> g ∈ l -> (forall g', g' ∈ l -> key g' = key g) -> l = [g].
Proof.
  intros Hnd Hg Hkeys.
  destruct l as [|g1 l]; [inversion Hg|].
  rewrite fmap_cons in Hnd. apply NoDup_cons in Hnd as [Hg1 _].
  destruct l as [|g2 l].
  - apply list_elem_of_singleton in Hg. congruence.
  - exfalso. apply Hg1. rewrite fmap_cons.
    rewrite (Hkeys g1), <- (Hkeys g2); [left | right; left | left].
Qed.

Lemma group_has_duplicate (ps : list Project.t) (g : duplicateGroup) :
  sortContract -> g ∈ findDuplicateGroups ps ->
  exists original d dupes, projects g = original :: d :: dupes.
Proof.
  intros [Hperm _] Hg. apply findDuplicateGroups_elem in Hg as [Hlen Hprojs].
  rewrite <- (Permutation_length (Hperm createdLess _)), <- Hprojs in Hlen.
  destruct (projects g) as [|original [|d dupes]]; simpl in Hlen; try lia.
  eauto.
Qed.

(** C2.  The projects of an account are grouped by name alone: a group
    holds exactly the projects of its name, whatever their origin, and no
    name has two groups.  A name has a group exactly when at least two
    projects carry it.  A group whose timestamps are pairwise distinct is in
    strictly ascending order of creation, and is found unchanged in every
    other fetch order.  Phase 1 keeps the first project of a group and
    treats each of the others as a duplicate: reported in a dry run, deleted
    in delete mode.  Three projects of one name created at T1 < T2 < T3,
    fetched in any order, form the one group [T1, T2, T3]. *)
Theorem duplicate_grouping (ps : list Project.t) :
  sortContract ->
  (forall g, g ∈ findDuplicateGroups ps ->
     projects g ≡ₚ filter (fun p => Project.Name p = key g) ps)
  /\ NoDup (key <$> findDuplicateGroups ps)
  /\ (forall k, (exists g, g ∈ findDuplicateGroups ps /\ key g = k)
                <-> (2 <= length (filter (fun p => Project.Name p = k) ps))%nat)
  /\ (forall g, g ∈ findDuplicateGroups ps ->
        NoDup (Project.Created <$> projects g) ->
        StronglySorted createdBefore (projects g)
        /\ forall ps', ps' ≡ₚ ps -> g ∈ findDuplicateGroups ps')
  /\ (forall g, g ∈ findDuplicateGroups ps ->
        exists original dupes,
          projects g = original :: dupes /\ dupes <> []
          /\ forall doDelete org s, exists s' new,
               resolveGroup doDelete org g s = (Done tt, s')
               /\ trace s' = trace s ++ new
               /\ keptOf new = [original]
               /\ wouldDeleteOf new = (if doDelete then [] else dupes)
               /\ callsOf new
                  = (if doDelete
                     then (fun d => CallDeleteProject org (Project.ID d)) <$> dupes
                     else []))
  /\ (forall p1 p2 p3,
        Project.Name p1 = Project.Name p2 -> Project.Name p2 = Project.Name p3 ->
        createdBefore p1 p2 -> createdBefore p2 p3 ->
        ps ≡ₚ [p1; p2; p3] ->
        findDuplicateGroups ps = [mkGroup (Project.Name p1) [p1; p2; p3]]).
Proof.
  intros Hsort. pose proof Hsort as [Hperm Hsorted].
  split; [|split; [|split; [|split; [|split]]]].
  - intros g Hg. apply findDuplicateGroups_elem in Hg as [_ ->]. apply Hperm.
  - apply findDuplicateGroups_NoDup.
  - intros k. split.
    + intros (g & Hg & <-). apply findDuplicateGroups_elem in Hg as [Hlen _].
      exact Hlen.
    + intros Hlen.
      exists (mkGroup k (sort_Slice createdLess
                           (filter (fun p => Project.Name p = k) ps))).
      split; [|reflexivity]. apply findDuplicateGroups_elem. simpl. auto.
  - intros g Hg Hnd. split.
    + apply sorted_distinct_strict; [|assumption].
      apply findDuplicateGroups_elem in Hg as [_ ->]. apply Hsorted.
    + intros ps' Hps. eapply findDuplicateGroups_fetch_order; eauto.
  - intros g Hg.
    destruct (group_has_duplicate ps g Hsort Hg) as (original & d & dupes & Hprojs).
    exists original, (d :: dupes). split; [assumption|]. split; [discriminate|].
    intros doDelete org s. apply resolveGroup_run. assumption.
  - intros p1 p2 p3 H12 H23 Hb12 Hb23 Hps.
    assert (Hnames : forall p, p ∈ ps -> Project.Name p = Project.Name p1).
    { intros p Hp. rewrite Hps in Hp.
      rewrite !elem_of_cons, elem_of_nil in Hp.
      destruct Hp as [->|[->|[->|[]]]]; congruence. }
    assert (Hfilter : filter (fun p => Project.Name p = Project.Name p1) ps = ps).
    { clear -Hnames. induction ps as [|p l IH]; [reflexivity|].
      rewrite filter_cons_True by (apply Hnames; left).
      f_equal. apply IH. intros q Hq. apply Hnames. right. assumption. }
    assert (Hstrict : StronglySorted createdBefore [p1; p2; p3]).
    { repeat constructor; try assumption.
      unfold createdBefore, createdLess in *. eapply ltb_trans; eauto. }
    assert (Hsorted3 : sort_Slice createdLess ps = [p1; p2; p3]).
    { symmetry. apply sorted_unique.
      - apply strict_sorted_NoDup. assumption.
      - apply strict_sorted_ordered. assumption.
      - apply Hsorted.
      - rewrite Hperm. symmetry. assumption. }
    apply single_key_group.
    + apply findDuplicateGroups_NoDup.
    + apply findDuplicateGroups_elem. simpl. rewrite Hfilter. split.
      * rewrite Hps. simpl. lia.
      * symmetry. assumption.
    + intros g Hg. apply findDuplicateGroups_elem in Hg as [Hlen _]. simpl.
      destruct (filter (fun p => Project.Name p = key g) ps) as [|q qs] eqn:Hq;
        [simpl in Hlen; lia|].
      assert (Hin : q ∈ filter (fun p => Project.Name p = key g) ps)
        by (rewrite Hq; left).
      apply list_elem_of_filter in Hin as [<- Hin]. auto.
Qed.

(** *** Empty duplicate targets *)

Lemma activeTargetsOf_snoc (ps : list Project.t) (p : Project.t) :
  activeTargetsOf (ps ++ [p])
  = if negb (String.eqb (Project.TargetID p) EmptyString)
    then <[Project.TargetID p := true]> (activeTargetsOf ps)
    else activeTargetsOf ps.
Proof. unfold activeTargetsOf. rewrite foldl_app. reflexivity. Qed.

(** A target ID is active exactly when a project references it. *)
Lemma isActive_iff (ps : list Project.t) (id : string) :
  isActive (activeTargetsOf ps) id = true <->
  exists p, p ∈ ps /\ Project.TargetID p <> EmptyString /\ Project.TargetID p = id.
Proof.
  unfold isActive. induction ps as [|p ps IH] using rev_ind.
  - unfold activeTargetsOf. simpl. rewrite lookup_empty. simpl.
    split; [discriminate | intros (p & Hp & _); inversion Hp].
  - rewrite activeTargetsOf_snoc.
    destruct (String.eqb_spec (Project.TargetID p) EmptyString) as [He|Hne]; simpl.
    + rewrite IH. split.
      * intros (q & Hq & H). exists q. split; [apply elem_of_app; auto | exact H].
      * intros (q & Hq & Hne & Hid). apply elem_of_app in Hq as [Hq|Hq]; [eauto|].
        apply list_elem_of_singleton in Hq. subst q. contradiction.
    + rewrite lookup_insert. destruct (decide (Project.TargetID p = id)) as [Hid|Hid].
      * simpl. split; [|reflexivity]. intros _. exists p.
        split; [apply elem_of_app; right; apply list_elem_of_singleton; reflexivity|].
        auto.
      * rewrite IH. split.
        -- intros (q & Hq & H). exists q. split; [apply elem_of_app; auto | exact H].
        -- intros (q & Hq & Hqne & Hqid).
           apply elem_of_app in Hq as [Hq|Hq]; [eauto|].
           apply list_elem_of_singleton in Hq. subst q. contradiction.
Qed.

Lemma groupTargetsByName_snoc (ts : list APITarget.t) (t : APITarget.t) :
  groupTargetsByName (ts ++ [t])
  = <[APITarget.DisplayName t :=
        default [] (groupTargetsByName ts !! APITarget.DisplayName t) ++ [t]]>
      (groupTargetsByName ts).
Proof. unfold groupTargetsByName. rewrite foldl_app. reflexivity. Qed.

Lemma groupTargetsByName_lookup (ts : list APITarget.t) (k : string) :
  groupTargetsByName ts !! k
  = match filter (fun t => APITarget.DisplayName t = k) ts with
    | [] => None
    | tgts => Some tgts
    end.
Proof.
  induction ts as [|t ts IH] using rev_ind.
  - reflexivity.
  - rewrite groupTargetsByName_snoc, filter_app, lookup_insert.
    destruct (decide (APITarget.DisplayName t = k)) as [Hk|Hk].
    + subst k. rewrite IH. rewrite (filter_cons_True _ t []) by reflexivity.
      rewrite filter_nil.
      destruct (filter (fun u => APITarget.DisplayName u = APITarget.DisplayName t) ts);
        reflexivity.
    + rewrite IH. rewrite (filter_cons_False _ t []) by assumption.
      rewrite filter_nil, app_nil_r. reflexivity.
Qed.

(** The targets phase 2 treats as empty duplicates: those that share their
    display name with another target of the list and that no project
    references. *)
Lemma emptyDuplicateTargets_elem (ts : list APITarget.t) (ps : list Project.t)
    (t : APITarget.t) :
  t ∈ emptyDuplicateTargets ts ps <->
  t ∈ ts
  /\ (2 <= length (filter (fun u => APITarget.DisplayName u
                                    = APITarget.DisplayName t) ts))%nat
  /\ ~ exists p, p ∈ ps /\ references p t.
Proof.
  unfold emptyDuplicateTargets, references.
  rewrite list_elem_of_In, in_flat_map. split.
  - intros ([name tgts] & Hin & Ht).
    apply list_elem_of_In, elem_of_map_to_list in Hin.
    rewrite groupTargetsByName_lookup in Hin.
    destruct (Nat.ltb_spec (length tgts) 2) as [|Hlen]; [inversion Ht|].
    apply list_elem_of_In, list_elem_of_filter in Ht as [Hactive Ht].
    assert (Htgts : tgts = filter (fun u => APITarget.DisplayName u = name) ts).
    { destruct (filter (fun u => APITarget.DisplayName u = name) ts);
        [discriminate | congruence]. }
    subst tgts. apply list_elem_of_filter in Ht as [<- Ht].
    split; [assumption|]. split; [assumption|].
    intros Href. apply isActive_iff in Href.
    rewrite Href in Hactive. exact Hactive.
  - intros (Ht & Hlen & Href).
    exists (APITarget.DisplayName t,
            filter (fun u => APITarget.DisplayName u = APITarget.DisplayName t) ts).
    split.
    + apply list_elem_of_In, elem_of_map_to_list.
      rewrite groupTargetsByName_lookup.
      destruct (filter (fun u => APITarget.DisplayName u = APITarget.DisplayName t) ts);
        [simpl in Hlen; lia | reflexivity].
    + destruct (Nat.ltb_spec
                  (length (filter (fun u => APITarget.DisplayName u
                                            = APITarget.DisplayName t) ts)) 2);
        [lia|].
      apply list_elem_of_In, list_elem_of_filter. split.
      * destruct (isActive (activeTargetsOf ps) (APITarget.ID t)) eqn:Hactive;
          [|exact I].
        exfalso. apply Href. apply isActive_iff. exact Hactive.
      * apply list_elem_of_filter. auto.
Qed.

Lemma cleanTarget_run (doDelete : bool) (org : string) (t : APITarget.t)
    (s : State) :
  exists s' new,
    cleanTarget doDelete org t s = (Done tt, s')
    /\ trace s' = trace s ++ new
    /\ (callsOf new
        = (if doDelete then [CallDeleteTarget org (APITarget.ID t)] else [])
        /\ wouldDeleteTargetsOf new = (if doDelete then [] else [(org, t)])).
Proof.
  unfold cleanTarget. destruct doDelete.
  - unfold bind, callDeleteTarget, callAPI.
    destruct (DeleteTarget org (APITarget.ID t) (remote s)) as [[e|] r'];
      simpl; eexists _, _; (split; [reflexivity|]); simpl;
      rewrite <- app_assoc; (split; [reflexivity|]); repeat split.
  - simpl. eexists _, _. split; [reflexivity|]. simpl.
    split; [reflexivity|]. repeat split.
Qed.

Lemma callPaged_done {A : Type} (c : Call)
    (fetch : Remote -> option (result (list A)) * Remote)
    (s : State) (res : result (list A)) (r' : Remote) :
  fetch (remote s) = (Some res, r') ->
  callPaged c fetch s
  = (Done res, mkState r' (trace s ++ [Called c]) (counters s)).
Proof. intros H. unfold callPaged. rewrite H. reflexivity. Qed.

(** Phase 2 on one org, once both fetches have succeeded: in delete mode a
    deletion is called for each empty duplicate target and for nothing
    else; in a dry run those targets are reported and nothing is called. *)
Lemma phase2Org_run (doDelete : bool) (org : string) (s : State)
    (ts : list APITarget.t) (ps : list Project.t) (r1 r2 : Remote) :
  FetchTargets org (remote s) = (Some (Ok ts), r1) ->
  FetchProjects org r1 = (Some (Ok ps), r2) ->
  exists s' new,
    phase2Org doDelete org s = (Done tt, s')
    /\ trace s'
       = trace s ++ [Called (CallFetchTargets org); Called (CallFetchProjects org)]
           ++ new
    /\ callsOf new
       = (if doDelete
          then (fun t => CallDeleteTarget org (APITarget.ID t))
                 <$> emptyDuplicateTargets ts ps
          else [])
    /\ wouldDeleteTargetsOf new
       = (if doDelete then []
          else (fun t => (org, t)) <$> emptyDuplicateTargets ts ps).
Proof.
  intros Hts Hps. unfold phase2Org, callFetchTargets, callFetchProjects.
  unfold bind at 1. rewrite (callPaged_done _ _ s _ _ Hts). cbv beta iota.
  unfold bind at 1.
  rewrite (callPaged_done (CallFetchProjects org) (FetchProjects org)
             (mkState r1 (trace s ++ [Called (CallFetchTargets org)]) (counters s))
             (Ok ps) r2 Hps).
  cbv beta iota.
  match goal with |- context [forEach ?l ?b ?s0] =>
    destruct (forEach_run
                (fun t new =>
                   callsOf new
                   = (if doDelete
                      then [CallDeleteTarget org (APITarget.ID t)] else [])
                   /\ wouldDeleteTargetsOf new
                      = (if doDelete then [] else [(org, t)]))
                b l (fun t s _ => cleanTarget_run doDelete org t s) s0)
      as (s' & news & Hrun & Htrace & Hall)
  end.
  exists s', (concat news). split; [exact Hrun|]. split.
  { rewrite Htrace. cbn [trace]. rewrite <- !app_assoc. reflexivity. }
  split.
  - erewrite projection_concat;
      [|reflexivity | apply callsOf_app
       | eapply Forall2_impl; [exact Hall|]; intros ? ? [H _]; exact H].
    destruct doDelete;
      [apply (concat_fmap_singleton
                (fun t => CallDeleteTarget org (APITarget.ID t)))
      | apply concat_fmap_nil].
  - erewrite projection_concat;
      [|reflexivity | apply wouldDeleteTargetsOf_app
       | eapply Forall2_impl; [exact Hall|]; intros ? ? [_ H]; exact H].
    destruct doDelete;
      [apply concat_fmap_nil
      | apply (concat_fmap_singleton (fun t => (org, t)))].
Qed.

(** C3.  Phase 2 on an org whose targets [ts] and re-fetched projects [ps]
    arrive: the removal candidates are exactly the targets whose display
    name at least two targets of [ts] carry and which no project of [ps]
    references; they are deleted in delete mode and reported in a dry run,
    and nothing else is.  A target whose display name is its own is no
    candidate, even with no project; a target some project of [ps]
    references is never deleted. *)
Theorem orphaned_target_candidates (doDelete : bool) (org : string) (s : State)
    (ts : list APITarget.t) (ps : list Project.t) (r1 r2 : Remote) :
  FetchTargets org (remote s) = (Some (Ok ts), r1) ->
  FetchProjects org r1 = (Some (Ok ps), r2) ->
  (forall t, t ∈ emptyDuplicateTargets ts ps <->
             t ∈ ts
             /\ (2 <= length (filter (fun u => APITarget.DisplayName u
                                               = APITarget.DisplayName t) ts))%nat
             /\ ~ exists p, p ∈ ps /\ references p t)
  /\ (exists s' new,
        phase2Org doDelete org s = (Done tt, s')
        /\ trace s'
           = trace s
               ++ [Called (CallFetchTargets org); Called (CallFetchProjects org)]
               ++ new
        /\ callsOf new
           = (if doDelete
              then (fun t => CallDeleteTarget org (APITarget.ID t))
                     <$> emptyDuplicateTargets ts ps
              else [])
        /\ wouldDeleteTargetsOf new
           = (if doDelete then []
              else (fun t => (org, t)) <$> emptyDuplicateTargets ts ps)
        /\ forall t p, p ∈ ps -> references p t ->
             CallDeleteTarget org (APITarget.ID t) ∉ callsOf new)
  /\ (forall t,
        length (filter (fun u => APITarget.DisplayName u
                                 = APITarget.DisplayName t) ts) = 1%nat ->
        t ∉ emptyDuplicateTargets ts ps).
Proof.
  intros Hts Hps. split; [|split].
  - intros t. apply emptyDuplicateTargets_elem.
  - destruct (phase2Org_run doDelete org s ts ps r1 r2 Hts Hps)
      as (s' & new & Hrun & Htrace & Hcalls & Hwould).
    exists s', new. repeat (split; [assumption|]).
    intros t p Hp Href Hin. rewrite Hcalls in Hin.
    destruct doDelete; [|inversion Hin].
    apply list_elem_of_fmap in Hin as (t' & Hid & Ht').
    injection Hid as Hid.
    apply emptyDuplicateTargets_elem in Ht' as (_ & _ & Hno).
    apply Hno. exists p. split; [assumption|].
    destruct Href as [Hne Heq]. split; [assumption | congruence].
  - intros t Hlen Hin.
    apply emptyDuplicateTargets_elem in Hin as (_ & Hge & _). lia.
Qed.

(** *** What a run may add to its trace *)

Lemma emitsOnly_weaken {A : Type} (Q Q' : Event -> Prop) (m : M A) :
  (forall e, Q e -> Q' e) -> emitsOnly Q m -> emitsOnly Q' m.
Proof.
  intros HQ Hm s. destruct (Hm s) as (new & Htrace & Hall).
  exists new. split; [assumption|]. eapply Forall_impl; eauto.
Qed.

Lemma emitsOnly_ret {A : Type} (Q : Event -> Prop) (a : A) : emitsOnly Q (ret a).
Proof. intros s. exists []. simpl. rewrite app_nil_r. auto. Qed.

Lemma emitsOnly_abort {A : Type} (Q : Event -> Prop) (why : Abort) :
  emitsOnly Q (@abort A why).
Proof. intros s. exists []. simpl. rewrite app_nil_r. auto. Qed.

Lemma emitsOnly_bind_post {A B : Type} (Q : Event -> Prop) (P : A -> Prop)
    (m : M A) (k : A -> M B) :
  emitsOnly Q m -> returns m P -> (forall a, P a -> emitsOnly Q (k a)) ->
  emitsOnly Q (bind m k).
Proof.
  intros Hm HP Hk s. unfold bind.
  destruct (Hm s) as (new1 & Htrace1 & Hall1).
  destruct (m s) as [[a|why] s1] eqn:Hrun; simpl in Htrace1.
  - destruct (Hk a (HP _ _ _ Hrun) s1) as (new2 & Htrace2 & Hall2).
    exists (new1 ++ new2). split.
    + rewrite Htrace2, Htrace1, app_assoc. reflexivity.
    + apply Forall_app. auto.
  - exists new1. auto.
Qed.

Lemma emitsOnly_bind {A B : Type} (Q : Event -> Prop) (m : M A) (k : A -> M B) :
  emitsOnly Q m -> (forall a, emitsOnly Q (k a)) -> emitsOnly Q (bind m k).
Proof.
  intros Hm Hk. apply (emitsOnly_bind_post Q (fun _ => True)); auto.
  intros s a s' _. exact I.
Qed.

Lemma emitsOnly_print (Q : Event -> Prop) (l : Line) :
  Q (Printed l) -> emitsOnly Q (print l).
Proof. intros HQ s. exists [Printed l]. simpl. auto. Qed.

Lemma emitsOnly_updateCounters (Q : Event -> Prop) (f : Counters -> Counters) :
  emitsOnly Q (updateCounters f).
Proof. intros s. exists []. simpl. rewrite app_nil_r. auto. Qed.

Lemma emitsOnly_getCounters (Q : Event -> Prop) : emitsOnly Q getCounters.
Proof. intros s. exists []. simpl. rewrite app_nil_r. auto. Qed.

Lemma emitsOnly_callPaged {A : Type} (Q : Event -> Prop) (c : Call)
    (fetch : Remote -> option (result (list A)) * Remote) :
  Q (Called c) -> emitsOnly Q (callPaged c fetch).
Proof.
  intros HQ s. exists [Called c]. unfold callPaged.
  destruct (fetch (remote s)) as [[res|] r']; simpl; auto.
Qed.

Lemma emitsOnly_callAPI {A : Type} (Q : Event -> Prop) (c : Call)
    (f : Remote -> A * Remote) :
  Q (Called c) -> emitsOnly Q (callAPI c f).
Proof.
  intros HQ s. exists [Called c]. unfold callAPI.
  destruct (f (remote s)) as [a r']; simpl; auto.
Qed.

Lemma emitsOnly_forEach {A : Type} (Q : Event -> Prop) (l : list A)
    (body : A -> M unit) :
  (forall x, x ∈ l -> emitsOnly Q (body x)) -> emitsOnly Q (forEach l body).
Proof.
  induction l as [|x l IH]; intros Hbody; cbn [forEach].
  - apply emitsOnly_ret.
  - apply emitsOnly_bind; [apply Hbody; left|].
    intros _. apply IH. intros y Hy. apply Hbody. right. assumption.
Qed.

Lemma emitsOnly_mapM {A B : Type} (Q : Event -> Prop) (f : A -> M B)
    (l : list A) :
  (forall x, x ∈ l -> emitsOnly Q (f x)) -> emitsOnly Q (mapM f l).
Proof.
  induction l as [|x l IH]; intros Hf; cbn [mapM].
  - apply emitsOnly_ret.
  - apply emitsOnly_bind; [apply Hf; left|]. intros y.
    apply emitsOnly_bind; [|intros ys; apply emitsOnly_ret].
    apply IH. intros z Hz. apply Hf. right. assumption.
Qed.

Ltac emits_step :=
  first
    [ apply emitsOnly_ret | apply emitsOnly_abort
    | apply emitsOnly_updateCounters | apply emitsOnly_getCounters
    | apply emitsOnly_print | apply emitsOnly_callAPI
    | apply emitsOnly_callPaged | apply emitsOnly_bind
    | apply emitsOnly_forEach
    | match goal with
      | |- emitsOnly _ (if ?b then _ else _) => destruct b
      | |- emitsOnly _ (match ?x with _ => _ end) => destruct x
      | |- forall _, _ => intro
      end ].

Ltac emits := repeat emits_step.

Ltac no_target := try (intros ? Htouch; exact Htouch).

Lemma scanOrg_emits (debug : bool) (o : Org.t) :
  emitsOnly noTargetEvent (scanOrg debug o).
Proof. unfold scanOrg, callFetchProjects. emits; no_target. Qed.

Lemma collectResults_emits (results : list dedupResult) :
  emitsOnly noTargetEvent (collectResults results).
Proof.
  induction results as [|res rest IH]; cbn [collectResults]; [apply emitsOnly_ret|].
  destruct (dedup_err res).
  - apply emitsOnly_bind; [apply emitsOnly_print; no_target|]. intros _.
    apply emitsOnly_bind; [exact IH|]. intros c. apply emitsOnly_ret.
  - apply emitsOnly_bind; [exact IH|]. intros c. emits.
Qed.

Lemma phase1_emits (doDelete : bool) (orgsWithDuplicates : list collectedResult) :
  emitsOnly noTargetEvent (phase1 doDelete orgsWithDuplicates).
Proof.
  unfold phase1, resolveGroup, resolveDuplicate, callDeleteProject.
  emits; no_target.
Qed.

Lemma phase2Org_emits (doDelete : bool) (org : string) :
  emitsOnly (targetEventsWithin (fun o => o = org)) (phase2Org doDelete org).
Proof.
  unfold phase2Org, cleanTarget, callFetchTargets, callFetchProjects,
    callDeleteTarget.
  emits; intros o Htouch; simpl in Htouch; try contradiction; congruence.
Qed.

Lemma phase2_emits (doDelete : bool) (orgsAffected : gset string) :
  emitsOnly (targetEventsWithin (fun o => o ∈ orgsAffected))
    (phase2 doDelete orgsAffected).
Proof.
  unfold phase2.
  destruct (0 <? size orgsAffected)%nat; [|apply emitsOnly_ret].
  apply emitsOnly_bind; [apply emitsOnly_getCounters|]. intros c.
  apply emitsOnly_bind.
  - emits; intros o Htouch; contradiction.
  - intros _. apply emitsOnly_forEach. intros org Horg.
    eapply emitsOnly_weaken; [|apply phase2Org_emits].
    intros e He o Htouch. rewrite (He o Htouch).
    apply elem_of_elements. assumption.
Qed.

Lemma printSummary_emits (doDelete : bool) (orgsAffected : gset string)
    (failedOrgs : Z) :
  emitsOnly noTargetEvent (printSummary doDelete orgsAffected failedOrgs).
Proof. unfold printSummary. emits; no_target. Qed.

Lemma hasDuplicates_cons (res : dedupResult) (rest : list dedupResult)
    (org : string) :
  hasDuplicates rest org -> hasDuplicates (res :: rest) org.
Proof. intros (x & Hx & H). exists x. split; [right; assumption | exact H]. Qed.

(** The collector keeps an org for the two phases only when its scan found
    at least one duplicate group. *)
Lemma collectResults_returns (results : list dedupResult) :
  returns (collectResults results)
    (fun collected => forall c, c ∈ collected.1 ->
                                hasDuplicates results (orgID c)).
Proof.
  induction results as [|res rest IH]; intros s [ows failed] s' Hrun c Hc;
    cbn [collectResults] in Hrun.
  - injection Hrun as <- _ _. inversion Hc.
  - destruct (dedup_err res) eqn:Herr.
    + unfold bind at 1 in Hrun. cbn [print emit] in Hrun.
      unfold bind at 1 in Hrun.
      destruct (collectResults rest _) as [[[ows' failed']|why] s1] eqn:Hrest;
        [|discriminate].
      injection Hrun as <- _ _. apply hasDuplicates_cons.
      exact (IH _ _ _ Hrest c Hc).
    + unfold bind at 1 in Hrun.
      destruct (collectResults rest s) as [[[ows' failed']|why] s1] eqn:Hrest;
        [|discriminate].
      destruct (Nat.ltb_spec 0 (length (dedup_groups res))) as [Hlen|Hlen].
      * injection Hrun as <- _ _. simpl in Hc.
        apply elem_of_cons in Hc as [->|Hc].
        -- exists res. simpl. split; [left|]. split; [reflexivity|].
           split; [assumption|]. intros Hnil. rewrite Hnil in Hlen.
           simpl in Hlen. lia.
        -- apply hasDuplicates_cons. exact (IH _ _ _ Hrest c Hc).
      * injection Hrun as <- _ _. apply hasDuplicates_cons.
        exact (IH _ _ _ Hrest c Hc).
Qed.

Lemma mapM_returns {A B : Type} (P : A -> B -> Prop) (f : A -> M B) (l : list A) :
  (forall x, x ∈ l -> returns (f x) (P x)) ->
  returns (mapM f l) (fun ys => forall y, y ∈ ys -> exists x, x ∈ l /\ P x y).
Proof.
  induction l as [|x l IH]; intros Hf s ys s' Hrun y Hy; cbn [mapM] in Hrun.
  - injection Hrun as <- _. inversion Hy.
  - unfold bind at 1 in Hrun.
    destruct (f x s) as [[y0|why] s1] eqn:Hx; [|discriminate].
    unfold bind at 1 in Hrun.
    destruct (mapM f l s1) as [[ys0|why] s2] eqn:Hl; [|discriminate].
    injection Hrun as <- _.
    apply elem_of_cons in Hy as [->|Hy].
    + exists x. split; [left|]. exact (Hf x (list_elem_of_here _ _) _ _ _ Hx).
    + destruct (IH (fun z Hz => Hf z (list_elem_of_further _ _ _ Hz)) _ _ _ Hl y Hy)
        as (z & Hz & HP).
      exists z. split; [right; assumption | exact HP].
Qed.

(** The result of scanning an org carries the ID of the org; without an
    error, its groups are the duplicate groups of the fetched projects. *)
Lemma scanOrg_returns (debug : bool) (o : Org.t) :
  returns (scanOrg debug o)
    (fun res => dedup_orgID res = Org.ID o
                /\ (dedup_err res = None ->
                    exists ps, dedup_groups res = findDuplicateGroups ps
                               /\ dedup_projectCount res = length ps)).
Proof.
  intros s res s' Hrun. unfold scanOrg in Hrun. unfold bind at 1 in Hrun.
  destruct (callFetchProjects (Org.ID o) s) as [[[ps|e]|why] s1];
    [| |discriminate].
  - unfold bind at 1 in Hrun. cbn [print emit] in Hrun.
    unfold bind at 1 in Hrun.
    match type of Hrun with
    | context [if debug then ?a else ?b] =>
        destruct ((if debug then a else b)
                    (mkState (remote s1)
                       (trace s1 ++ [Printed (LogFetched (orgLabelOf o) (length ps))])
                       (counters s1))) as [[[]|why] s2]; [|discriminate]
    end.
    injection Hrun as <- _. simpl. split; [reflexivity|]. intros _. eauto.
  - injection Hrun as <- _. simpl. split; [reflexivity | discriminate].
Qed.

Lemma orgsAffectedOf_elem (ows : list collectedResult) (org : string) :
  org ∈ orgsAffectedOf ows <-> exists c, c ∈ ows /\ orgID c = org.
Proof.
  unfold orgsAffectedOf. rewrite elem_of_list_to_set, list_elem_of_In, in_map_iff.
  split; intros (c & H1 & H2).
  - exists c. split; [apply list_elem_of_In|]; assumption.
  - exists c. split; [|apply list_elem_of_In]; assumption.
Qed.

(** After the scan, a run adds target events only for orgs whose scan found
    duplicates. *)
Lemma afterScan_emits (doDelete : bool) (results : list dedupResult) :
  emitsOnly (targetEventsWithin (hasDuplicates results))
    (collected <- collectResults results ;;
     phase1 doDelete collected.1 ;;;
     phase2 doDelete (orgsAffectedOf collected.1) ;;;
     printSummary doDelete (orgsAffectedOf collected.1) collected.2).
Proof.
  apply (emitsOnly_bind_post _ _ _ _
           (emitsOnly_weaken _ _ _
              (fun e (He : noTargetEvent e) org Htouch =>
                 False_ind _ (He org Htouch))
              (collectResults_emits results))
           (collectResults_returns results)).
  intros collected Hcollected.
  apply emitsOnly_bind.
  { eapply emitsOnly_weaken; [|apply phase1_emits].
    intros e He org Htouch. destruct (He org Htouch). }
  intros _. apply emitsOnly_bind.
  { eapply emitsOnly_weaken; [|apply phase2_emits].
    intros e He org Htouch. specialize (He org Htouch). simpl in He.
    apply orgsAffectedOf_elem in He as (c & Hc & <-). auto. }
  intros _. eapply emitsOnly_weaken; [|apply printSummary_emits].
  intros e He org Htouch. destruct (He org Htouch).
Qed.

(** C10.  In a run of the clean-up, whatever the remote answers: every fetch
    of targets, every deletion of a target and every line about a target
    belongs to an org whose scan ended without error and found at least one
    duplicate group among the projects it fetched.  So for an org whose scan
    results all have no group, the run fetches no targets, reports none and
    deletes none. *)
Theorem phase2_only_for_orgs_with_duplicates (doDelete debug : bool)
    (orgs : list Org.t) (r : Remote) :
  (forall org e,
      e ∈ trace (runDedup doDelete debug orgs (initialState r)).2 ->
      touchesTargetsOf org e ->
      exists results s1 res o ps,
        mapM (scanOrg debug) orgs (initialState r) = (Done results, s1)
        /\ res ∈ results /\ o ∈ orgs /\ Org.ID o = org
        /\ dedup_orgID res = org /\ dedup_err res = None
        /\ dedup_groups res = findDuplicateGroups ps
        /\ findDuplicateGroups ps <> [])
  /\ (forall org,
        (forall results s1 res,
            mapM (scanOrg debug) orgs (initialState r) = (Done results, s1) ->
            res ∈ results -> dedup_orgID res = org -> dedup_groups res = []) ->
        forall e,
          e ∈ trace (runDedup doDelete debug orgs (initialState r)).2 ->
          ~ touchesTargetsOf org e).
Proof.
  assert (Hpos : forall org e,
      e ∈ trace (runDedup doDelete debug orgs (initialState r)).2 ->
      touchesTargetsOf org e ->
      exists results s1 res o ps,
        mapM (scanOrg debug) orgs (initialState r) = (Done results, s1)
        /\ res ∈ results /\ o ∈ orgs /\ Org.ID o = org
        /\ dedup_orgID res = org /\ dedup_err res = None
        /\ dedup_groups res = findDuplicateGroups ps
        /\ findDuplicateGroups ps <> []).
  { intros org e He Htouch. unfold runDedup in He. unfold bind at 1 in He.
    destruct (emitsOnly_mapM noTargetEvent (scanOrg debug) orgs
                (fun o _ => scanOrg_emits debug o) (initialState r))
      as (new1 & Htrace1 & Hall1).
    pose proof (mapM_returns _ (scanOrg debug) orgs
                  (fun o _ => scanOrg_returns debug o) (initialState r))
      as Hresults.
    destruct (mapM (scanOrg debug) orgs (initialState r))
      as [[results|why] s1] eqn:Hscan; simpl in Htrace1.
    - destruct (afterScan_emits doDelete results s1) as (new2 & Htrace2 & Hall2).
      cbv zeta in He. rewrite Htrace2, Htrace1 in He. simpl in He.
      apply elem_of_app in He as [He|He].
      + rewrite Forall_forall in Hall1. destruct (Hall1 e He org Htouch).
      + rewrite Forall_forall in Hall2.
        destruct (Hall2 e He org Htouch) as (res & Hres & Hid & Herr & Hgroups).
        destruct (Hresults results s1 eq_refl res Hres) as (o & Ho & Hoid & Hps).
        destruct (Hps Herr) as (ps & Hfound & _).
        exists results, s1, res, o, ps.
        repeat (split; [first [reflexivity | assumption | congruence]|]).
        congruence.
    - simpl in He. rewrite Htrace1 in He. simpl in He.
      rewrite Forall_forall in Hall1. destruct (Hall1 e He org Htouch). }
  split; [exact Hpos|].
  intros org Hnone e He Htouch.
  destruct (Hpos org e He Htouch)
    as (results & s1 & res & o & ps & Hscan & Hres & _ & _ & Hid & _ & Hg & Hne).
  apply Hne. rewrite <- Hg. exact (Hnone results s1 res Hscan Hres Hid).
Qed.

(** *** Manifest entries *)

Lemma convertProject_seen (integrationType org : string)
    (integrations : gmap string string) (st : conversion) (p : Project.t) :
  seen (convertProject integrationType org integrations st p)
  = match entryOf integrationType org integrations p with
    | Some e =>
        if default false (seen st !! entryID e) then seen st
        else <[entryID e := true]> (seen st)
    | None => seen st
    end
  /\ converted (convertProject integrationType org integrations st p)
     = match entryOf integrationType org integrations p with
       | Some e =>
           if default false (seen st !! entryID e) then converted st
           else converted st ++ [e]
       | None => converted st
       end.
Proof.
  unfold convertProject, entryOf.
  destruct (String.eqb (Project.Origin p) "gitlab"); [split; reflexivity|].
  destruct (negb (IsSCMOrigin (Project.Origin p))); [split; reflexivity|].
  destruct (negb (String.eqb integrationType EmptyString)
            && negb (String.eqb (Project.Origin p) integrationType)
            && negb (String.eqb (OriginToIntegrationKey (Project.Origin p))
                       integrationType)); [split; reflexivity|].
  destruct (integrations !! OriginToIntegrationKey (Project.Origin p))
    as [integrationID|]; [|split; reflexivity].
  destruct (String.eqb integrationID EmptyString); [split; reflexivity|].
  cbv zeta.
  destruct (ProjectToTarget (Project.Name p) (Project.Origin p) _) as [target|];
    [|split; reflexivity].
  unfold entryID. simpl.
  destruct (default false (seen st !! TargetID org integrationID target));
    split; reflexivity.
Qed.

Lemma convertProjects_from (integrationType org : string)
    (integrations : gmap string string) (ps : list Project.t) (st : conversion) :
  converted (foldl (convertProject integrationType org integrations) st ps)
  = converted st
      ++ firstSeenFrom (seen st)
           (omap (entryOf integrationType org integrations) ps).
Proof.
  revert st. induction ps as [|p ps IH]; intros st; simpl.
  - rewrite app_nil_r. reflexivity.
  - rewrite IH.
    destruct (convertProject_seen integrationType org integrations st p)
      as [Hseen Hconv].
    rewrite Hseen, Hconv.
    destruct (entryOf integrationType org integrations p) as [e|]; simpl;
      [|reflexivity].
    destruct (default false (seen st !! entryID e)); [reflexivity|].
    rewrite <- app_assoc. reflexivity.
Qed.

(** The entries of an org are the entries of its projects, first seen
    wins. *)
Lemma convertProjects_firstSeen (integrationType org : string)
    (integrations : gmap string string) (ps : list Project.t) :
  converted (convertProjects integrationType org integrations ps)
  = firstSeen (omap (entryOf integrationType org integrations) ps).
Proof. unfold convertProjects. rewrite convertProjects_from. reflexivity. Qed.

Lemma firstSeenFrom_elem (seenIDs : gmap string bool) (l : list ImportTarget)
    (e : ImportTarget) :
  e ∈ firstSeenFrom seenIDs l ->
  e ∈ l /\ default false (seenIDs !! entryID e) = false.
Proof.
  revert seenIDs. induction l as [|x l IH]; intros seenIDs He; simpl in He.
  - inversion He.
  - destruct (default false (seenIDs !! entryID x)) eqn:Hx.
    + destruct (IH _ He). split; [right|]; assumption.
    + apply elem_of_cons in He as [->|He]; [split; [left | assumption]|].
      destruct (IH _ He) as [Hin Hseen]. split; [right; assumption|].
      rewrite lookup_insert in Hseen.
      destruct (decide (entryID x = entryID e)); [discriminate | assumption].
Qed.




Lemma entryOf_OrgID (integrationType org : string)
    (integrations : gmap string string) (p : Project.t) (e : ImportTarget) :
  entryOf integrationType org integrations p = Some e -> OrgID e = org.
Proof.
  unfold entryOf.
  repeat match goal with
         | |- context [if ?b then _ else _] => destruct b; [discriminate|]
         | |- context [match ?x with Some _ => _ | None => _ end] =>
             destruct x; [|discriminate]
         end.
  intros [= <-]. reflexivity.
Qed.

Lemma convertProjects_OrgID (integrationType org : string)
    (integrations : gmap string string) (ps : list Project.t) (e : ImportTarget) :
  e ∈ converted (convertProjects integrationType org integrations ps) ->
  OrgID e = org.
Proof.
  rewrite convertProjects_firstSeen. intros He.
  apply firstSeenFrom_elem in He as [He _].
  apply list_elem_of_omap in He as (p & _ & Hp).
  eapply entryOf_OrgID; eauto.
Qed.




(** The output lists the entries of the orgs that did not fail, org after
    org. *)
Lemma collectOutput_targets (results : list orgResult) (out out' : RefreshOutput)
    (s s' : State) :
  collectOutput out results s = (Done out', s') ->
  Targets out'
  = Targets out
      ++ concat (targets <$> filter (fun res => refresh_err res = None) results).
Proof.
  revert out s. induction results as [|res rest IH]; intros out s Hrun;
    cbn [collectOutput] in Hrun.
  - injection Hrun as <- _. simpl. rewrite app_nil_r. reflexivity.
  - destruct (refresh_err res) eqn:Herr.
    + unfold bind at 1 in Hrun. cbn [print emit] in Hrun.
      rewrite (IH _ _ Hrun).
      rewrite filter_cons_False by (rewrite Herr; discriminate). reflexivity.
    + unfold bind at 1 in Hrun.
      match type of Hrun with
      | context [if 0 <? gitlabCount res then ?a else ?b] =>
          destruct ((if 0 <? gitlabCount res then a else b) s)
            as [[[]|why] s1] eqn:H1; [|destruct (0 <? gitlabCount res); discriminate]
      end.
      unfold bind at 1 in Hrun.
      match type of Hrun with
      | context [match ?m s1 with _ => _ end] =>
          destruct (m s1) as [[[]|why] s2] eqn:H2
      end.
      * rewrite (IH _ _ Hrun). simpl.
        rewrite filter_cons_True by assumption.
        rewrite fmap_cons. simpl. rewrite app_assoc. reflexivity.
      * exfalso. revert H2.
        destruct (0 <? length (targets res))%nat; [discriminate|].
        destruct (gitlabCount res =? 0); discriminate.
Qed.






(** *** Reading several pages *)

Lemma fetchLoop_pagesRead {A : Type} (what : string) (record : Page.Item -> A)
    (url : string) (r : Remote) (pages : list Page.t) (url' : string)
    (r' : Remote) :
  pagesRead url r pages url' r' ->
  forall (budget : nat) (records : list A),
    fetchLoop what record (length pages + budget) url records r
    = fetchLoop what record budget url' (records ++ recordsOf record pages) r'.
Proof.
  induction 1 as [url r|url r r1 page pages url' r' Hurl Hserved _ IH];
    intros budget records.
  - unfold recordsOf. simpl. rewrite app_nil_r. reflexivity.
  - cbn [length Nat.add].
    rewrite (fetchLoop_at _ _ _ _ _ _ Hurl),
      (fetchPage_served _ _ _ _ _ _ _ Hserved), IH.
    unfold recordsOf. cbn [flat_map]. rewrite app_assoc. reflexivity.
Qed.

Lemma fetchLoop_reads_all {A : Type} (what : string) (record : Page.Item -> A)
    (budget : nat) (url : string) (r : Remote) (pages : list Page.t)
    (r' : Remote) :
  (length pages <= budget)%nat ->
  pagesRead url r pages EmptyString r' ->
  fetchLoop what record budget url [] r
  = (Some (Ok (recordsOf record pages)), r').
Proof.
  intros Hlen Hread.
  replace budget with (length pages + (budget - length pages))%nat by lia.
  rewrite (fetchLoop_pagesRead what record _ _ _ _ _ Hread), fetchLoop_end.
  reflexivity.
Qed.

(** X1.  A paged fetch returns the records of all the pages it reads, in the
    order of the pages and of the items on each page: the first page is read
    at the first URL, each further page at the URL the link of the page
    before leads to, and the fetch ends at the page whose link is missing or
    not followed.  The page budget of the model has to cover the pages. *)
Theorem paged_fetch_reads_all_pages (orgID : string) (r r' : Remote)
    (pages : list Page.t) :
  (length pages <= pageBudget)%nat ->
  (pagesRead (projectsFirstURL orgID) r pages EmptyString r' ->
   FetchProjects orgID r = (Some (Ok (recordsOf projectOfItem pages)), r'))
  /\ (pagesRead (targetsFirstURL orgID) r pages EmptyString r' ->
      FetchTargets orgID r = (Some (Ok (recordsOf targetOfItem pages)), r')).
Proof.
  intros Hlen. split; intros Hread.
  - apply fetchLoop_reads_all; assumption.
  - apply fetchLoop_reads_all; assumption.
Qed.

Lemma fetchLoop_after_pages {A : Type} (what : string) (record : Page.Item -> A)
    (budget : nat) (url : string) (r r1 : Remote) (pages : list Page.t)
    (url' : string) :
  (length pages < budget)%nat ->
  pagesRead url r pages url' r1 ->
  url' <> EmptyString ->
  fetchLoop what record budget url [] r
  = match fetchPage what record url' (recordsOf record pages) r1 with
    | (Return res, r') => (Some res, r')
    | (NextPage next records', r') =>
        fetchLoop what record (budget - length pages - 1) next records' r'
    end.
Proof.
  intros Hlen Hread Hurl.
  replace budget with (length pages + S (budget - length pages - 1))%nat
    at 1 by lia.
  rewrite (fetchLoop_pagesRead what record _ _ _ _ _ Hread).
  apply fetchLoop_at. assumption.
Qed.

Lemma fetchLoop_cut_short {A : Type} (what : string) (record : Page.Item -> A)
    (budget : nat) (url : string) (r r1 r' : Remote) (pages : list Page.t)
    (url' : string) (status : Z) (body : string) :
  (length pages < budget)%nat ->
  pagesRead url r pages url' r1 ->
  url' <> EmptyString ->
  pageReplied url' r1 status body r' ->
  (status = 404 ->
   fetchLoop what record budget url [] r
   = (Some (Ok (recordsOf record pages)), r'))
  /\ (status <> 404 -> status <> 200 ->
      fetchLoop what record budget url [] r
      = (Some (Err (StatusError ("fetch " +:+ what) status body)), r'))
  /\ (status = 200 ->
      forall e, json_Unmarshal_page body = Err e ->
                fetchLoop what record budget url [] r
                = (Some (Err (Wrapped ("decode " +:+ what) e)), r')).
Proof.
  intros Hlen Hread Hurl Hreply.
  rewrite (fetchLoop_after_pages what record _ _ _ _ _ _ Hlen Hread Hurl),
    (fetchPage_replied _ _ _ _ _ _ _ _ Hreply).
  split; [|split].
  - intros ->. reflexivity.
  - intros H404 H200.
    destruct (Z.eqb_spec status 404); [contradiction|].
    destruct (Z.eqb_spec status 200); [contradiction | reflexivity].
  - intros -> e He. rewrite He. reflexivity.
Qed.

(** X2.  A paged fetch that has read some pages and then gets a reply that
    is no page: on a 404 it ends with success and returns the records of the
    pages read before, with no error; on any other status than 200, and on a
    200 whose body does not decode, it fails, and none of the records read
    before is returned. *)
Theorem paged_fetch_cut_short (orgID : string) (r r1 r' : Remote)
    (pages : list Page.t) (url : string) (status : Z) (body : string) :
  (length pages < pageBudget)%nat ->
  url <> EmptyString ->
  pageReplied url r1 status body r' ->
  (pagesRead (projectsFirstURL orgID) r pages url r1 ->
   (status = 404 ->
    FetchProjects orgID r = (Some (Ok (recordsOf projectOfItem pages)), r'))
   /\ (status <> 404 -> status <> 200 ->
       FetchProjects orgID r
       = (Some (Err (StatusError "fetch projects" status body)), r'))
   /\ (status = 200 ->
       forall e, json_Unmarshal_page body = Err e ->
                 FetchProjects orgID r
                 = (Some (Err (Wrapped "decode projects" e)), r')))
  /\ (pagesRead (targetsFirstURL orgID) r pages url r1 ->
      (status = 404 ->
       FetchTargets orgID r = (Some (Ok (recordsOf targetOfItem pages)), r'))
      /\ (status <> 404 -> status <> 200 ->
          FetchTargets orgID r
          = (Some (Err (StatusError "fetch targets" status body)), r'))
      /\ (status = 200 ->
          forall e, json_Unmarshal_page body = Err e ->
                    FetchTargets orgID r
                    = (Some (Err (Wrapped "decode targets" e)), r'))).
Proof.
  intros Hlen Hurl Hreply. split; intros Hread.
  - exact (fetchLoop_cut_short "projects" projectOfItem _ _ _ _ _ _ _ _ _
             Hlen Hread Hurl Hreply).
  - exact (fetchLoop_cut_short "targets" targetOfItem _ _ _ _ _ _ _ _ _
             Hlen Hread Hurl Hreply).
Qed.

(** *** The records a paged fetch returns *)

Lemma fetchPage_records {A : Type} (what : string) (record : Page.Item -> A)
    (P : A -> Prop) (url : string) (records : list A) (r : Remote) :
  (forall item, P (record item)) ->
  Forall P records ->
  match (fetchPage what record url records r).1 with
  | Return (Ok out) => Forall P out
  | Return (Err _) => True
  | NextPage _ records' => Forall P records'
  end.
Proof.
  intros Hrecord Hrecords. unfold fetchPage.
  destruct (http_NewRequest "GET" url) as [req|e]; [|exact I].
  destruct (DoWithRetry _ r) as [[resp|e] r1]; [|exact I].
  destruct (Http.StatusCode resp =? 404); [assumption|].
  destruct (negb (Http.StatusCode resp =? 200)); [exact I|].
  destruct (json_Unmarshal_page (Http.Body resp)) as [page|e]; [|exact I].
  simpl. apply Forall_app. split; [assumption|].
  apply Forall_forall. intros x Hx. apply list_elem_of_In, in_map_iff in Hx.
  destruct Hx as (item & <- & _). apply Hrecord.
Qed.

(** Whatever a page loop returns was among its records at the start or was
    built from an item of a page. *)
Lemma fetchLoop_records {A : Type} (what : string) (record : Page.Item -> A)
    (P : A -> Prop) (budget : nat) (url : string) (records out : list A)
    (r r' : Remote) :
  (forall item, P (record item)) ->
  Forall P records ->
  fetchLoop what record budget url records r = (Some (Ok out), r') ->
  Forall P out.
Proof.
  intros Hrecord. revert url records r.
  induction budget as [|budget IH]; intros url records r Hrecords Hrun;
    cbn [fetchLoop] in Hrun;
    destruct (String.eqb url EmptyString).
  - injection Hrun as <- _. assumption.
  - discriminate.
  - injection Hrun as <- _. assumption.
  - pose proof (fetchPage_records what record P url records r Hrecord Hrecords)
      as Hpage.
    destruct (fetchPage what record url records r) as [[next records'|res] r1];
      simpl in Hpage.
    + exact (IH _ _ _ Hpage Hrun).
    + injection Hrun as -> _. exact Hpage.
Qed.

Lemma projectOfItem_branch (item : Page.Item) :
  (Project.Branch (projectOfItem item) = EmptyString <->
     asString (Page.Attributes item !! "branch") = EmptyString
     /\ asString (Page.Attributes item !! "targetReference") = EmptyString
     /\ asString (Page.Attributes item !! "target_reference") = EmptyString)
  /\ (Project.Branch (projectOfItem item) = EmptyString ->
      Project.TargetReference (projectOfItem item) = EmptyString).
Proof.
  unfold projectOfItem. cbn [Project.Branch Project.TargetReference].
  destruct (String.eqb_spec (asString (Page.Attributes item !! "branch"))
              EmptyString) as [Hb|Hb];
    destruct (String.eqb_spec
                (asString (Page.Attributes item !! "targetReference"))
                EmptyString) as [Ht|Ht].
  - split; [|auto]. split; [auto | intros (_ & _ & H); exact H].
  - split; [|auto]. split; [intros H; contradiction | intros (_ & H & _); contradiction].
  - split; [|intros H; contradiction].
    split; [intros H; contradiction | intros (H & _); contradiction].
  - split; [|intros H; contradiction].
    split; [intros H; contradiction | intros (H & _); contradiction].
Qed.

(** X3.  Every project [FetchProjects] returns is built from an item of a
    page, and its branch is the item's [branch] attribute, else its
    [targetReference], else its [target_reference]: the branch is empty
    exactly when all three are empty or no strings.  So a fetched project
    with an empty branch has an empty target reference too, and the branch
    the manifest conversion hands to the target parser (the branch, or the
    target reference when the branch is empty) is the project's branch as
    fetched. *)
Theorem fetched_project_branch (orgID : string) (r r' : Remote)
    (ps : list Project.t) :
  FetchProjects orgID r = (Some (Ok ps), r') ->
  forall p, p ∈ ps ->
    (exists item,
        p = projectOfItem item
        /\ (Project.Branch p = EmptyString <->
              asString (Page.Attributes item !! "branch") = EmptyString
              /\ asString (Page.Attributes item !! "targetReference") = EmptyString
              /\ asString (Page.Attributes item !! "target_reference")
                 = EmptyString))
    /\ (Project.Branch p = EmptyString -> Project.TargetReference p = EmptyString)
    /\ (if String.eqb (Project.Branch p) EmptyString
        then Project.TargetReference p else Project.Branch p)
       = Project.Branch p.
Proof.
  intros Hrun p Hp. unfold FetchProjects in Hrun.
  pose proof (fetchLoop_records "projects" projectOfItem
                (fun p => exists item, p = projectOfItem item)
                _ _ _ _ _ _ (fun item => ex_intro _ item eq_refl)
                (Forall_nil_2 _) Hrun) as Hall.
  rewrite Forall_forall in Hall. destruct (Hall p Hp) as (item & ->).
  destruct (projectOfItem_branch item) as [Hiff Hempty].
  split; [exists item; split; [reflexivity | exact Hiff]|].
  split; [exact Hempty|].
  destruct (String.eqb_spec (Project.Branch (projectOfItem item)) EmptyString)
    as [Hb|Hb]; [|reflexivity].
  rewrite Hb. apply Hempty. exact Hb.
Qed.

(** *** [FetchOrgs] *)

Lemma fetchOrgsPage_replied (groupID : string) (page : Z) (allOrgs : list Org.t)
    (r r' : Remote) (status : Z) (body : string) :
  orgsReplied groupID page r status body r' ->
  fetchOrgsPage groupID page allOrgs r =
  if negb (status =? 200) then
    (ReturnOrgs (Err (StatusError "fetch orgs" status body)), r')
  else
    match json_Unmarshal_orgs body with
    | Err e => (ReturnOrgs (Err (Wrapped "decode orgs response" e)), r')
    | Ok orgs =>
        if Z.of_nat (length orgs) <? perPage
        then (ReturnOrgs (Ok (allOrgs ++ orgs)), r')
        else (NextOrgsPage (allOrgs ++ orgs), r')
    end.
Proof.
  intros (req & Hreq & Hdo). unfold fetchOrgsPage. rewrite Hreq, Hdo.
  reflexivity.
Qed.

Lemma fetchOrgsLoop_full_pages (groupID : string) (page : Z) (r : Remote)
    (pages : list (list Org.t)) (page' : Z) (r' : Remote) :
  fullOrgPagesRead groupID page r pages page' r' ->
  page' = page + Z.of_nat (length pages)
  /\ forall (budget : nat) (allOrgs : list Org.t),
       fetchOrgsLoop groupID (length pages + budget) page allOrgs r
       = fetchOrgsLoop groupID budget page' (allOrgs ++ concat pages) r'.
Proof.
  induction 1 as [page r|page r r1 orgs pages page' r' Hserved Hfull _ [IHp IH]].
  - split; [simpl; lia|]. intros budget allOrgs. simpl.
    rewrite app_nil_r. reflexivity.
  - split; [cbn [length]; lia|]. intros budget allOrgs.
    destruct Hserved as (body & Hreply & Hjson).
    cbn [length Nat.add fetchOrgsLoop].
    rewrite (fetchOrgsPage_replied _ _ _ _ _ _ _ Hreply), Hjson. simpl.
    destruct (Z.ltb_spec (Z.of_nat (length orgs)) perPage) as [Hlt|_]; [lia|].
    rewrite IH, <- app_assoc. reflexivity.
Qed.

(** X5.  [FetchOrgs] asks for page 1, 2, 3, ... of a hundred orgs each and
    goes on as long as a page has at least a hundred orgs; the first page
    with fewer ends it, and the result is the orgs of all pages read, in
    order.  A last page of exactly a hundred orgs is therefore followed by
    one more request.  The page budget of the model has to cover the
    pages. *)
Theorem FetchOrgs_reads_until_short_page (groupID : string) (r r1 r' : Remote)
    (fullPages : list (list Org.t)) (page : Z) (last : list Org.t) :
  (length fullPages < pageBudget)%nat ->
  fullOrgPagesRead groupID 1 r fullPages page r1 ->
  orgsServed groupID page r1 last r' ->
  Z.of_nat (length last) < perPage ->
  page = 1 + Z.of_nat (length fullPages)
  /\ FetchOrgs groupID r = (Some (Ok (concat fullPages ++ last)), r').
Proof.
  intros Hlen Hfull (body & Hreply & Hjson) Hshort.
  destruct (fetchOrgsLoop_full_pages _ _ _ _ _ _ Hfull) as [Hpage Hloop].
  split; [exact Hpage|]. unfold FetchOrgs.
  replace pageBudget
    with (length fullPages + S (pageBudget - length fullPages - 1))%nat by lia.
  rewrite Hloop. cbn [fetchOrgsLoop].
  rewrite (fetchOrgsPage_replied _ _ _ _ _ _ _ Hreply), Hjson. simpl.
  destruct (Z.ltb_spec (Z.of_nat (length last)) perPage) as [_|Hge]; [|lia].
  reflexivity.
Qed.

(** X6.  [FetchOrgs] fails on every reply whose status is not 200, a 404
    included, on the first page as on a later one: the result is an error
    that carries the status code and the body, and none of the orgs read
    before is returned. *)
Theorem FetchOrgs_fails_on_other_status (groupID : string) (r r1 r' : Remote)
    (fullPages : list (list Org.t)) (page : Z) (status : Z) (body : string) :
  (length fullPages < pageBudget)%nat ->
  fullOrgPagesRead groupID 1 r fullPages page r1 ->
  orgsReplied groupID page r1 status body r' ->
  status <> 200 ->
  FetchOrgs groupID r = (Some (Err (StatusError "fetch orgs" status body)), r').
Proof.
  intros Hlen Hfull Hreply Hstatus.
  destruct (fetchOrgsLoop_full_pages _ _ _ _ _ _ Hfull) as [_ Hloop].
  unfold FetchOrgs.
  replace pageBudget
    with (length fullPages + S (pageBudget - length fullPages - 1))%nat by lia.
  rewrite Hloop. cbn [fetchOrgsLoop].
  rewrite (fetchOrgsPage_replied _ _ _ _ _ _ _ Hreply).
  destruct (Z.eqb_spec status 200); [contradiction | reflexivity].
Qed.

(** *** What a run may do to the remote *)

















Lemma nextPageURL_withinAPI (links : gmap string JSON) :
  nextPageURL links = EmptyString \/ withinAPI (nextPageURL links).
Proof.
  unfold nextPageURL.
  destruct (links !! "next") as [[| | |nextStr| |]|]; auto.
  destruct (negb (String.eqb nextStr EmptyString)); [|auto].
  destruct (isAllowedNextURL nextStr apiHost) eqn:Hallowed; [|auto].
  right. apply isAllowedNextURL_true in Hallowed as [_ Hallowed].
  destruct (Strings.HasPrefix nextStr "/") eqn:Hpre.
  - apply HasPrefix_slash in Hpre as [rest ->]. left. exists rest. reflexivity.
  - destruct Hallowed as [Hrel|Habs].
    + apply HasPrefix_slash in Hrel. congruence.
    + right. exact Habs.
Qed.

Lemma withHeaders_asked (accept method url : string) (req : Http.Request) :
  requestAsAsked ->
  http_NewRequest method url = Ok req ->
  Http.Method (withHeaders accept req) = method
  /\ Http.URL (withHeaders accept req) = url
  /\ Http.Header (withHeaders accept req) !! "Authorization"
     = Some ("token " +:+ token)
  /\ Http.Header (withHeaders accept req) !! "Accept" = Some accept.
Proof.
  intros Hasked Hreq. destruct (Hasked _ _ _ Hreq) as [Hm Hu].
  unfold withHeaders. simpl. repeat split; try assumption.
  - rewrite lookup_insert_ne by discriminate. apply lookup_insert_eq.
  - apply lookup_insert_eq.
Qed.

(** *** The projects a run deletes *)

(** What the collector keeps for the two phases are the groups of scan
    results without error. *)
Lemma collectResults_kept (results : list dedupResult) :
  returns (collectResults results)
    (fun collected =>
       forall c, c ∈ collected.1 ->
         exists res, res ∈ results /\ dedup_err res = None
                     /\ dedup_orgID res = orgID c
                     /\ dedup_groups res = groups c).
Proof.
  induction results as [|res rest IH]; intros s [ows failed] s' Hrun c Hc;
    cbn [collectResults] in Hrun.
  - injection Hrun as <- _ _. inversion Hc.
  - destruct (dedup_err res) eqn:Herr.
    + unfold bind at 1 in Hrun. cbn [print emit] in Hrun.
      unfold bind at 1 in Hrun.
      destruct (collectResults rest _) as [[[ows' failed']|why] s1] eqn:Hrest;
        [|discriminate].
      injection Hrun as <- _ _.
      destruct (IH _ _ _ Hrest c Hc) as (x & Hx & H).
      exists x. split; [right; assumption | exact H].
    + unfold bind at 1 in Hrun.
      destruct (collectResults rest s) as [[[ows' failed']|why] s1] eqn:Hrest;
        [|discriminate].
      destruct (0 <? length (dedup_groups res))%nat.
      * injection Hrun as <- _ _. simpl in Hc.
        apply elem_of_cons in Hc as [->|Hc].
        -- exists res. simpl. split; [left|]. auto.
        -- destruct (IH _ _ _ Hrest c Hc) as (x & Hx & H).
           exists x. split; [right; assumption | exact H].
      * injection Hrun as <- _ _.
        destruct (IH _ _ _ Hrest c Hc) as (x & Hx & H).
        exists x. split; [right; assumption | exact H].
Qed.










(** *** Indexing the groups *)

Lemma neverPanics_ret {A : Type} (a : A) : neverPanics (ret a).
Proof. intros s. discriminate. Qed.

Lemma neverPanics_print (l : Line) : neverPanics (print l).
Proof. intros s. discriminate. Qed.

Lemma neverPanics_updateCounters (f : Counters -> Counters) :
  neverPanics (updateCounters f).
Proof. intros s. discriminate. Qed.

Lemma neverPanics_getCounters : neverPanics getCounters.
Proof. intros s. discriminate. Qed.

Lemma neverPanics_callPaged {A : Type} (c : Call)
    (fetch : Remote -> option (result (list A)) * Remote) :
  neverPanics (callPaged c fetch).
Proof.
  intros s. unfold callPaged.
  destruct (fetch (remote s)) as [[res|] r']; discriminate.
Qed.

Lemma neverPanics_callAPI {A : Type} (c : Call) (f : Remote -> A * Remote) :
  neverPanics (callAPI c f).
Proof. intros s. unfold callAPI. destruct (f (remote s)). discriminate. Qed.

Lemma neverPanics_bind_post {A B : Type} (P : A -> Prop) (m : M A)
    (k : A -> M B) :
  neverPanics m -> returns m P -> (forall a, P a -> neverPanics (k a)) ->
  neverPanics (bind m k).
Proof.
  intros Hm HP Hk s. unfold bind. specialize (Hm s).
  destruct (m s) as [[a|why] s1] eqn:Hrun; simpl in Hm.
  - apply Hk. exact (HP _ _ _ Hrun).
  - simpl. intros H. injection H as ->. apply Hm. reflexivity.
Qed.

Lemma neverPanics_bind {A B : Type} (m : M A) (k : A -> M B) :
  neverPanics m -> (forall a, neverPanics (k a)) -> neverPanics (bind m k).
Proof.
  intros Hm Hk. apply (neverPanics_bind_post (fun _ => True)); auto.
  intros s a s' _. exact I.
Qed.

Lemma neverPanics_forEach {A : Type} (l : list A) (body : A -> M unit) :
  (forall x, x ∈ l -> neverPanics (body x)) -> neverPanics (forEach l body).
Proof.
  induction l as [|x l IH]; intros Hbody; cbn [forEach].
  - apply neverPanics_ret.
  - apply neverPanics_bind; [apply Hbody; left|].
    intros _. apply IH. intros y Hy. apply Hbody. right. assumption.
Qed.

Lemma neverPanics_mapM {A B : Type} (f : A -> M B) (l : list A) :
  (forall x, neverPanics (f x)) -> neverPanics (mapM f l).
Proof.
  intros Hf. induction l as [|x l IH]; cbn [mapM].
  - apply neverPanics_ret.
  - apply neverPanics_bind; [apply Hf|]. intros y.
    apply neverPanics_bind; [exact IH|]. intros ys. apply neverPanics_ret.
Qed.

Ltac safe_step :=
  first
    [ apply neverPanics_ret | apply neverPanics_updateCounters
    | apply neverPanics_getCounters | apply neverPanics_print
    | apply neverPanics_callAPI | apply neverPanics_callPaged
    | apply neverPanics_bind | apply neverPanics_forEach
    | apply neverPanics_mapM
    | match goal with
      | |- neverPanics (if ?b then _ else _) => destruct b
      | |- neverPanics (match ?x with _ => _ end) => destruct x
      | |- forall _, _ => intro
      end ].

Ltac safe := repeat safe_step.

Lemma collectResults_neverPanics (results : list dedupResult) :
  neverPanics (collectResults results).
Proof.
  induction results as [|res rest IH]; cbn [collectResults]; [safe|].
  destruct (dedup_err res).
  - apply neverPanics_bind; [safe|]. intros _.
    apply neverPanics_bind; [exact IH|]. safe.
  - apply neverPanics_bind; [exact IH|]. safe.
Qed.

Lemma resolveGroup_neverPanics (doDelete : bool) (org : string)
    (g : duplicateGroup) :
  projects g <> [] -> neverPanics (resolveGroup doDelete org g).
Proof.
  intros Hg. unfold resolveGroup, resolveDuplicate, callDeleteProject.
  destruct (projects g) as [|original dupes]; [contradiction|]. safe.
Qed.

(** X11.  A run of the clean-up never indexes an empty group: every group
    phase 1 goes through has a first project, because a group is formed of
    at least two projects and sorting keeps their number.  So a run of the
    model ends, or stops because a paged fetch used up its page budget; it
    never stops on an index out of range. *)
Theorem runDedup_never_panics (doDelete debug : bool) (orgs : list Org.t)
    (s : State) :
  (forall less l, length (sort_Slice less l) = length l) ->
  (forall results s1,
      mapM (scanOrg debug) orgs s = (Done results, s1) ->
      forall res g, res ∈ results -> g ∈ dedup_groups res ->
                    (2 <= length (projects g))%nat)
  /\ ((runDedup doDelete debug orgs s).1 = Done tt
      \/ (runDedup doDelete debug orgs s).1 = Aborted OutOfPages).
Proof.
  intros Hlength.
  assert (Hgroups : returns (mapM (scanOrg debug) orgs)
                      (fun results =>
                         forall res g, res ∈ results -> g ∈ dedup_groups res ->
                                       (2 <= length (projects g))%nat)).
  { intros s0 results s1 Hscan res g Hres Hg.
    destruct (mapM_returns _ (scanOrg debug) orgs
                (fun o _ => scanOrg_returns debug o) _ _ _ Hscan res Hres)
      as (o & _ & _ & Hps).
    destruct (dedup_err res) as [e|] eqn:Herr.
    - clear Hps.
      assert (Hnone : returns (mapM (scanOrg debug) orgs)
                        (fun results =>
                           forall res, res ∈ results ->
                                       dedup_err res <> None ->
                                       dedup_groups res = [])).
      { clear. intros s0 results s1 Hscan res Hres Herr.
        destruct (mapM_returns
                    (fun _ res => dedup_err res <> None -> dedup_groups res = [])
                    (scanOrg debug) orgs) with (s := s0) (a := results)
                    (s' := s1) (y := res) as (o & _ & H); auto.
        intros o _ s res' s' Hrun. unfold scanOrg in Hrun.
        unfold bind at 1 in Hrun.
        destruct (callFetchProjects (Org.ID o) s) as [[[ps|e]|why] s2];
          [| |discriminate].
        - unfold bind at 1 in Hrun. cbn [print emit] in Hrun.
          unfold bind at 1 in Hrun.
          match type of Hrun with
          | context [(if debug then ?a else ?b) ?s0] =>
              destruct ((if debug then a else b) s0) as [[[]|why] s3];
                [|discriminate]
          end.
          injection Hrun as <- _. simpl. intros H. contradiction.
        - injection Hrun as <- _. reflexivity. }
      rewrite (Hnone _ _ _ Hscan res Hres) in Hg by congruence. inversion Hg.
    - destruct (Hps eq_refl) as (ps & Hfound & _). rewrite Hfound in Hg.
      apply findDuplicateGroups_elem in Hg as [Hlen ->].
      rewrite Hlength. exact Hlen. }
  split; [intros results s1 Hscan; exact (Hgroups _ _ _ Hscan)|].
  assert (Hsafe : neverPanics (runDedup doDelete debug orgs)).
  { unfold runDedup.
    eapply neverPanics_bind_post; [|exact Hgroups|].
    { apply neverPanics_mapM. intros o.
      unfold scanOrg, callFetchProjects. safe. }
    intros results Hresults.
    apply (neverPanics_bind_post _ _ _ (collectResults_neverPanics results)
             (collectResults_kept results)).
    intros collected Hcollected. cbv zeta.
    apply neverPanics_bind.
    { unfold phase1. apply neverPanics_forEach. intros c Hc.
      apply neverPanics_bind; [apply neverPanics_print|]. intros _.
      apply neverPanics_forEach. intros g Hg.
      apply resolveGroup_neverPanics.
      destruct (Hcollected c Hc) as (res & Hres & _ & _ & Hgr).
      rewrite <- Hgr in Hg. specialize (Hresults res g Hres Hg).
      intros Hnil. rewrite Hnil in Hresults. simpl in Hresults. lia. }
    intros _. apply neverPanics_bind.
    { unfold phase2, phase2Org, cleanTarget, callFetchTargets,
        callFetchProjects, callDeleteTarget. safe. }
    intros _. unfold printSummary. safe. }
  specialize (Hsafe s).
  destruct (runDedup doDelete debug orgs s) as [[[]|[|]] s']; simpl in *; auto.
  contradiction.
Qed.

(** *** Where the manifest comes from *)

Lemma entryOf_Some (integrationType org : string)
    (integrations : gmap string string) (p : Project.t) (e : ImportTarget) :
  entryOf integrationType org integrations p = Some e ->
  Project.Origin p <> "gitlab"
  /\ IsSCMOrigin (Project.Origin p) = true
  /\ (integrationType = EmptyString
      \/ Project.Origin p = integrationType
      \/ OriginToIntegrationKey (Project.Origin p) = integrationType)
  /\ integrations !! OriginToIntegrationKey (Project.Origin p)
     = Some (IntegrationID e)
  /\ IntegrationID e <> EmptyString
  /\ OrgID e = org
  /\ ProjectToTarget (Project.Name p) (Project.Origin p)
       (if String.eqb (Project.Branch p) EmptyString
        then Project.TargetReference p else Project.Branch p)
     = Some (import_Target e).
Proof.
  unfold entryOf.
  destruct (String.eqb_spec (Project.Origin p) "gitlab") as [|Hgitlab];
    [discriminate|].
  destruct (IsSCMOrigin (Project.Origin p)); [|discriminate]. cbn [negb].
  destruct (String.eqb_spec integrationType EmptyString) as [Hany|Hone];
    destruct (String.eqb_spec (Project.Origin p) integrationType) as [Ho|Ho];
    destruct (String.eqb_spec (OriginToIntegrationKey (Project.Origin p))
                integrationType) as [Hk|Hk];
    cbn [negb andb]; try discriminate;
    (destruct (integrations !! OriginToIntegrationKey (Project.Origin p))
       as [integrationID|]; [|discriminate]);
    (destruct (String.eqb_spec integrationID EmptyString) as [|Hid];
     [discriminate|]);
    (destruct (ProjectToTarget _ _ _) as [target|]; [|discriminate]);
    intros [= <-]; simpl; auto 10.
Qed.

(** The result of refreshing an org without error is computed from the
    integrations and the projects the API returned for that org. *)
Lemma refreshOrg_fetched (integrationType : string) (o : Org.t) :
  returns (refreshOrg integrationType o)
    (fun res =>
       refresh_err res = None ->
       exists integrations ps r0 r1 r2,
         ListIntegrations (Org.ID o) r0 = (Ok integrations, r1)
         /\ FetchProjects (Org.ID o) r1 = (Some (Ok ps), r2)
         /\ targets res
            = converted (convertProjects integrationType (Org.ID o)
                           integrations ps)
         /\ gitlabCount res
            = gitlabSkipped (convertProjects integrationType (Org.ID o)
                               integrations ps)
         /\ intMeta res = integrationMeta integrations
         /\ orgMeta res
            = if negb (String.eqb (Org.Name o) EmptyString)
                 || negb (String.eqb (Org.Slug o) EmptyString)
              then {[ Org.ID o := mkOrgMeta (Org.Name o) (Org.Slug o) ]}
              else ∅).
Proof.
  intros s res s' Hrun. unfold refreshOrg in Hrun. unfold bind at 1 in Hrun.
  unfold callListIntegrations, callAPI in Hrun.
  destruct (ListIntegrations (Org.ID o) (remote s)) as [listed r1] eqn:Hlist.
  unfold bind at 1 in Hrun. unfold callFetchProjects, callPaged in Hrun.
  cbn [remote] in Hrun.
  destruct (FetchProjects (Org.ID o) r1) as [[fetched|] r2] eqn:Hfetch;
    [|discriminate].
  destruct listed as [integrations|e].
  - destruct fetched as [ps|e].
    + destruct (length ps =? 0)%nat eqn:Hlen; injection Hrun as <- _; simpl;
        intros _; exists integrations, ps, (remote s), r1, r2.
      * destruct ps; [|discriminate]. auto 10.
      * auto 10.
    + injection Hrun as <- _. simpl. discriminate.
  - injection Hrun as <- _. simpl. discriminate.
Qed.

(** A run that ends has collected the results of its orgs into its
    output. *)
Lemma runRefresh_collected (groupID integrationType : string)
    (orgs : list Org.t) (s s' : State) (out : RefreshOutput) :
  runRefresh groupID integrationType orgs s = (Done out, s') ->
  exists results s1 s2,
    mapM (refreshOrg integrationType) orgs s = (Done results, s1)
    /\ collectOutput (mkOutput groupID ∅ ∅ []) results s1 = (Done out, s2).
Proof.
  intros Hrun. unfold runRefresh in Hrun. unfold bind at 1 in Hrun.
  destruct (mapM (refreshOrg integrationType) orgs s)
    as [[results|why] s1] eqn:Hmap; [|discriminate].
  unfold bind at 1 in Hrun.
  destruct (collectOutput _ results s1) as [[out1|why] s2] eqn:Hcollect;
    [|discriminate].
  assert (Hout : out = out1).
  { unfold bind in Hrun.
    destruct (length (Targets out1) =? 0)%nat; simpl in Hrun;
      injection Hrun as <- _; reflexivity. }
  subst out1. exists results, s1, s2. split; [reflexivity | exact Hcollect].
Qed.

(** An entry of the output is an entry of a result without error. *)
Lemma collectOutput_entry (groupID : string) (results : list orgResult)
    (s1 s2 : State) (out : RefreshOutput) (e : ImportTarget) :
  collectOutput (mkOutput groupID ∅ ∅ []) results s1 = (Done out, s2) ->
  e ∈ Targets out ->
  exists res, res ∈ results /\ refresh_err res = None /\ e ∈ targets res.
Proof.
  intros Hcollect He. rewrite (collectOutput_targets _ _ _ _ _ Hcollect) in He.
  simpl in He. apply list_elem_of_In, in_concat in He as (l & Hl & He).
  apply list_elem_of_In, list_elem_of_fmap in Hl as (res & -> & Hres).
  apply list_elem_of_filter in Hres as [Herr Hres].
  exists res. split; [exact Hres|]. split; [exact Herr|].
  apply list_elem_of_In. exact He.
Qed.

(** X12.  Every entry of the manifest comes from a project that the API
    returned for the entry's org, an org of the run: the project's origin is
    not gitlab and is a supported one; with an integration type asked for,
    the origin or its integration key is that type; the entry's integration
    ID is what the org's integrations give for the origin's key, and it is
    not empty; the entry's target is what the parser makes of the project's
    name, origin and branch. *)
Theorem manifest_entry_provenance (groupID integrationType : string)
    (orgs : list Org.t) (s s' : State) (out : RefreshOutput) (e : ImportTarget) :
  runRefresh groupID integrationType orgs s = (Done out, s') ->
  e ∈ Targets out ->
  exists o integrations ps p r0 r1 r2,
    o ∈ orgs /\ OrgID e = Org.ID o
    /\ ListIntegrations (Org.ID o) r0 = (Ok integrations, r1)
    /\ FetchProjects (Org.ID o) r1 = (Some (Ok ps), r2)
    /\ p ∈ ps
    /\ Project.Origin p <> "gitlab"
    /\ IsSCMOrigin (Project.Origin p) = true
    /\ (integrationType = EmptyString
        \/ Project.Origin p = integrationType
        \/ OriginToIntegrationKey (Project.Origin p) = integrationType)
    /\ integrations !! OriginToIntegrationKey (Project.Origin p)
       = Some (IntegrationID e)
    /\ IntegrationID e <> EmptyString
    /\ ProjectToTarget (Project.Name p) (Project.Origin p)
         (if String.eqb (Project.Branch p) EmptyString
          then Project.TargetReference p else Project.Branch p)
       = Some (import_Target e).
Proof.
  intros Hrun He.
  destruct (runRefresh_collected _ _ _ _ _ _ Hrun)
    as (results & s1 & s2 & Hmap & Hcollect).
  destruct (collectOutput_entry _ _ _ _ _ _ Hcollect He)
    as (res & Hres & Herr & Hentry).
  destruct (mapM_returns _ (refreshOrg integrationType) orgs
              (fun o _ => refreshOrg_fetched integrationType o)
              _ _ _ Hmap res Hres) as (o & Ho & Hfetched).
  destruct (Hfetched Herr)
    as (integrations & ps & r0 & r1 & r2 & Hlist & Hfetch & Htargets & _).
  rewrite Htargets, convertProjects_firstSeen in Hentry.
  apply firstSeenFrom_elem in Hentry as [Hentry _].
  apply list_elem_of_omap in Hentry as (p & Hp & Hentry).
  apply entryOf_Some in Hentry
    as (Hgitlab & Hscm & Htype & Hint & Hid & Horg & Htarget).
  exists o, integrations, ps, p, r0, r1, r2. auto 15.
Qed.

Lemma integrationMeta_from (l : list (string * string))
    (init : gmap string string) (intID : string) :
  (forall intType,
      foldl (fun meta '(intType, intID) => <[intID := intType]> meta) init l
        !! intID = Some intType ->
      init !! intID = Some intType \/ (intType, intID) ∈ l)
  /\ (is_Some (init !! intID) \/ (exists intType, (intType, intID) ∈ l) ->
      is_Some (foldl (fun meta '(intType, intID) => <[intID := intType]> meta)
                 init l !! intID)).
Proof.
  revert init. induction l as [|[ty id] l IH]; intros init; simpl.
  - split; [auto|]. intros [H|[ty H]]; [exact H | inversion H].
  - destruct (IH (<[id := ty]> init)) as [IHs IHc]. split.
    + intros intType H. apply IHs in H as [H|H]; [|right; right; exact H].
      destruct (decide (id = intID)) as [->|Hne].
      * rewrite lookup_insert_eq in H. injection H as ->. right. left.
      * rewrite lookup_insert_ne in H by exact Hne. left. exact H.
    + intros H. apply IHc.
      destruct (decide (id = intID)) as [->|Hne].
      * left. rewrite lookup_insert_eq. eauto.
      * rewrite lookup_insert_ne by exact Hne.
        destruct H as [H|[intType H]]; [left; exact H|].
        apply elem_of_cons in H as [H|H]; [congruence|]. right. eauto.
Qed.

(** [integrationMeta] turns the integrations of an org around: every ID has
    a type that the org gives that ID, and every ID the org gives is there. *)
Lemma integrationMeta_lookup (integrations : gmap string string)
    (intID : string) :
  (forall intType, integrationMeta integrations !! intID = Some intType ->
                   integrations !! intType = Some intID)
  /\ ((exists intType, integrations !! intType = Some intID) ->
      is_Some (integrationMeta integrations !! intID)).
Proof.
  unfold integrationMeta.
  destruct (integrationMeta_from (map_to_list integrations) ∅ intID)
    as [Hs Hc].
  split.
  - intros intType H. apply Hs in H as [H|H].
    + rewrite lookup_empty in H. discriminate.
    + apply elem_of_map_to_list in H. exact H.
  - intros [intType H]. apply Hc. right. exists intType.
    apply elem_of_map_to_list. exact H.
Qed.

(** A table of the output holds what the results without error put into
    it, and all of that. *)
Lemma collectOutput_table {V : Type} (tab : RefreshOutput -> gmap string V)
    (part : orgResult -> gmap string V) :
  (forall out res,
      tab (mkOutput (GroupID out) (orgMeta res ∪ Orgs out)
             (intMeta res ∪ Integrations out) (Targets out ++ targets res))
      = part res ∪ tab out) ->
  forall results out s out' s',
    collectOutput out results s = (Done out', s') ->
    (forall k v, tab out' !! k = Some v ->
                 tab out !! k = Some v
                 \/ exists res, res ∈ results /\ refresh_err res = None
                                /\ part res !! k = Some v)
    /\ (forall k,
          is_Some (tab out !! k)
          \/ (exists res, res ∈ results /\ refresh_err res = None
                          /\ is_Some (part res !! k)) ->
          is_Some (tab out' !! k)).
Proof.
  intros Htab. induction results as [|res rest IH]; intros out s out' s' Hrun;
    cbn [collectOutput] in Hrun.
  - injection Hrun as <- _. split; [auto|].
    intros k [H|(res & Hres & _)]; [exact H | inversion Hres].
  - destruct (refresh_err res) eqn:Herr.
    + unfold bind at 1 in Hrun. cbn [print emit] in Hrun.
      destruct (IH _ _ _ _ Hrun) as [IHs IHc]. split.
      * intros k v H. apply IHs in H as [H|(x & Hx & H)]; [auto|].
        right. exists x. split; [right; exact Hx | exact H].
      * intros k [H|(x & Hx & Hok & H)]; apply IHc; [auto|].
        apply elem_of_cons in Hx as [->|Hx]; [congruence|]. eauto.
    + unfold bind at 1 in Hrun.
      match type of Hrun with
      | context [(if 0 <? gitlabCount res then ?a else ?b) s] =>
          destruct ((if 0 <? gitlabCount res then a else b) s)
            as [[[]|why] s1]; [|discriminate]
      end.
      unfold bind at 1 in Hrun.
      match type of Hrun with
      | context [(if (0 <? length (targets res))%nat then ?a else ?b) s1] =>
          destruct ((if (0 <? length (targets res))%nat then a else b) s1)
            as [[[]|why] s2]; [|discriminate]
      end.
      destruct (IH _ _ _ _ Hrun) as [IHs IHc]. rewrite Htab in IHs, IHc.
      split.
      * intros k v H. apply IHs in H as [H|(x & Hx & H)].
        -- apply lookup_union_Some_raw in H as [H|[_ H]]; [|auto].
           right. exists res. split; [left|]. auto.
        -- right. exists x. split; [right; exact Hx | exact H].
      * intros k H. apply IHc. rewrite lookup_union_is_Some.
        destruct H as [H|(x & Hx & Hok & H)]; [auto|].
        apply elem_of_cons in Hx as [->|Hx]; [auto|]. eauto.
Qed.

Lemma collectOutput_GroupID (results : list orgResult)
    (out0 out : RefreshOutput) (s1 s2 : State) :
  collectOutput out0 results s1 = (Done out, s2) -> GroupID out = GroupID out0.
Proof.
  revert out0 s1. induction results as [|res rest IH]; intros out0 s1 Hrun;
    cbn [collectOutput] in Hrun.
  - injection Hrun as <- _. reflexivity.
  - destruct (refresh_err res).
    + unfold bind at 1 in Hrun. cbn [print emit] in Hrun.
      exact (IH _ _ Hrun).
    + unfold bind at 1 in Hrun.
      match type of Hrun with
      | context [(if 0 <? gitlabCount res then ?a else ?b) s1] =>
          destruct ((if 0 <? gitlabCount res then a else b) s1)
            as [[[]|why] s3]; [|discriminate]
      end.
      unfold bind at 1 in Hrun.
      match type of Hrun with
      | context [(if (0 <? length (targets res))%nat then ?a else ?b) s3] =>
          destruct ((if (0 <? length (targets res))%nat then a else b) s3)
            as [[[]|why] s4]; [|discriminate]
      end.
      rewrite (IH _ _ Hrun). reflexivity.
Qed.

(** X13.  The tables of the manifest.  The integrations table gives an
    integration ID a type only if the integrations of some org of the run
    give that type this ID, and it covers the integration ID of every entry
    of the manifest.  The orgs table holds for an org ID the name and the slug
    of an org of the run with that ID, which has a name or a slug.  The group
    ID is the one the run was given. *)
Theorem manifest_tables (groupID integrationType : string) (orgs : list Org.t)
    (s s' : State) (out : RefreshOutput) :
  runRefresh groupID integrationType orgs s = (Done out, s') ->
  GroupID out = groupID
  /\ (forall intID intType,
        Integrations out !! intID = Some intType ->
        exists o integrations r0 r1,
          o ∈ orgs
          /\ ListIntegrations (Org.ID o) r0 = (Ok integrations, r1)
          /\ integrations !! intType = Some intID)
  /\ (forall e, e ∈ Targets out -> is_Some (Integrations out !! IntegrationID e))
  /\ (forall id meta,
        Orgs out !! id = Some meta ->
        exists o, o ∈ orgs /\ Org.ID o = id
                  /\ meta = mkOrgMeta (Org.Name o) (Org.Slug o)
                  /\ (Org.Name o <> EmptyString \/ Org.Slug o <> EmptyString)).
Proof.
  intros Hrun.
  destruct (runRefresh_collected _ _ _ _ _ _ Hrun)
    as (results & s1 & s2 & Hmap & Hcollect).
  pose proof (mapM_returns _ (refreshOrg integrationType) orgs
                (fun o _ => refreshOrg_fetched integrationType o)
                _ _ _ Hmap) as Hresults.
  destruct (collectOutput_table Integrations intMeta
              (fun _ _ => eq_refl) _ _ _ _ _ Hcollect) as [Hints Hintc].
  destruct (collectOutput_table Orgs orgMeta
              (fun _ _ => eq_refl) _ _ _ _ _ Hcollect) as [Horgs _].
  split; [|split; [|split]].
  - exact (collectOutput_GroupID _ _ _ _ _ Hcollect).
  - intros intID intType H.
    apply Hints in H as [H|(res & Hres & Herr & H)].
    { simpl in H. rewrite lookup_empty in H. discriminate. }
    destruct (Hresults res Hres) as (o & Ho & Hfetched).
    destruct (Hfetched Herr)
      as (integrations & ps & r0 & r1 & r2 & Hlist & _ & _ & _ & Hmeta & _).
    rewrite Hmeta in H. apply integrationMeta_lookup in H.
    exists o, integrations, r0, r1. auto.
  - intros e He.
    destruct (collectOutput_entry _ _ _ _ _ _ Hcollect He)
      as (res & Hres & Herr & Hentry).
    apply Hintc. right. exists res. split; [exact Hres|]. split; [exact Herr|].
    destruct (Hresults res Hres) as (o & Ho & Hfetched).
    destruct (Hfetched Herr)
      as (integrations & ps & r0 & r1 & r2 & _ & _ & Htargets & _ & Hmeta & _).
    rewrite Htargets, convertProjects_firstSeen in Hentry.
    apply firstSeenFrom_elem in Hentry as [Hentry _].
    apply list_elem_of_omap in Hentry as (p & Hp & Hentry).
    apply entryOf_Some in Hentry as (_ & _ & _ & Hint & _).
    rewrite Hmeta. apply integrationMeta_lookup. eauto.
  - intros id meta H.
    apply Horgs in H as [H|(res & Hres & Herr & H)].
    { simpl in H. rewrite lookup_empty in H. discriminate. }
    destruct (Hresults res Hres) as (o & Ho & Hfetched).
    destruct (Hfetched Herr)
      as (integrations & ps & r0 & r1 & r2 & _ & _ & _ & _ & _ & Hmeta).
    rewrite Hmeta in H. exists o. split; [exact Ho|].
    destruct (String.eqb_spec (Org.Name o) EmptyString) as [Hn|Hn];
      destruct (String.eqb_spec (Org.Slug o) EmptyString) as [Hs|Hs];
      cbn [negb orb] in H;
      try (rewrite lookup_empty in H; discriminate);
      apply lookup_singleton_Some in H as [<- <-]; auto.
Qed.

(** *** Deletions and their replies *)

Lemma deleteRecord_replied (what url : string) (r r' : Remote) (status : Z)
    (body : string) :
  deleteReplied url r status body r' ->
  deleteRecord what url r
  = (if (status =? 204) || (status =? 200) then None
     else Some (StatusError ("delete " +:+ what) status body), r').
Proof.
  intros (req & Hreq & Hdo). unfold deleteRecord. rewrite Hreq, Hdo. simpl.
  destruct (status =? 204), (status =? 200); reflexivity.
Qed.

(** X14.  In delete mode a duplicate project, and likewise an empty
    duplicate target, counts as deleted exactly when the reply to its
    [DELETE] has status 204 or 200: the run then prints it as deleted and
    adds one to the count of deletions.  On any other status the run prints
    it as failed, with an error that carries the status and the body, adds
    one to the count of failures, and goes on. *)
Theorem deletion_outcome_by_status (org : string) (s : State) (status : Z)
    (body : string) (r' : Remote) :
  (forall d : Project.t,
      deleteReplied
        (baseURL +:+ "/rest/orgs/" +:+ url_PathEscape org +:+ "/projects/"
           +:+ url_PathEscape (Project.ID d) +:+ "?version=2025-09-28")
        (remote s) status body r' ->
      resolveDuplicate true org d s
      = (Done tt,
         if (status =? 204) || (status =? 200) then
           mkState r'
             (trace s ++ [Called (CallDeleteProject org (Project.ID d));
                          Printed (PrintDeleted d)])
             (mkCounters (totalDuplicates (counters s))
                (totalDeleted (counters s) + 1) (totalFailed (counters s))
                (targetsDeleted (counters s)) (targetsFailed (counters s)))
         else
           mkState r'
             (trace s ++ [Called (CallDeleteProject org (Project.ID d));
                          Printed (PrintDeleteFailed d
                                     (StatusError "delete project" status body))])
             (mkCounters (totalDuplicates (counters s))
                (totalDeleted (counters s)) (totalFailed (counters s) + 1)
                (targetsDeleted (counters s)) (targetsFailed (counters s)))))
  /\ (forall t : APITarget.t,
        deleteReplied
          (baseURL +:+ "/rest/orgs/" +:+ url_PathEscape org +:+ "/targets/"
             +:+ url_PathEscape (APITarget.ID t) +:+ "?version=2025-09-28")
          (remote s) status body r' ->
        cleanTarget true org t s
        = (Done tt,
           if (status =? 204) || (status =? 200) then
             mkState r'
               (trace s ++ [Called (CallDeleteTarget org (APITarget.ID t));
                            Printed (PrintTargetDeleted org t)])
               (mkCounters (totalDuplicates (counters s))
                  (totalDeleted (counters s)) (totalFailed (counters s))
                  (targetsDeleted (counters s) + 1) (targetsFailed (counters s)))
           else
             mkState r'
               (trace s ++ [Called (CallDeleteTarget org (APITarget.ID t));
                            Printed (LogTargetDeleteFailed org t
                                       (StatusError "delete target" status body))])
               (mkCounters (totalDuplicates (counters s))
                  (totalDeleted (counters s)) (totalFailed (counters s))
                  (targetsDeleted (counters s)) (targetsFailed (counters s) + 1)))).
Proof.
  split.
  - intros d Hreply. unfold resolveDuplicate, bind, callDeleteProject, callAPI,
      DeleteProject.
    rewrite (deleteRecord_replied _ _ _ _ _ _ Hreply).
    destruct ((status =? 204) || (status =? 200)); simpl;
      unfold print, emit; simpl; rewrite <- app_assoc; reflexivity.
  - intros t Hreply. unfold cleanTarget, bind, callDeleteTarget, callAPI,
      DeleteTarget.
    rewrite (deleteRecord_replied _ _ _ _ _ _ Hreply).
    destruct ((status =? 204) || (status =? 200)); simpl;
      unfold print, emit; simpl; rewrite <- app_assoc; reflexivity.
Qed.

(** *** The summary and the trace *)

Lemma countLines_app (f : Line -> bool) (a b : list Event) :
  countLines f (a ++ b) = countLines f a + countLines f b.
Proof.
  induction a as [|[c|l] a IH]; cbn [app countLines]; [reflexivity | exact IH|].
  rewrite IH. lia.
Qed.

Lemma countProjectDeletions_app (a b : list Event) :
  countProjectDeletions (a ++ b)
  = countProjectDeletions a + countProjectDeletions b.
Proof.
  induction a as [|[[]|l] a IH]; cbn [app countProjectDeletions];
    rewrite ?IH; lia.
Qed.

Lemma countLines_nonneg (f : Line -> bool) (tr : list Event) :
  0 <= countLines f tr.
Proof.
  induction tr as [|[c|l] tr IH]; cbn [countLines]; [lia | exact IH|].
  destruct (f l); lia.
Qed.

Lemma countLines_zero (f : Line -> bool) (tr : list Event) (l : Line) :
  countLines f tr = 0 -> Printed l ∈ tr -> f l = false.
Proof.
  induction tr as [|e tr IH]; intros Hzero Hl; [inversion Hl|].
  apply elem_of_cons in Hl as [<-|Hl].
  - cbn [countLines] in Hzero. pose proof (countLines_nonneg f tr).
    destruct (f l); [lia | reflexivity].
  - apply IH; [|exact Hl]. pose proof (countLines_nonneg f tr).
    destruct e as [c|l']; cbn [countLines] in Hzero; [exact Hzero|].
    destruct (f l'); lia.
Qed.

Lemma hoare_ret {A : Type} (Q : A -> State -> Prop) (R : State -> Prop) (a : A) :
  hoare (Q a) (ret a) Q R.
Proof. intros s H. exact H. Qed.

Lemma hoare_bind {A B : Type} (P : State -> Prop) (Q : A -> State -> Prop)
    (Q' : B -> State -> Prop) (R : State -> Prop) (m : M A) (k : A -> M B) :
  hoare P m Q R -> (forall a, hoare (Q a) (k a) Q' R) -> hoare P (bind m k) Q' R.
Proof.
  intros Hm Hk s HP. unfold bind. specialize (Hm s HP).
  destruct (m s) as [[a|why] s1]; [exact (Hk a s1 Hm) | exact Hm].
Qed.

Lemma hoare_forEach {A : Type} (I : State -> Prop) (R : State -> Prop)
    (l : list A) (body : A -> M unit) :
  (forall x, hoare I (body x) (fun _ => I) R) ->
  hoare I (forEach l body) (fun _ => I) R.
Proof.
  intros Hbody. induction l as [|x l IH]; cbn [forEach].
  - apply (hoare_ret (fun _ => I)).
  - eapply hoare_bind; [apply Hbody | intros ?; exact IH].
Qed.

Lemma hoare_mapM {A B : Type} (I : State -> Prop) (R : State -> Prop)
    (f : A -> M B) (l : list A) :
  (forall x, hoare I (f x) (fun _ => I) R) ->
  hoare I (mapM f l) (fun _ => I) R.
Proof.
  intros Hf. induction l as [|x l IH]; cbn [mapM].
  - apply (hoare_ret (fun _ => I)).
  - eapply hoare_bind; [apply Hf|]. intros y.
    eapply hoare_bind; [exact IH|]. intros ys. apply (hoare_ret (fun _ => I)).
Qed.

(** A loop that goes through one pending item per turn. *)
Lemma hoare_forEach_pending {A : Type} (J : Z -> State -> Prop)
    (R : State -> Prop) (l : list A) (body : A -> M unit) :
  (forall x k, hoare (J (k + 1)) (body x) (fun _ => J k) R) ->
  forall k, hoare (J (Z.of_nat (length l) + k)) (forEach l body)
              (fun _ => J k) R.
Proof.
  intros Hbody. induction l as [|x l IH]; intros k; cbn [forEach].
  - apply (hoare_ret (fun _ => J k)).
  - eapply hoare_bind; [|intros ?; apply IH].
    replace (Z.of_nat (length (x :: l)) + k)
      with (Z.of_nat (length l) + k + 1) by (cbn [length]; lia).
    apply Hbody.
Qed.

Ltac acc :=
  unfold accounted in *;
  cbn [trace counters totalDuplicates totalDeleted totalFailed targetsDeleted
         targetsFailed] in *;
  rewrite ?countLines_app, ?countProjectDeletions_app;
  cbn [countLines countProjectDeletions isWouldDelete isDeleted isDeleteFailed
         isTargetWouldDelete isTargetDeleted isTargetDeleteFailed isSummary];
  lia.

Lemma accounted_print (doDelete : bool) (pending : Z) (R : State -> Prop)
    (l : Line) :
  isWouldDelete l || isDeleted l || isDeleteFailed l || isTargetWouldDelete l
  || isTargetDeleted l || isTargetDeleteFailed l || isSummary l = false ->
  hoare (accounted doDelete pending) (print l)
    (fun _ => accounted doDelete pending) R.
Proof.
  intros Hl s H. unfold print, emit.
  repeat (apply orb_false_elim in Hl as [Hl ?]).
  unfold accounted in *.
  cbn [trace counters] in *. rewrite !countLines_app, countProjectDeletions_app.
  cbn [countLines countProjectDeletions].
  repeat match goal with Hf : _ l = false |- _ => rewrite Hf; clear Hf end.
  destruct doDelete; lia.
Qed.

Lemma accounted_getCounters (doDelete : bool) (pending : Z)
    (R : State -> Prop) :
  hoare (accounted doDelete pending) getCounters
    (fun _ => accounted doDelete pending) R.
Proof. intros s H. exact H. Qed.

Lemma accounted_callPaged {A : Type} (doDelete : bool) (pending : Z) (c : Call)
    (fetch : Remote -> option (result (list A)) * Remote) :
  (forall org id, c <> CallDeleteProject org id) ->
  hoare (accounted doDelete pending) (callPaged c fetch)
    (fun _ => accounted doDelete pending) (accounted doDelete pending).
Proof.
  intros Hc s H. unfold callPaged.
  assert (Hcount : countProjectDeletions [Called c] = 0).
  { destruct c; try reflexivity. destruct (Hc orgID0 projectID). reflexivity. }
  destruct (fetch (remote s)) as [[res|] r'];
    unfold accounted in *; cbn [trace counters] in *;
    rewrite !countLines_app, countProjectDeletions_app, Hcount;
    cbn [countLines]; destruct doDelete; lia.
Qed.

Lemma resolveDuplicate_accounted (doDelete : bool) (org : string)
    (d : Project.t) (pending : Z) (R : State -> Prop) :
  hoare (accounted doDelete (pending + 1)) (resolveDuplicate doDelete org d)
    (fun _ => accounted doDelete pending) R.
Proof.
  intros s H. unfold resolveDuplicate. destruct doDelete.
  - unfold bind, callDeleteProject, callAPI.
    destruct (DeleteProject org (Project.ID d) (remote s)) as [[e|] r'];
      cbn [updateCounters print emit]; acc.
  - cbn [print emit]. acc.
Qed.

Lemma resolveGroup_accounted (doDelete : bool) (org : string)
    (g : duplicateGroup) :
  hoare (accounted doDelete 0) (resolveGroup doDelete org g)
    (fun _ => accounted doDelete 0) (accounted doDelete 0).
Proof.
  unfold resolveGroup. destruct (projects g) as [|original dupes].
  { intros s H. exact H. }
  eapply hoare_bind with (Q := fun _ => accounted doDelete
                                          (Z.of_nat (length dupes) + 0)).
  { intros s H. cbn [updateCounters]. acc. }
  intros ?. eapply hoare_bind; [apply accounted_print; reflexivity|].
  intros ?. eapply hoare_bind; [apply accounted_print; reflexivity|].
  intros ?.
  apply (hoare_forEach_pending (accounted doDelete)).
  intros d k. apply resolveDuplicate_accounted.
Qed.

Lemma cleanTarget_accounted (doDelete : bool) (org : string) (t : APITarget.t)
    (R : State -> Prop) :
  hoare (accounted doDelete 0) (cleanTarget doDelete org t)
    (fun _ => accounted doDelete 0) R.
Proof.
  intros s H. unfold cleanTarget. destruct doDelete.
  - unfold bind, callDeleteTarget, callAPI.
    destruct (DeleteTarget org (APITarget.ID t) (remote s)) as [[e|] r'];
      cbn [updateCounters print emit]; acc.
  - unfold bind. cbn [print emit updateCounters]. acc.
Qed.

Lemma collectResults_accounted (doDelete : bool) (results : list dedupResult) :
  hoare (accounted doDelete 0) (collectResults results)
    (fun _ => accounted doDelete 0) (accounted doDelete 0).
Proof.
  induction results as [|res rest IH]; cbn [collectResults].
  - apply (hoare_ret (fun _ => accounted doDelete 0)).
  - destruct (dedup_err res).
    + eapply hoare_bind; [apply accounted_print; reflexivity|]. intros ?.
      eapply hoare_bind; [exact IH|]. intros c.
      apply (hoare_ret (fun _ => accounted doDelete 0)).
    + eapply hoare_bind; [exact IH|]. intros c.
      destruct (0 <? length (dedup_groups res))%nat;
        apply (hoare_ret (fun _ => accounted doDelete 0)).
Qed.

Lemma scanOrg_accounted (doDelete debug : bool) (o : Org.t) :
  hoare (accounted doDelete 0) (scanOrg debug o)
    (fun _ => accounted doDelete 0) (accounted doDelete 0).
Proof.
  unfold scanOrg, callFetchProjects.
  eapply hoare_bind; [apply accounted_callPaged; discriminate|].
  intros [ps|e]; [|apply (hoare_ret (fun _ => accounted doDelete 0))].
  eapply hoare_bind; [apply accounted_print; reflexivity|]. intros ?.
  eapply hoare_bind.
  - destruct debug; [|apply (hoare_ret (fun _ => accounted doDelete 0))].
    apply hoare_forEach. intros p. apply accounted_print. reflexivity.
  - intros ?. apply (hoare_ret (fun _ => accounted doDelete 0)).
Qed.

Lemma phase2_accounted (doDelete : bool) (orgsAffected : gset string) :
  hoare (accounted doDelete 0) (phase2 doDelete orgsAffected)
    (fun _ => accounted doDelete 0) (accounted doDelete 0).
Proof.
  unfold phase2.
  destruct (0 <? size orgsAffected)%nat;
    [|apply (hoare_ret (fun _ => accounted doDelete 0))].
  eapply hoare_bind; [apply accounted_getCounters|]. intros c.
  eapply hoare_bind.
  { destruct doDelete; [apply accounted_print; reflexivity|].
    destruct (0 <? totalDuplicates c);
      [apply accounted_print; reflexivity
      |apply (hoare_ret (fun _ => accounted false 0))]. }
  intros ?. apply hoare_forEach. intros org. unfold phase2Org.
  eapply hoare_bind;
    [unfold callFetchTargets; apply accounted_callPaged; discriminate|].
  intros [ts|e]; [|apply accounted_print; reflexivity].
  eapply hoare_bind;
    [unfold callFetchProjects; apply accounted_callPaged; discriminate|].
  intros [ps|e]; [|apply accounted_print; reflexivity].
  apply hoare_forEach. intros t. apply cleanTarget_accounted.
Qed.

(** The summary is printed from counters that agree with the trace. *)
Lemma printSummary_truthful (doDelete : bool) (orgsAffected : gset string)
    (failedOrgs : Z) (R : State -> Prop) :
  hoare (accounted doDelete 0)
    (printSummary doDelete orgsAffected failedOrgs)
    (fun _ s' => forall l, Printed l ∈ trace s' ->
                           summaryTruthful doDelete (trace s') l) R.
Proof.
  intros s H. unfold printSummary, bind, getCounters.
  assert (Hold : forall l, Printed l ∈ trace s -> isSummary l = false).
  { intros l Hl. apply (countLines_zero isSummary (trace s)); [|exact Hl].
    unfold accounted in H. lia. }
  assert (Hnot : forall tr l, isSummary l = false -> summaryTruthful doDelete tr l).
  { intros tr l Hl. destruct l; try discriminate; exact I. }
  pose proof (countLines_nonneg isWouldDelete (trace s)).
  pose proof (countLines_nonneg isDeleted (trace s)).
  pose proof (countLines_nonneg isDeleteFailed (trace s)).
  pose proof (countLines_nonneg isTargetWouldDelete (trace s)).
  pose proof (countLines_nonneg isTargetDeleted (trace s)).
  pose proof (countLines_nonneg isTargetDeleteFailed (trace s)).
  destruct ((totalDuplicates (counters s) =? 0)
            && (targetsDeleted (counters s) =? 0)) eqn:Hnone;
    [apply andb_prop in Hnone as [Hd Ht];
     apply Z.eqb_eq in Hd; apply Z.eqb_eq in Ht
    |destruct doDelete;
     [destruct ((0 <? targetsDeleted (counters s))
                || (0 <? targetsFailed (counters s)))
     |destruct (0 <? targetsDeleted (counters s))]];
    destruct (0 <? failedOrgs);
    cbn [print emit ret bind trace counters fst snd];
    intros l Hl;
    repeat (apply elem_of_app in Hl as [Hl|Hl];
            [|apply list_elem_of_singleton in Hl; injection Hl as ->]);
    try (apply Hnot; first [reflexivity | apply Hold; exact Hl]);
    cbn [summaryTruthful];
    rewrite ?countLines_app, ?countProjectDeletions_app;
    cbn [countLines countProjectDeletions isWouldDelete isDeleted
           isDeleteFailed isTargetWouldDelete isTargetDeleted
           isTargetDeleteFailed];
    unfold accounted in H; repeat split; try reflexivity; try lia.
Qed.

(** X15.  The summary of a run of the clean-up says what the run did.  In
    delete mode its numbers of deleted and of failed projects are the numbers
    of [deleted:] and of [FAILED:] lines the run printed, they add up to its
    number of duplicates, and that is the number of project deletions the run
    called; its numbers of targets cleaned up and failed are those of the
    lines about targets.  In a dry run its number of duplicates is the number
    of [delete:] lines, the run called no deletion, and the number of targets
    that would be removed is that of the lines saying so.  When it says that
    no duplicates were found, the run printed none of these lines. *)
Theorem summary_is_truthful (doDelete debug : bool) (orgs : list Org.t)
    (r : Remote) (l : Line) :
  Printed l ∈ trace (runDedup doDelete debug orgs (initialState r)).2 ->
  summaryTruthful doDelete
    (trace (runDedup doDelete debug orgs (initialState r)).2) l.
Proof.
  assert (Hrun : hoare (accounted doDelete 0) (runDedup doDelete debug orgs)
                   (fun _ s' => forall l, Printed l ∈ trace s' ->
                                          summaryTruthful doDelete (trace s') l)
                   (accounted doDelete 0)).
  { unfold runDedup.
    eapply hoare_bind; [apply hoare_mapM; intros o; apply scanOrg_accounted|].
    intros results.
    eapply hoare_bind; [apply collectResults_accounted|].
    intros collected. cbv zeta.
    eapply hoare_bind.
    { unfold phase1. apply hoare_forEach. intros c.
      eapply hoare_bind; [apply accounted_print; reflexivity|]. intros ?.
      apply hoare_forEach. intros g. apply resolveGroup_accounted. }
    intros ?. eapply hoare_bind; [apply phase2_accounted|].
    intros ?. apply printSummary_truthful. }
  specialize (Hrun (initialState r)).
  destruct (runDedup doDelete debug orgs (initialState r)) as [[[]|why] s'];
    cbn [snd].
  - intros Hl. apply Hrun; [|exact Hl].
    unfold accounted, initialState. simpl. destruct doDelete; lia.
  - intros Hl.
    assert (Hacc : accounted doDelete 0 s').
    { apply Hrun. unfold accounted, initialState. simpl.
      destruct doDelete; lia. }
    assert (Hl' : isSummary l = false).
    { apply (countLines_zero isSummary (trace s')); [|exact Hl].
      unfold accounted in Hacc. lia. }
    destruct l; try discriminate; exact I.
Qed.

(** *** What a refresh logs *)

Lemma convertProject_gitlab (integrationType org : string)
    (integrations : gmap string string) (st : conversion) (p : Project.t) :
  gitlabSkipped (convertProject integrationType org integrations st p)
  = gitlabSkipped st
    + (if String.eqb (Project.Origin p) "gitlab" then 1 else 0).
Proof.
  unfold convertProject.
  destruct (String.eqb (Project.Origin p) "gitlab"); [reflexivity|].
  repeat match goal with
         | |- context [if ?b then _ else _] => destruct b
         | |- context [match ?x with Some _ => _ | None => _ end] => destruct x
         end; simpl; lia.
Qed.

(** The gitlab projects are counted, all of them, whatever integration type
    is asked for. *)
Lemma convertProjects_gitlab (integrationType org : string)
    (integrations : gmap string string) (ps : list Project.t) :
  gitlabSkipped (convertProjects integrationType org integrations ps)
  = Z.of_nat (length (filter (fun p => Project.Origin p = "gitlab") ps)).
Proof.
  unfold convertProjects.
  assert (Hfrom : forall st,
             gitlabSkipped
               (foldl (convertProject integrationType org integrations) st ps)
             = gitlabSkipped st
               + Z.of_nat (length (filter (fun p => Project.Origin p = "gitlab")
                                     ps))).
  { induction ps as [|p ps IH]; intros st; simpl; [lia|].
    rewrite IH, convertProject_gitlab.
    destruct (String.eqb_spec (Project.Origin p) "gitlab") as [Hg|Hg].
    - rewrite filter_cons_True by exact Hg. cbn [length]. lia.
    - rewrite filter_cons_False by exact Hg. lia. }
  rewrite Hfrom. simpl. lia.
Qed.

Lemma refreshOrg_result (integrationType : string) (o : Org.t) :
  returns (refreshOrg integrationType o) (resultOfOrg integrationType o).
Proof.
  intros s res s' Hrun. unfold refreshOrg in Hrun. unfold bind at 1 in Hrun.
  unfold callListIntegrations, callAPI in Hrun.
  destruct (ListIntegrations (Org.ID o) (remote s)) as [listed r1] eqn:Hlist.
  unfold bind at 1 in Hrun. unfold callFetchProjects, callPaged in Hrun.
  cbn [remote] in Hrun.
  destruct (FetchProjects (Org.ID o) r1) as [[fetched|] r2] eqn:Hfetch;
    [|discriminate].
  assert (Hgoal : forall P : Prop,
             (refresh_orgID res = Org.ID o ->
              refresh_orgLabel res = orgLabelOf o ->
              match listed, fetched with
              | Err e, _ =>
                  refresh_err res = Some (Wrapped "list integrations" e)
                  /\ targets res = []
              | Ok _, Err e =>
                  refresh_err res = Some (Wrapped "fetch projects" e)
                  /\ targets res = []
              | Ok integrations, Ok ps =>
                  refresh_err res = None
                  /\ targets res
                     = converted (convertProjects integrationType (Org.ID o)
                                    integrations ps)
                  /\ gitlabCount res
                     = Z.of_nat
                         (length (filter (fun p => Project.Origin p = "gitlab")
                                    ps))
              end -> P) -> P).
  { intros P HP.
    destruct listed as [integrations|e]; [destruct fetched as [ps|e]|].
    - destruct (length ps =? 0)%nat eqn:Hlen; injection Hrun as <- _;
        apply HP; try reflexivity; simpl.
      + destruct ps; [|discriminate]. auto.
      + rewrite convertProjects_gitlab. auto.
    - injection Hrun as <- _. apply HP; try reflexivity. simpl. auto.
    - injection Hrun as <- _. apply HP; try reflexivity. simpl. auto. }
  apply Hgoal. intros Hid Hlabel Hres.
  split; [exact Hid|]. split; [exact Hlabel|].
  exists (remote s), listed, r1, fetched, r2. auto.
Qed.

Lemma collectOutput_logs (results : list orgResult) (out : RefreshOutput) :
  emitsOnly (fun e => exists l res, e = Printed l /\ res ∈ results
                                    /\ logsResult res l)
    (collectOutput out results).
Proof.
  revert out. induction results as [|res rest IH]; intros out;
    cbn [collectOutput]; [apply emitsOnly_ret|].
  assert (Hrest : forall out',
             emitsOnly (fun e => exists l res', e = Printed l
                                                /\ res' ∈ res :: rest
                                                /\ logsResult res' l)
               (collectOutput out' rest)).
  { intros out'. eapply emitsOnly_weaken; [|apply IH].
    intros e (l & res' & -> & Hres' & Hl). exists l, res'.
    split; [reflexivity|]. split; [right; exact Hres' | exact Hl]. }
  destruct (refresh_err res) as [e|] eqn:Herr.
  - apply emitsOnly_bind; [|intros _; apply Hrest].
    apply emitsOnly_print. exists (WarnFailedOrg (refresh_orgLabel res) e), res.
    split; [reflexivity|]. split; [left|]. simpl. auto.
  - apply emitsOnly_bind; [|intros _; apply emitsOnly_bind;
                                        [|intros _; apply Hrest]].
    + destruct (Z.ltb_spec 0 (gitlabCount res)); [|apply emitsOnly_ret].
      apply emitsOnly_print.
      exists (WarnGitlabSkipped (refresh_orgLabel res) (gitlabCount res)), res.
      split; [reflexivity|]. split; [left|]. simpl. auto.
    + destruct (Nat.ltb_spec 0 (length (targets res))) as [Hlen|Hlen].
      * apply emitsOnly_print.
        exists (LogOrgTargets (refresh_orgLabel res) (length (targets res))), res.
        split; [reflexivity|]. split; [left|]. simpl. auto.
      * destruct (Z.eqb_spec (gitlabCount res) 0) as [Hg|Hg];
          [|apply emitsOnly_ret].
        apply emitsOnly_print.
        exists (LogNoSCMProjects (refresh_orgLabel res)), res.
        split; [reflexivity|]. split; [left|]. simpl.
        destruct (targets res); [auto | simpl in Hlen; lia].
Qed.

(** The lines of a refresh are lines about the results of its orgs, or the
    line saying that no targets were found. *)
Lemma runRefresh_lines (groupID integrationType : string)
    (orgs : list Org.t) (r : Remote) (l : Line) :
  Printed l
    ∈ trace (runRefresh groupID integrationType orgs (initialState r)).2 ->
  l = LogNoTargets
  \/ exists results s1 res,
       mapM (refreshOrg integrationType) orgs (initialState r)
       = (Done results, s1)
       /\ res ∈ results /\ logsResult res l.
Proof.
  intros Hl. unfold runRefresh in Hl. unfold bind at 1 in Hl.
  destruct (emitsOnly_mapM (fun e => forall l, e <> Printed l)
              (refreshOrg integrationType) orgs) with (s := initialState r)
    as (new1 & Htrace1 & Hall1).
  { intros o _. unfold refreshOrg, callListIntegrations, callFetchProjects.
    emits; discriminate. }
  simpl in Htrace1. rewrite Forall_forall in Hall1.
  destruct (mapM (refreshOrg integrationType) orgs (initialState r))
    as [[results|why] s1] eqn:Hmap; simpl in Htrace1.
  2:{ simpl in Hl. rewrite Htrace1 in Hl. destruct (Hall1 _ Hl l). reflexivity. }
  unfold bind at 1 in Hl.
  destruct (collectOutput_logs results (mkOutput groupID ∅ ∅ []) s1)
    as (new2 & Htrace2 & Hall2).
  rewrite Forall_forall in Hall2.
  assert (Hline : forall e, e ∈ trace s1 ++ new2 -> e = Printed l ->
                            exists res, res ∈ results /\ logsResult res l).
  { intros e He ->. apply elem_of_app in He as [He|He].
    - rewrite Htrace1 in He. destruct (Hall1 _ He l). reflexivity.
    - destruct (Hall2 _ He) as (l' & res & [= <-] & Hres & Hlogs). eauto. }
  assert (Hthere : Printed l ∈ trace s1 ++ new2 ->
                   l = LogNoTargets
                   \/ exists results0 s0 res,
                        (Done results, s1) = (Done results0, s0)
                        /\ res ∈ results0 /\ logsResult res l).
  { intros He. right. destruct (Hline _ He eq_refl) as (res & Hres & Hlogs).
    exists results, s1, res. auto. }
  destruct (collectOutput _ results s1) as [[out|why] s2]; simpl in Htrace2.
  2:{ simpl in Hl. rewrite Htrace2 in Hl. auto. }
  unfold bind in Hl.
  destruct (length (Targets out) =? 0)%nat; simpl in Hl.
  - apply elem_of_app in Hl as [Hl|Hl].
    + rewrite Htrace2 in Hl. auto.
    + apply list_elem_of_singleton in Hl. injection Hl as ->. left. reflexivity.
  - rewrite Htrace2 in Hl. auto.
Qed.

(** X16.  What a refresh logs is true of what the API returned.  The run
    logs one line saying that no targets were found, or lines about orgs of
    the run.  A line about a failed org carries the error of the listing of
    its integrations or, when that went well, of the fetch of its projects;
    when both fail it is the former.  A line about skipped gitlab projects
    carries the number of all projects of origin gitlab among those fetched
    for the org, whatever integration type was asked for.  A line about the
    targets of an org carries the number of its entries. *)
Theorem refresh_log_is_truthful (groupID integrationType : string)
    (orgs : list Org.t) (r : Remote) (l : Line) :
  Printed l
    ∈ trace (runRefresh groupID integrationType orgs (initialState r)).2 ->
  l = LogNoTargets
  \/ exists o res, o ∈ orgs /\ resultOfOrg integrationType o res
                   /\ logsResult res l.
Proof.
  intros Hl.
  apply runRefresh_lines in Hl as [->|(results & s1 & res & Hmap & Hres & Hlogs)];
    [left; reflexivity|].
  right.
  destruct (mapM_returns _ (refreshOrg integrationType) orgs
              (fun o _ => refreshOrg_result integrationType o)
              _ _ _ Hmap res Hres) as (o & Ho & Hresult).
  exists o, res. auto.
Qed.

(** *** The refresh of a single org *)

(** X17.  The refresh subcommand.  With neither or both of the group ID and
    the org ID it exits before any request.  With a group ID, a failure to
    fetch the orgs of the group makes it exit with that error, and no org is
    processed.  With an org ID alone it lists no orgs: it runs on the one org
    of that ID, whose name and slug are empty; so every entry of the manifest
    is of that org, the manifest has no group ID and an empty table of orgs,
    and every line logged about the org names it by its ID. *)
Theorem refresh_command_modes (groupID orgID integrationType : string)
    (r : Remote) :
  ((groupID = EmptyString <-> orgID = EmptyString) ->
   exists why, refreshCommand groupID orgID integrationType r = Exited why r)
  /\ (groupID <> EmptyString -> orgID = EmptyString ->
      forall e r', FetchOrgs groupID r = (Some (Err e), r') ->
                   refreshCommand groupID orgID integrationType r
                   = Exited (FetchOrgsFailed e) r')
  /\ (groupID = EmptyString -> orgID <> EmptyString ->
      exists outcome final,
        refreshCommand groupID orgID integrationType r = Ran outcome final
        /\ (outcome, final)
           = runRefresh EmptyString integrationType
               [Org.mk orgID EmptyString EmptyString] (initialState r)
        /\ (forall out, outcome = Done out ->
              GroupID out = EmptyString
              /\ Orgs out = ∅
              /\ forall e, e ∈ Targets out -> OrgID e = orgID)
        /\ (forall l, Printed l ∈ trace final ->
              l = LogNoTargets
              \/ exists res, refresh_orgLabel res = orgID /\ logsResult res l)).
Proof.
  unfold refreshCommand, resolveOrgs. split; [|split].
  - intros Hiff.
    destruct (String.eqb_spec groupID EmptyString) as [Hg|Hg];
      destruct (String.eqb_spec orgID EmptyString) as [Ho|Ho];
      cbn [andb negb]; eauto.
    + exfalso. apply Ho, Hiff, Hg.
    + exfalso. apply Hg, Hiff, Ho.
  - intros Hg Ho e r' Hfetch.
    destruct (String.eqb_spec groupID EmptyString) as [|_]; [contradiction|].
    destruct (String.eqb_spec orgID EmptyString) as [_|]; [|contradiction].
    cbn [andb negb]. rewrite Hfetch. reflexivity.
  - intros -> Ho.
    destruct (String.eqb_spec orgID EmptyString) as [|_]; [contradiction|].
    cbn [String.eqb andb negb].
    destruct (runRefresh EmptyString integrationType
                [Org.mk orgID EmptyString EmptyString] (initialState r))
      as [outcome final] eqn:Hrun.
    exists outcome, final. split; [reflexivity|]. split; [reflexivity|]. split.
    + intros out ->.
      destruct (runRefresh_collected _ _ _ _ _ _ Hrun)
        as (results & s1 & s2 & Hmap & Hcollect).
      pose proof (mapM_returns _ (refreshOrg integrationType) _
                    (fun o _ => refreshOrg_fetched integrationType o)
                    _ _ _ Hmap) as Hresults.
      split; [exact (collectOutput_GroupID _ _ _ _ _ Hcollect)|]. split.
      * apply map_empty. intros id.
        destruct (Orgs out !! id) as [meta|] eqn:Hmeta; [|reflexivity].
        destruct (collectOutput_table Orgs orgMeta
                    (fun _ _ => eq_refl) _ _ _ _ _ Hcollect) as [Horgs _].
        apply Horgs in Hmeta as [H|(res & Hres & Herr & H)].
        { simpl in H. rewrite lookup_empty in H. discriminate. }
        destruct (Hresults res Hres) as (o & Hin & Hfetched).
        apply list_elem_of_singleton in Hin. subst o.
        destruct (Hfetched Herr)
          as (integrations & ps & r0 & r1 & r2 & _ & _ & _ & _ & _ & Hempty).
        rewrite Hempty in H. simpl in H. rewrite lookup_empty in H.
        discriminate.
      * intros e He.
        destruct (collectOutput_entry _ _ _ _ _ _ Hcollect He)
          as (res & Hres & Herr & Hentry).
        destruct (Hresults res Hres) as (o & Hin & Hfetched).
        apply list_elem_of_singleton in Hin. subst o.
        destruct (Hfetched Herr)
          as (integrations & ps & r0 & r1 & r2 & _ & _ & Htargets & _).
        rewrite Htargets in Hentry.
        exact (convertProjects_OrgID _ _ _ _ _ Hentry).
    + intros l Hl.
      assert (Hfinal : final
                       = (runRefresh EmptyString integrationType
                            [Org.mk orgID EmptyString EmptyString]
                            (initialState r)).2) by (rewrite Hrun; reflexivity).
      rewrite Hfinal in Hl.
      apply runRefresh_lines in Hl
        as [->|(results & s1 & res & Hmap & Hres & Hl)];
        [left; reflexivity|].
      right. exists res. split; [|exact Hl].
      destruct (mapM_returns _ (refreshOrg integrationType) _
                  (fun o _ => refreshOrg_result integrationType o)
                  _ _ _ Hmap res Hres) as (o & Hin & _ & Hlabel & _).
      apply list_elem_of_singleton in Hin. subst o. exact Hlabel.
Qed.

(** *** Links that lead back *)

Lemma fetchLoop_budget_short {A : Type} (what : string)
    (record : Page.Item -> A) (url : string) (r : Remote) (pages : list Page.t)
    (url' : string) (r' : Remote) :
  pagesRead url r pages url' r' ->
  forall (budget : nat) (records : list A),
    (budget < length pages)%nat ->
    (fetchLoop what record budget url records r).1 = None.
Proof.
  induction 1 as [url r|url r r1 page pages url' r' Hurl Hserved _ IH];
    intros budget records Hlen; [simpl in Hlen; lia|].
  destruct budget as [|budget].
  - cbn [fetchLoop].
    destruct (String.eqb_spec url EmptyString); [contradiction | reflexivity].
  - rewrite (fetchLoop_at _ _ _ _ _ _ Hurl),
      (fetchPage_served _ _ _ _ _ _ _ Hserved).
    apply IH. simpl in Hlen. lia.
Qed.

(** X19.  A page loop has no guard against links that lead back.  When the
    pages a paged fetch reads bring it back to its first URL with the remote
    as it was, the fetch does not end: the model runs out of pages whatever
    its page budget. *)
Theorem paged_fetch_may_not_end {A : Type} (what : string)
    (record : Page.Item -> A) (url : string) (r : Remote)
    (pages : list Page.t) :
  pages <> [] ->
  pagesRead url r pages url r ->
  forall (budget : nat) (records : list A),
    (fetchLoop what record budget url records r).1 = None.
Proof.
  intros Hpages Hread budget.
  induction budget as [budget IH] using lt_wf_ind. intros records.
  destruct (Nat.lt_ge_cases budget (length pages)) as [Hlt|Hge].
  - exact (fetchLoop_budget_short what record _ _ _ _ _ Hread _ _ Hlt).
  - replace budget with (length pages + (budget - length pages))%nat by lia.
    rewrite (fetchLoop_pagesRead what record _ _ _ _ _ Hread).
    apply IH. destruct pages; [contradiction|]. simpl in *. lia.
Qed.

(** *** A project list cut short, and the targets *)

(** X20.  Phase 2 trusts the list of projects it fetches again.  When that
    fetch is cut short by a 404, on the first page or after some pages, it
    ends with success, and phase 2 goes on with the projects of the pages
    read: every target whose display name at least two targets carry, and
    which no project on those pages references, is a removal candidate,
    deleted in delete mode and reported in a dry run.  A target whose
    projects all lie on pages that were not read is among them. *)
Theorem refetch_cut_short_empties_targets (doDelete : bool) (org : string)
    (s : State) (ts : list APITarget.t) (r1 r2 r3 : Remote)
    (pages : list Page.t) (url body : string) :
  (length pages < pageBudget)%nat ->
  FetchTargets org (remote s) = (Some (Ok ts), r1) ->
  pagesRead (projectsFirstURL org) r1 pages url r2 ->
  url <> EmptyString ->
  pageReplied url r2 404 body r3 ->
  exists s' new,
    phase2Org doDelete org s = (Done tt, s')
    /\ trace s'
       = trace s
           ++ [Called (CallFetchTargets org); Called (CallFetchProjects org)]
           ++ new
    /\ callsOf new
       = (if doDelete
          then (fun t => CallDeleteTarget org (APITarget.ID t))
                 <$> emptyDuplicateTargets ts (recordsOf projectOfItem pages)
          else [])
    /\ wouldDeleteTargetsOf new
       = (if doDelete then []
          else (fun t => (org, t))
                 <$> emptyDuplicateTargets ts (recordsOf projectOfItem pages))
    /\ forall t,
         t ∈ ts ->
         (2 <= length (filter (fun u => APITarget.DisplayName u
                                        = APITarget.DisplayName t) ts))%nat ->
         (forall page item,
             page ∈ pages -> item ∈ Page.Data page ->
             ~ references (projectOfItem item) t) ->
         if doDelete
         then CallDeleteTarget org (APITarget.ID t) ∈ callsOf new
         else (org, t) ∈ wouldDeleteTargetsOf new.
Proof.
  intros Hlen Hts Hread Hurl Hreply.
  assert (Hps : FetchProjects org r1
                = (Some (Ok (recordsOf projectOfItem pages)), r3)).
  { unfold FetchProjects.
    exact (proj1 (fetchLoop_cut_short "projects" projectOfItem _ _ _ _ _ _ _ _ _
                    Hlen Hread Hurl Hreply) eq_refl). }
  destruct (phase2Org_run doDelete org s ts _ r1 r3 Hts Hps)
    as (s' & new & Hrun & Htrace & Hcalls & Hwould).
  exists s', new. split; [exact Hrun|]. split; [exact Htrace|].
  split; [exact Hcalls|]. split; [exact Hwould|].
  intros t Ht Hname Hnone.
  assert (Hcandidate : t ∈ emptyDuplicateTargets ts
                             (recordsOf projectOfItem pages)).
  { apply emptyDuplicateTargets_elem. split; [exact Ht|]. split; [exact Hname|].
    intros (p & Hp & Href). unfold recordsOf in Hp.
    apply list_elem_of_In, in_flat_map in Hp as (page & Hpage & Hp).
    apply in_map_iff in Hp as (item & <- & Hitem).
    apply (Hnone page item); [apply list_elem_of_In; exact Hpage
                             |apply list_elem_of_In; exact Hitem
                             |exact Href]. }
  destruct doDelete.
  - rewrite Hcalls.
    apply (list_elem_of_fmap_2 (fun t => CallDeleteTarget org (APITarget.ID t))).
    exact Hcandidate.
  - rewrite Hwould. apply (list_elem_of_fmap_2 (fun t => (org, t))).
    exact Hcandidate.
Qed.

End Program.

(** ** The target helpers *)

Lemma Cut_first (before after : string) (sep : ascii) :
  Strings.Contains before sep = false ->
  Strings.Cut (before +:+ String sep after) sep = Some (before, after).
Proof.
  induction before as [|a before IH]; intros Hno.
  - rewrite append_nil_l. simpl. rewrite Ascii.eqb_refl. reflexivity.
  - rewrite append_cons. simpl in *.
    destruct (Ascii.eqb a sep); [discriminate|]. rewrite (IH Hno). reflexivity.
Qed.

Lemma Cut_None (s : string) (sep : ascii) :
  Strings.Cut s sep = None <-> Strings.Contains s sep = false.
Proof.
  induction s as [|a s IH]; simpl; [split; reflexivity|].
  destruct (Ascii.eqb a sep); [split; discriminate|].
  destruct (Strings.Cut s sep) as [[b r]|].
  - split; [discriminate|]. intros H. apply IH in H. discriminate.
  - split; [intros _; apply IH; reflexivity | reflexivity].
Qed.

Lemma Before_first (before after : string) (sep : ascii) :
  Strings.Contains before sep = false ->
  Strings.Before (before +:+ String sep after) sep = before.
Proof. intros Hno. unfold Strings.Before. rewrite Cut_first by assumption. reflexivity. Qed.

Lemma Before_absent (s : string) (sep : ascii) :
  Strings.Contains s sep = false -> Strings.Before s sep = s.
Proof.
  intros Hno. unfold Strings.Before. apply Cut_None in Hno. rewrite Hno. reflexivity.
Qed.

Lemma Contains_append (s t : string) (c : ascii) :
  Strings.Contains (s +:+ t) c = Strings.Contains s c || Strings.Contains t c.
Proof.
  induction s as [|a s IH]; [reflexivity|].
  rewrite append_cons. simpl. destruct (Ascii.eqb a c); [reflexivity | exact IH].
Qed.

Lemma length_append (s t : string) :
  String.length (s +:+ t) = (String.length s + String.length t)%nat.
Proof.
  induction s as [|a s IH]; [reflexivity|].
  rewrite append_cons. simpl. rewrite IH. reflexivity.
Qed.

(** Appending the same text to two strings keeps them apart. *)
Lemma append_inj_r (s1 s2 t : string) : s1 +:+ t = s2 +:+ t -> s1 = s2.
Proof.
  revert s2. induction s1 as [|a s1 IH]; intros [|b s2] H.
  - reflexivity.
  - apply (f_equal String.length) in H.
    rewrite append_nil_l, append_cons in H. simpl in H.
    rewrite length_append in H. lia.
  - apply (f_equal String.length) in H.
    rewrite append_nil_l, append_cons in H. simpl in H.
    rewrite length_append in H. lia.
  - rewrite !append_cons in H. injection H as -> H. f_equal. apply IH. exact H.
Qed.

Lemma append_inj_l (s t1 t2 : string) : s +:+ t1 = s +:+ t2 -> t1 = t2.
Proof.
  induction s as [|a s IH]; [rewrite !append_nil_l; auto|].
  rewrite !append_cons. intros [= H]. auto.
Qed.

(** The identity string spelled out: the org, the integration and the
    joined fields, with [":"] between them. *)
Lemma TargetID_shape (orgID integrationID : string) (t : Targets.Target) :
  Targets.TargetID orgID integrationID t
  = orgID +:+ ":" +:+ integrationID +:+ ":"
      +:+ Strings.Join (Targets.discriminatingFields t) ":".
Proof. destruct t; reflexivity. Qed.

(** C5.  [TargetID] is a function of its arguments: equal arguments give
    equal strings.  It joins the org, the integration and the target's
    fields with [":"], in the order name, owner, branch for a path-style
    target and key, slug for a key/slug-style one.  For a fixed target,
    two orgs give different strings under one integration, and two
    integrations give different strings under one org. *)
Theorem TargetID_deterministic_and_separating :
  (forall orgID orgID' integrationID integrationID' t t',
      orgID = orgID' -> integrationID = integrationID' -> t = t' ->
      Targets.TargetID orgID integrationID t
      = Targets.TargetID orgID' integrationID' t')
  /\ (forall orgID integrationID owner name branch,
        Targets.TargetID orgID integrationID (Targets.PathTarget owner name branch)
        = orgID +:+ ":" +:+ integrationID +:+ ":" +:+ name +:+ ":" +:+ owner
            +:+ ":" +:+ branch)
  /\ (forall orgID integrationID projectKey repoSlug,
        Targets.TargetID orgID integrationID
          (Targets.KeySlugTarget projectKey repoSlug)
        = orgID +:+ ":" +:+ integrationID +:+ ":" +:+ projectKey +:+ ":"
            +:+ repoSlug)
  /\ Targets.TargetID "org-1" "int-1" (Targets.PathTarget "owner" "repo" "main")
     = "org-1:int-1:repo:owner:main"
  /\ Targets.TargetID "org-2" "int-2" (Targets.KeySlugTarget "PROJ" "slug")
     = "org-2:int-2:PROJ:slug"
  /\ (forall orgID orgID' integrationID t,
        orgID <> orgID' ->
        Targets.TargetID orgID integrationID t
        <> Targets.TargetID orgID' integrationID t)
  /\ (forall orgID integrationID integrationID' t,
        integrationID <> integrationID' ->
        Targets.TargetID orgID integrationID t
        <> Targets.TargetID orgID integrationID' t).
Proof.
  repeat split.
  - intros ? ? ? ? ? ? -> -> ->. reflexivity.
  - intros orgID orgID' integrationID t Hne Heq. apply Hne.
    rewrite !TargetID_shape in Heq. apply append_inj_r in Heq. exact Heq.
  - intros orgID integrationID integrationID' t Hne Heq. apply Hne.
    rewrite !TargetID_shape in Heq.
    apply append_inj_l in Heq. apply (append_inj_l ":") in Heq.
    apply append_inj_r in Heq. exact Heq.
Qed.

Lemma splitName_well_formed (owner repo decoration path : string) :
  Strings.Contains owner "/" = false ->
  Strings.Contains repo ":" = false ->
  Strings.Contains repo "(" = false ->
  Strings.Contains decoration ":" = false ->
  (decoration = EmptyString \/ exists d, decoration = "(" +:+ d) ->
  Targets.splitName (owner +:+ "/" +:+ repo +:+ decoration +:+ ":" +:+ path)
  = Some (owner, repo).
Proof.
  intros Howner Hrepo Hparen Hdeco Hshape. unfold Targets.splitName.
  change (owner +:+ "/" +:+ repo +:+ decoration +:+ ":" +:+ path)
    with (owner +:+ String "/" (repo +:+ decoration +:+ ":" +:+ path)).
  rewrite (Cut_first _ _ _ Howner).
  rewrite <- append_assoc.
  change ((repo +:+ decoration) +:+ ":" +:+ path)
    with ((repo +:+ decoration) +:+ String ":" path).
  rewrite Before_first
    by (rewrite Contains_append, Hrepo, Hdeco; reflexivity).
  destruct Hshape as [->|[d ->]].
  - rewrite append_nil_r, (Before_absent _ _ Hparen). reflexivity.
  - change (repo +:+ "(" +:+ d) with (repo +:+ String "(" d).
    rewrite (Before_first _ _ _ Hparen). reflexivity.
Qed.

Lemma splitName_None (name : string) :
  Targets.splitName name = None <-> Strings.Contains name "/" = false.
Proof.
  unfold Targets.splitName. rewrite <- Cut_None.
  destruct (Strings.Cut name "/") as [[owner rest]|];
    split; (discriminate || reflexivity).
Qed.

Lemma pathStyle_not_keySlug (origin : string) :
  origin ∈ Targets.pathStyleOrigins -> origin ∉ Targets.keySlugStyleOrigins.
Proof.
  unfold Targets.pathStyleOrigins, Targets.keySlugStyleOrigins.
  rewrite !elem_of_cons, !elem_of_nil.
  intros H [->|[]]. repeat (destruct H as [H|H]; [discriminate|]). exact H.
Qed.

Lemma ProjectToTarget_pathStyle (name origin hint : string) :
  origin ∈ Targets.pathStyleOrigins ->
  Targets.ProjectToTarget name origin hint
  = match Targets.splitName name with
    | Some (owner, repo) => Some (Targets.PathTarget owner repo hint)
    | None => None
    end.
Proof.
  intros Horigin. unfold Targets.ProjectToTarget.
  rewrite (bool_decide_eq_true_2 _ Horigin).
  destruct (Targets.splitName name) as [[owner repo]|]; [|reflexivity].
  destruct (String.eqb_spec hint EmptyString) as [->|]; reflexivity.
Qed.

Lemma ProjectToTarget_keySlug (name origin hint : string) :
  origin ∈ Targets.keySlugStyleOrigins ->
  Targets.ProjectToTarget name origin hint
  = match Targets.splitName name with
    | Some (projectKey, repoSlug) =>
        Some (Targets.KeySlugTarget projectKey repoSlug)
    | None => None
    end.
Proof.
  intros Horigin. unfold Targets.ProjectToTarget.
  destruct (bool_decide (origin ∈ Targets.pathStyleOrigins)) eqn:Hpath.
  - apply bool_decide_eq_true_1 in Hpath.
    destruct (pathStyle_not_keySlug origin Hpath Horigin).
  - rewrite (bool_decide_eq_true_2 _ Horigin). reflexivity.
Qed.

Lemma ProjectToTarget_unsupported (name origin hint : string) :
  origin ∉ Targets.pathStyleOrigins ++ Targets.keySlugStyleOrigins ->
  Targets.ProjectToTarget name origin hint = None.
Proof.
  intros Hno. unfold Targets.ProjectToTarget.
  rewrite bool_decide_eq_false_2
    by (intros H; apply Hno, elem_of_app; left; exact H).
  rewrite bool_decide_eq_false_2
    by (intros H; apply Hno, elem_of_app; right; exact H).
  reflexivity.
Qed.

Lemma splitName_has_slash (owner rest : string) :
  exists o r, Targets.splitName (owner +:+ "/" +:+ rest) = Some (o, r).
Proof.
  destruct (Targets.splitName (owner +:+ "/" +:+ rest)) as [[o r]|] eqn:Hsplit;
    [eauto|].
  apply splitName_None in Hsplit.
  change (owner +:+ "/" +:+ rest) with (owner +:+ String "/" rest) in Hsplit.
  rewrite Contains_append in Hsplit. simpl in Hsplit.
  rewrite orb_true_r in Hsplit. discriminate.
Qed.

(** C6.  The supported origin tags are the eight of the allowlist.  For
    each of them and every name of the form [owner/repo:manifestPath],
    [ProjectToTarget] returns a target ([ok = true]), whatever the branch
    hint.  For every other tag, among them [gitlab] and the empty tag, it
    returns none ([ok = false]), whatever the name and the branch hint. *)
Theorem ProjectToTarget_ok_iff_supported :
  Targets.pathStyleOrigins ++ Targets.keySlugStyleOrigins
  = [ "github"; "github-cloud-app"; "github-enterprise"; "bitbucket-cloud";
      "bitbucket-cloud-app"; "bitbucket-connect-app"; "azure-repos";
      "bitbucket-server" ]
  /\ (forall origin,
        Targets.IsSCMOrigin origin = true
        <-> origin ∈ Targets.pathStyleOrigins ++ Targets.keySlugStyleOrigins)
  /\ (forall origin owner repo manifestPath hint,
        origin ∈ Targets.pathStyleOrigins ++ Targets.keySlugStyleOrigins ->
        exists t,
          Targets.ProjectToTarget
            (owner +:+ "/" +:+ repo +:+ ":" +:+ manifestPath) origin hint
          = Some t)
  /\ (forall origin name hint,
        origin ∉ Targets.pathStyleOrigins ++ Targets.keySlugStyleOrigins ->
        Targets.ProjectToTarget name origin hint = None)
  /\ (forall name hint,
        Targets.ProjectToTarget name "gitlab" hint = None
        /\ Targets.ProjectToTarget name EmptyString hint = None).
Proof.
  split; [reflexivity|]. split; [|split; [|split]].
  - intros origin. unfold Targets.IsSCMOrigin. apply bool_decide_eq_true.
  - intros origin owner repo manifestPath hint Horigin.
    destruct (splitName_has_slash owner (repo +:+ ":" +:+ manifestPath))
      as (o & r & Hsplit).
    apply elem_of_app in Horigin as [Hpath|Hkey].
    + rewrite (ProjectToTarget_pathStyle _ _ _ Hpath), Hsplit. eauto.
    + rewrite (ProjectToTarget_keySlug _ _ _ Hkey), Hsplit. eauto.
  - intros origin name hint. apply ProjectToTarget_unsupported.
  - intros name hint.
    split; apply ProjectToTarget_unsupported;
      unfold Targets.pathStyleOrigins, Targets.keySlugStyleOrigins;
      rewrite !elem_of_app, !elem_of_cons, !elem_of_nil;
      intros H; repeat (destruct H as [H|H]; try discriminate); exact H.
Qed.

(** C7.  For a path-style origin: a name [owner/repo:manifestPath], with or
    without a parenthetical decoration after the repository, gives the
    owner before the first ["/"] and the repository up to the [":"], the
    decoration stripped; the branch is the hint (hence the zero value when
    the hint is empty); a name with no ["/"] gives [ok = false], and only
    such a name does. *)
Theorem path_style_parsing (origin : string) :
  origin ∈ Targets.pathStyleOrigins ->
  (forall owner repo decoration manifestPath hint,
      Strings.Contains owner "/" = false ->
      Strings.Contains repo ":" = false ->
      Strings.Contains repo "(" = false ->
      Strings.Contains decoration ":" = false ->
      (decoration = EmptyString \/ exists d, decoration = "(" +:+ d) ->
      Targets.ProjectToTarget
        (owner +:+ "/" +:+ repo +:+ decoration +:+ ":" +:+ manifestPath)
        origin hint
      = Some (Targets.PathTarget owner repo hint))
  /\ (forall name hint t,
        Targets.ProjectToTarget name origin hint = Some t ->
        exists owner repo,
          t = Targets.PathTarget owner repo hint
          /\ (hint = EmptyString -> t = Targets.PathTarget owner repo EmptyString))
  /\ (forall name hint,
        Targets.ProjectToTarget name origin hint = None
        <-> Strings.Contains name "/" = false)
  /\ Targets.ProjectToTarget "myorg/myrepo:package.json" "github" "main"
     = Some (Targets.PathTarget "myorg" "myrepo" "main")
  /\ Targets.ProjectToTarget "owner/repo(branch):Dockerfile" "github" EmptyString
     = Some (Targets.PathTarget "owner" "repo" EmptyString)
  /\ Targets.ProjectToTarget "noslash" "github" EmptyString = None.
Proof.
  intros Horigin. split; [|split; [|split; [|repeat split]]].
  - intros owner repo decoration manifestPath hint Ho Hr Hp Hd Hshape.
    rewrite (ProjectToTarget_pathStyle _ _ _ Horigin).
    rewrite splitName_well_formed by assumption. reflexivity.
  - intros name hint t. rewrite (ProjectToTarget_pathStyle _ _ _ Horigin).
    destruct (Targets.splitName name) as [[owner repo]|]; [|discriminate].
    intros [= <-]. exists owner, repo. split; [reflexivity|].
    intros ->. reflexivity.
  - intros name hint. rewrite (ProjectToTarget_pathStyle _ _ _ Horigin).
    rewrite <- splitName_None.
    destruct (Targets.splitName name) as [[owner repo]|];
      split; (discriminate || reflexivity).
Qed.

(** C8.  For the key/slug-style origin: a name
    [projectKey/repoSlug:manifestPath] is split the way a path-style name
    is, into the project key and the repository slug; the branch hint plays
    no part; the target has the key/slug shape.  The shape of a target is
    settled by the origin tag alone: path-style origins give path-style
    targets, the key/slug-style origin gives key/slug-style targets, and no
    origin is of both styles. *)
Theorem key_slug_parsing :
  (forall projectKey repoSlug decoration manifestPath hint,
      Strings.Contains projectKey "/" = false ->
      Strings.Contains repoSlug ":" = false ->
      Strings.Contains repoSlug "(" = false ->
      Strings.Contains decoration ":" = false ->
      (decoration = EmptyString \/ exists d, decoration = "(" +:+ d) ->
      Targets.ProjectToTarget
        (projectKey +:+ "/" +:+ repoSlug +:+ decoration +:+ ":" +:+ manifestPath)
        "bitbucket-server" hint
      = Some (Targets.KeySlugTarget projectKey repoSlug))
  /\ (forall name hint hint',
        Targets.ProjectToTarget name "bitbucket-server" hint
        = Targets.ProjectToTarget name "bitbucket-server" hint')
  /\ (forall name hint pathOrigin,
        pathOrigin ∈ Targets.pathStyleOrigins ->
        match Targets.ProjectToTarget name pathOrigin hint,
              Targets.ProjectToTarget name "bitbucket-server" hint with
        | Some (Targets.PathTarget owner repo _),
          Some (Targets.KeySlugTarget projectKey repoSlug) =>
            projectKey = owner /\ repoSlug = repo
        | None, None => True
        | _, _ => False
        end)
  /\ (forall name origin hint t,
        Targets.ProjectToTarget name origin hint = Some t ->
        match t with
        | Targets.PathTarget _ _ _ => origin ∈ Targets.pathStyleOrigins
        | Targets.KeySlugTarget _ _ => origin = "bitbucket-server"
        end)
  /\ (forall origin,
        ~ (origin ∈ Targets.pathStyleOrigins
           /\ origin ∈ Targets.keySlugStyleOrigins))
  /\ Targets.ProjectToTarget "PROJ/my-repo:pom.xml" "bitbucket-server" "main"
     = Some (Targets.KeySlugTarget "PROJ" "my-repo").
Proof.
  assert (Hkey : "bitbucket-server" ∈ Targets.keySlugStyleOrigins) by left.
  split; [|split; [|split; [|split; [|split]]]].
  - intros projectKey repoSlug decoration manifestPath hint Hk Hr Hp Hd Hshape.
    rewrite (ProjectToTarget_keySlug _ _ _ Hkey).
    rewrite splitName_well_formed by assumption. reflexivity.
  - intros name hint hint'. rewrite !(ProjectToTarget_keySlug _ _ _ Hkey).
    reflexivity.
  - intros name hint pathOrigin Hpath.
    rewrite (ProjectToTarget_keySlug _ _ _ Hkey),
      (ProjectToTarget_pathStyle _ _ _ Hpath).
    destruct (Targets.splitName name) as [[owner repo]|]; [split; reflexivity | exact I].
  - intros name origin hint t. unfold Targets.ProjectToTarget.
    destruct (bool_decide (origin ∈ Targets.pathStyleOrigins)) eqn:Hpath.
    + apply bool_decide_eq_true_1 in Hpath.
      destruct (Targets.splitName name) as [[owner repo]|]; [|discriminate].
      intros [= <-]. exact Hpath.
    + destruct (bool_decide (origin ∈ Targets.keySlugStyleOrigins)) eqn:Hks;
        [|discriminate].
      apply bool_decide_eq_true_1 in Hks.
      destruct (Targets.splitName name) as [[projectKey repoSlug]|]; [|discriminate].
      intros [= <-]. apply list_elem_of_singleton in Hks. exact Hks.
  - intros origin [Hpath Hks]. exact (pathStyle_not_keySlug origin Hpath Hks).
  - reflexivity.
Qed.

(** ** The program on the small remote *)

Abbreviation demoFetchLoop :=
  (fetchLoop Demo.Remote Demo.url_Parse Demo.http_NewRequest Demo.DoWithRetry
     Demo.json_Unmarshal_page Demo.baseURL Demo.token).

Abbreviation demoFetchProjects :=
  (FetchProjects Demo.Remote Demo.url_Parse Demo.url_PathEscape
     Demo.http_NewRequest Demo.DoWithRetry Demo.json_Unmarshal_page
     Demo.baseURL Demo.token Demo.pageBudget).

Abbreviation demoFetchTargets :=
  (FetchTargets Demo.Remote Demo.url_Parse Demo.url_PathEscape
     Demo.http_NewRequest Demo.DoWithRetry Demo.json_Unmarshal_page
     Demo.baseURL Demo.token Demo.pageBudget).

Abbreviation demoPhase2Org :=
  (phase2Org Demo.Remote Demo.url_Parse Demo.url_PathEscape
     Demo.http_NewRequest Demo.DoWithRetry Demo.json_Unmarshal_page
     Demo.baseURL Demo.token Demo.pageBudget).

Abbreviation demoRunDedup :=
  (runDedup Demo.Remote Demo.url_Parse Demo.url_PathEscape
     Demo.http_NewRequest Demo.DoWithRetry Demo.json_Unmarshal_page
     Demo.sort_Slice Demo.baseURL Demo.token Demo.pageBudget).

Abbreviation demoRunRefresh :=
  (runRefresh Demo.Remote Demo.url_Parse Demo.url_PathEscape
     Demo.http_NewRequest Demo.DoWithRetry Demo.json_Unmarshal_page
     Demo.json_Unmarshal_integrations Demo.baseURL Demo.token Demo.pageBudget
     Targets.Target Targets.IsSCMOrigin Targets.OriginToIntegrationKey
     Targets.ProjectToTarget Targets.TargetID).

(** The table of the test of [isAllowedNextURL], on the stand-in parser. *)
Example isAllowedNextURL_test_table :
  map (fun '(nextURL, allowedHost) =>
         isAllowedNextURL Demo.url_Parse nextURL allowedHost)
    [ ("/rest/orgs/abc/projects?page=2", "api.snyk.io");
      ("/", "api.snyk.io");
      ("https://api.snyk.io/rest/orgs/abc/projects", "api.snyk.io");
      ("https://app.api.snyk.io/something", "api.snyk.io");
      ("https://api.eu.snyk.io/rest/orgs/abc/projects", "api.eu.snyk.io");
      ("https://evil.com/rest/orgs/abc/projects", "api.snyk.io");
      ("http://api.snyk.io/rest/orgs/abc/projects", "api.snyk.io");
      (EmptyString, "api.snyk.io");
      ("https://notapi.snyk.io/path", "api.snyk.io");
      ("https://evilapi.snyk.io/path", "api.snyk.io") ]
  = [true; true; true; true; true; false; false; false; false; false].
Proof. vm_compute. reflexivity. Qed.

(** C1 at work: a subdomain link passes, and a page loop that reads a page
    whose link points outside ends there, with the one project read and the
    next reply left unread. *)
Lemma pagination_link_followed_iff_witness :
  (forall u, Demo.url_Parse EmptyString = Some u -> Url.Scheme u <> "https")
  /\ isAllowedNextURL Demo.url_Parse "https://app.api.snyk.io/something"
       "api.snyk.io" = true
  /\ demoFetchLoop "projects" projectOfItem 3%nat
       "https://api.snyk.io/rest/orgs/org-a/projects" []
       [Demo.ok "a page with an outside link"; Demo.ok "projects of org-b"]
     = (Some (Ok [Project.mk "p1" "acme/app:package.json" "github" EmptyString
                    EmptyString "2024-01-01T00:00:00Z" "t-app-1"]),
        [Demo.ok "projects of org-b"]).
Proof.
  assert (Hempty : forall u, Demo.url_Parse EmptyString = Some u ->
                             Url.Scheme u <> "https").
  { intros u Hu. vm_compute in Hu. injection Hu as <-. discriminate. }
  split; [exact Hempty|]. split.
  - apply (pagination_link_followed_iff Demo.Remote Demo.url_Parse
             Demo.http_NewRequest Demo.DoWithRetry Demo.json_Unmarshal_page
             Demo.baseURL Demo.token
             "https://app.api.snyk.io/something" "api.snyk.io" Hempty).
    right. exists (Url.mk "https" "app.api.snyk.io" "app.api.snyk.io").
    split; [reflexivity|]. split; [reflexivity|]. right. exists "app". reflexivity.
  - destruct (pagination_link_followed_iff Demo.Remote Demo.url_Parse
                Demo.http_NewRequest Demo.DoWithRetry Demo.json_Unmarshal_page
                Demo.baseURL Demo.token
                "https://evilapi.snyk.io/rest/orgs/org-a/projects" "api.snyk.io"
                Hempty) as [_ Hloop].
    refine (proj1 (Hloop Project.t "projects" projectOfItem 2%nat
                     "https://api.snyk.io/rest/orgs/org-a/projects" []
                     [Demo.ok "a page with an outside link";
                      Demo.ok "projects of org-b"]
                     [Demo.ok "projects of org-b"]
                     (Page.mk
                        [Demo.projectItem "p1" "acme/app:package.json" "github"
                           "2024-01-01T00:00:00Z" "t-app-1"]
                        {["next" := JString
                            "https://evilapi.snyk.io/rest/orgs/org-a/projects"]})
                     _ _ _) _).
    + discriminate.
    + eexists _, _. split; [reflexivity|]. split; [reflexivity|].
      split; reflexivity.
    + reflexivity.
    + vm_compute. reflexivity.
Defined.

(** C9 at work: a 404 reply to the first page of projects gives the empty
    list; a 500 reply to the first page of targets gives an error with the
    status and the body. *)
Lemma paged_fetch_status_handling_witness :
  (0 < Demo.pageBudget)%nat
  /\ demoFetchProjects "org-a" [Http.mkResponse 404 "not found"]
     = (Some (Ok []), [])
  /\ demoFetchTargets "org-a" [Http.mkResponse 500 "boom"; Demo.ok "unread"]
     = (Some (Err (StatusError "fetch targets" 500 "boom")), [Demo.ok "unread"]).
Proof.
  assert (Hbudget : (0 < Demo.pageBudget)%nat) by (unfold Demo.pageBudget; lia).
  split; [exact Hbudget|]. split.
  - destruct (paged_fetch_status_handling Demo.Remote Demo.url_Parse
                Demo.url_PathEscape Demo.http_NewRequest Demo.DoWithRetry
                Demo.json_Unmarshal_page Demo.baseURL Demo.token Demo.pageBudget
                "org-a" [Http.mkResponse 404 "not found"] [] 404 "not found"
                Hbudget) as [Hprojects _].
    apply Hprojects; [|reflexivity].
    eexists. split; reflexivity.
  - destruct (paged_fetch_status_handling Demo.Remote Demo.url_Parse
                Demo.url_PathEscape Demo.http_NewRequest Demo.DoWithRetry
                Demo.json_Unmarshal_page Demo.baseURL Demo.token Demo.pageBudget
                "org-a" [Http.mkResponse 500 "boom"; Demo.ok "unread"]
                [Demo.ok "unread"] 500 "boom" Hbudget) as (_ & Htargets & _).
    apply Htargets; [|discriminate|discriminate].
    eexists. split; reflexivity.
Defined.

Lemma Demo_sortContract : sortContract Demo.sort_Slice.
Proof.
  split.
  - intros less l. unfold Demo.sort_Slice. apply merge_sort_Permutation.
  - intros l. unfold Demo.sort_Slice.
    apply (@StronglySorted_merge_sort _ createdOrdered).
    + intros a b c Hab Hbc. unfold createdOrdered, createdLess in *.
      destruct (String.ltb (Project.Created c) (Project.Created a)) eqn:Hca;
        [|reflexivity].
      destruct (decide (Project.Created b = Project.Created c)) as [Heq|Hne].
      * rewrite Heq in Hab. congruence.
      * apply ltb_total in Hbc; [|congruence].
        rewrite (ltb_trans _ _ _ Hbc Hca) in Hab. discriminate.
    + intros a b. unfold createdOrdered, createdLess.
      destruct (String.ltb (Project.Created b) (Project.Created a)) eqn:Hba;
        [right; apply ltb_asym; assumption | left; reflexivity].
Qed.

(** C2 at work: three projects of one name, fetched in the order T3, T1,
    T2, form the one group [T1, T2, T3]. *)
Lemma duplicate_grouping_witness :
  sortContract Demo.sort_Slice
  /\ findDuplicateGroups Demo.sort_Slice
       [ Project.mk "p3" "acme/app:package.json" "github" EmptyString EmptyString
           "2024-03-01T00:00:00Z" "t-app-2";
         Project.mk "p1" "acme/app:package.json" "github" EmptyString EmptyString
           "2024-01-01T00:00:00Z" "t-app-1";
         Project.mk "p2" "acme/app:package.json" "bitbucket-server" EmptyString
           EmptyString "2024-02-01T00:00:00Z" "t-app-2" ]
     = [ mkGroup "acme/app:package.json"
           [ Project.mk "p1" "acme/app:package.json" "github" EmptyString
               EmptyString "2024-01-01T00:00:00Z" "t-app-1";
             Project.mk "p2" "acme/app:package.json" "bitbucket-server"
               EmptyString EmptyString "2024-02-01T00:00:00Z" "t-app-2";
             Project.mk "p3" "acme/app:package.json" "github" EmptyString
               EmptyString "2024-03-01T00:00:00Z" "t-app-2" ] ].
Proof.
  split; [exact Demo_sortContract|].
  refine (proj2 (proj2 (proj2 (proj2 (proj2
            (duplicate_grouping Demo.Remote Demo.url_PathEscape
               Demo.http_NewRequest Demo.DoWithRetry Demo.sort_Slice
               Demo.baseURL Demo.token _ Demo_sortContract)))))
            (Project.mk "p1" "acme/app:package.json" "github" EmptyString
               EmptyString "2024-01-01T00:00:00Z" "t-app-1")
            (Project.mk "p2" "acme/app:package.json" "bitbucket-server"
               EmptyString EmptyString "2024-02-01T00:00:00Z" "t-app-2")
            (Project.mk "p3" "acme/app:package.json" "github" EmptyString
               EmptyString "2024-03-01T00:00:00Z" "t-app-2")
            _ _ _ _ _).
  - reflexivity.
  - reflexivity.
  - reflexivity.
  - reflexivity.
  - exact (Permutation_cons_append [_; _] _).
Defined.

(** C3 at work, in delete mode: of the four targets of the org, two share
    the name [acme/app]; the one no project references any more is deleted,
    the one still referenced and the two of a name of their own are left
    alone. *)
Lemma orphaned_target_candidates_witness :
  exists ts ps r1 r2,
    demoFetchTargets "org-a"
      [Demo.ok "targets of org-a"; Demo.ok "projects of org-a, after phase 1";
       Http.mkResponse 204 EmptyString]
    = (Some (Ok ts), r1)
    /\ demoFetchProjects "org-a" r1 = (Some (Ok ps), r2)
    /\ emptyDuplicateTargets ts ps
       = [APITarget.mk "t-app-2" "acme/app" EmptyString EmptyString EmptyString]
    /\ exists s' new,
         demoPhase2Org true "org-a"
           (initialState Demo.Remote
              [Demo.ok "targets of org-a";
               Demo.ok "projects of org-a, after phase 1";
               Http.mkResponse 204 EmptyString])
         = (Done tt, s')
         /\ callsOf new = [CallDeleteTarget "org-a" "t-app-2"]
         /\ CallDeleteTarget "org-a" "t-app-1" ∉ callsOf new.
Proof.
  eexists _, _, _, _.
  split; [vm_compute; reflexivity|]. split; [vm_compute; reflexivity|].
  split; [vm_compute; reflexivity|].
  destruct (orphaned_target_candidates Demo.Remote Demo.url_Parse
              Demo.url_PathEscape Demo.http_NewRequest Demo.DoWithRetry
              Demo.json_Unmarshal_page Demo.baseURL Demo.token Demo.pageBudget
              true "org-a"
              (initialState Demo.Remote
                 [Demo.ok "targets of org-a";
                  Demo.ok "projects of org-a, after phase 1";
                  Http.mkResponse 204 EmptyString])
              _ _ _ _
              ltac:(vm_compute; reflexivity) ltac:(vm_compute; reflexivity))
    as (_ & (s' & new & Hrun & _ & Hcalls & _ & Hkept) & _).
  exists s', new. split; [exact Hrun|]. split.
  - rewrite Hcalls. vm_compute. reflexivity.
  - apply (Hkept (APITarget.mk "t-app-1" "acme/app" EmptyString EmptyString
                    EmptyString)
                 (Project.mk "p1" "acme/app:package.json" "github" EmptyString
                    EmptyString "2024-01-01T00:00:00Z" "t-app-1")).
    + left.
    + split; [discriminate | reflexivity].
Defined.

(** C7 at work. *)
Lemma path_style_parsing_witness :
  "github-enterprise" ∈ Targets.pathStyleOrigins
  /\ Targets.ProjectToTarget "robhicksiii/Petclinic(main):pom.xml"
       "github-enterprise" "master"
     = Some (Targets.PathTarget "robhicksiii" "Petclinic" "master").
Proof.
  assert (Horigin : "github-enterprise" ∈ Targets.pathStyleOrigins)
    by (right; right; left).
  split; [exact Horigin|].
  refine (proj1 (path_style_parsing "github-enterprise" Horigin)
            "robhicksiii" "Petclinic" "(main)" "pom.xml" "master" _ _ _ _ _);
    try reflexivity.
  right. exists "main)". reflexivity.
Defined.


(** ** A base URL with a port *)

(** X4.  The host the next-link check allows is the [Host] of the base URL,
    port included, and it is compared with the [Hostname()] of the link, which
    has no port.  So when the base URL carries a port, a link that is not
    root-relative and whose hostname has no colon is never followed, be it on
    the very host and port of the base URL: the page loop ends at that
    page. *)
Theorem port_in_base_blocks_absolute_links
    (url_Parse : string -> option Url.t) (baseURL nextStr : string) (u : Url.t) :
  Strings.Contains (apiHost url_Parse baseURL) ":" = true ->
  url_Parse nextStr = Some u ->
  Strings.Contains (Url.Hostname u) ":" = false ->
  Strings.HasPrefix nextStr "/" = false ->
  isAllowedNextURL url_Parse nextStr (apiHost url_Parse baseURL) = false
  /\ forall links : gmap string JSON,
       links !! "next" = Some (JString nextStr) ->
       nextPageURL url_Parse baseURL links = EmptyString.
Proof.
  intros Hport Hparse Hhost Hrel.
  assert (Hno : isAllowedNextURL url_Parse nextStr (apiHost url_Parse baseURL)
                = false).
  { destruct (isAllowedNextURL url_Parse nextStr (apiHost url_Parse baseURL))
      eqn:Hallowed; [|reflexivity].
    apply isAllowedNextURL_true in Hallowed as [_ [Hslash|(u' & Hu & _ & Hh)]].
    - apply HasPrefix_slash in Hslash. congruence.
    - rewrite Hparse in Hu. injection Hu as <-.
      destruct Hh as [Hh|[sub Hh]]; rewrite Hh in Hhost.
      + congruence.
      + rewrite !Contains_append, Hport, !orb_true_r in Hhost. discriminate. }
  split; [exact Hno|].
  intros links Hnext. rewrite (nextPageURL_string _ _ _ _ Hnext), Hno.
  reflexivity.
Qed.

(** X4 at work: with the base URL [https://localhost:8443], a link to the
    next page on [https://localhost:8443] is not followed. *)
Lemma port_in_base_blocks_absolute_links_witness :
  isAllowedNextURL Demo.url_Parse
    "https://localhost:8443/rest/orgs/org-a/projects?starting_after=p2"
    (apiHost Demo.url_Parse "https://localhost:8443") = false
  /\ forall links : gmap string JSON,
       links !! "next"
       = Some (JString
                 "https://localhost:8443/rest/orgs/org-a/projects?starting_after=p2") ->
       nextPageURL Demo.url_Parse "https://localhost:8443" links = EmptyString.
Proof.
  apply (port_in_base_blocks_absolute_links Demo.url_Parse
           "https://localhost:8443"
           "https://localhost:8443/rest/orgs/org-a/projects?starting_after=p2"
           (Url.mk "https" "localhost:8443" "localhost")); reflexivity.
Defined.

(** ** More of the program on the small remote *)

Abbreviation demoLinkedFetchProjects :=
  (FetchProjects Demo.Remote Demo.url_Parse Demo.url_PathEscape
     Demo.http_NewRequest Demo.DoWithRetry Demo.json_Unmarshal_linked
     Demo.baseURL Demo.token Demo.pageBudget).

Abbreviation demoLinkedPagesRead :=
  (pagesRead Demo.Remote Demo.url_Parse Demo.http_NewRequest Demo.DoWithRetry
     Demo.json_Unmarshal_linked Demo.baseURL Demo.token).

Lemma demo_pagesRead_two (rest : Demo.Remote) :
  demoLinkedPagesRead
    "https://api.snyk.io/rest/orgs/org-a/projects?version=2025-09-28&limit=100"
    (Demo.ok "projects, page 1" :: Demo.ok "projects, page 2" :: rest)
    [Demo.linkedPage1; Demo.linkedPage2] EmptyString rest.
Proof.
  eapply pagesRead_page; [discriminate | |].
  { eexists _, _. repeat split. }
  change (nextPageURL _ _ (Page.Links Demo.linkedPage1))
    with "https://api.snyk.io/rest/orgs/org-a/projects?starting_after=p2".
  eapply pagesRead_page; [discriminate | |].
  { eexists _, _. repeat split. }
  change (nextPageURL _ _ (Page.Links Demo.linkedPage2)) with EmptyString.
  apply pagesRead_none.
Qed.

(** X1 at work: two linked pages, three projects in page order. *)
Lemma paged_fetch_reads_all_pages_witness :
  demoLinkedFetchProjects "org-a"
    [Demo.ok "projects, page 1"; Demo.ok "projects, page 2"]
  = (Some (Ok (recordsOf projectOfItem [Demo.linkedPage1; Demo.linkedPage2])), []).
Proof.
  apply (paged_fetch_reads_all_pages Demo.Remote Demo.url_Parse
           Demo.url_PathEscape Demo.http_NewRequest Demo.DoWithRetry
           Demo.json_Unmarshal_linked Demo.baseURL Demo.token Demo.pageBudget
           "org-a" _ _ [Demo.linkedPage1; Demo.linkedPage2]).
  - vm_compute. lia.
  - apply demo_pagesRead_two.
Defined.

Lemma demo_pagesRead_one (reply : Http.Response) :
  demoLinkedPagesRead
    "https://api.snyk.io/rest/orgs/org-a/projects?version=2025-09-28&limit=100"
    [Demo.ok "projects, page 1"; reply]
    [Demo.linkedPage1]
    "https://api.snyk.io/rest/orgs/org-a/projects?starting_after=p2" [reply].
Proof.
  eapply pagesRead_page; [discriminate | |].
  { eexists _, _. repeat split. }
  change (nextPageURL _ _ (Page.Links Demo.linkedPage1))
    with "https://api.snyk.io/rest/orgs/org-a/projects?starting_after=p2".
  apply pagesRead_none.
Qed.

(** X2 at work: a 404 after the first page gives the two projects of that
    page and no error; a 500 after it gives the error and no project. *)
Lemma paged_fetch_cut_short_witness :
  demoLinkedFetchProjects "org-a"
    [Demo.ok "projects, page 1"; Http.mkResponse 404 "not found"]
  = (Some (Ok (recordsOf projectOfItem [Demo.linkedPage1])), [])
  /\ demoLinkedFetchProjects "org-a"
       [Demo.ok "projects, page 1"; Http.mkResponse 500 "oops"]
     = (Some (Err (StatusError "fetch projects" 500 "oops")), []).
Proof.
  assert (Hlen : (length [Demo.linkedPage1] < Demo.pageBudget)%nat)
    by (vm_compute; lia).
  assert (Hurl : "https://api.snyk.io/rest/orgs/org-a/projects?starting_after=p2"
                 <> EmptyString) by discriminate.
  split.
  - assert (Hreply : pageReplied Demo.Remote Demo.http_NewRequest
                       Demo.DoWithRetry Demo.token
                       "https://api.snyk.io/rest/orgs/org-a/projects?starting_after=p2"
                       [Http.mkResponse 404 "not found"] 404 "not found" []).
    { eexists. split; reflexivity. }
    destruct (paged_fetch_cut_short Demo.Remote Demo.url_Parse
                Demo.url_PathEscape Demo.http_NewRequest Demo.DoWithRetry
                Demo.json_Unmarshal_linked Demo.baseURL Demo.token
                Demo.pageBudget "org-a"
                [Demo.ok "projects, page 1"; Http.mkResponse 404 "not found"]
                _ _ [Demo.linkedPage1] _ _ _
                Hlen Hurl Hreply) as [Hprojects _].
    destruct (Hprojects (demo_pagesRead_one _)) as [H404 _].
    exact (H404 eq_refl).
  - assert (Hreply : pageReplied Demo.Remote Demo.http_NewRequest
                       Demo.DoWithRetry Demo.token
                       "https://api.snyk.io/rest/orgs/org-a/projects?starting_after=p2"
                       [Http.mkResponse 500 "oops"] 500 "oops" []).
    { eexists. split; reflexivity. }
    destruct (paged_fetch_cut_short Demo.Remote Demo.url_Parse
                Demo.url_PathEscape Demo.http_NewRequest Demo.DoWithRetry
                Demo.json_Unmarshal_linked Demo.baseURL Demo.token
                Demo.pageBudget "org-a"
                [Demo.ok "projects, page 1"; Http.mkResponse 500 "oops"]
                _ _ [Demo.linkedPage1] _ _ _
                Hlen Hurl Hreply) as [Hprojects _].
    destruct (Hprojects (demo_pagesRead_one _)) as (_ & Hbad & _).
    apply Hbad; discriminate.
Defined.

(** X3 at work: the projects of the two linked pages. *)
Lemma fetched_project_branch_witness :
  Forall (fun p => (if String.eqb (Project.Branch p) EmptyString
                    then Project.TargetReference p else Project.Branch p)
                   = Project.Branch p)
    (recordsOf projectOfItem [Demo.linkedPage1; Demo.linkedPage2]).
Proof.
  apply Forall_forall. intros p Hp.
  apply (fetched_project_branch Demo.Remote Demo.url_Parse
           Demo.url_PathEscape Demo.http_NewRequest Demo.DoWithRetry
           Demo.json_Unmarshal_linked Demo.baseURL Demo.token Demo.pageBudget
           "org-a" [Demo.ok "projects, page 1"; Demo.ok "projects, page 2"] []
           (recordsOf projectOfItem [Demo.linkedPage1; Demo.linkedPage2])
           ltac:(vm_compute; reflexivity) p Hp).
Defined.

Abbreviation demoFetchOrgs :=
  (FetchOrgs Demo.Remote Demo.url_PathEscape Demo.http_NewRequest
     Demo.DoWithRetry Demo.baseURL Demo.token Demo.pageBudget
     Demo.json_Unmarshal_orgs).

Abbreviation demoOrgsReplied :=
  (orgsReplied Demo.Remote Demo.url_PathEscape Demo.http_NewRequest
     Demo.DoWithRetry Demo.baseURL Demo.token).

Abbreviation demoOrgsServed :=
  (orgsServed Demo.Remote Demo.url_PathEscape Demo.http_NewRequest
     Demo.DoWithRetry Demo.baseURL Demo.token Demo.json_Unmarshal_orgs).

Abbreviation demoFullOrgPagesRead :=
  (fullOrgPagesRead Demo.Remote Demo.url_PathEscape Demo.http_NewRequest
     Demo.DoWithRetry Demo.baseURL Demo.token Demo.json_Unmarshal_orgs).

Lemma demo_full_page (rest : Demo.Remote) :
  demoFullOrgPagesRead "group-1" 1 (Demo.ok "a hundred orgs" :: rest)
    [Demo.hundredOrgs] 2 rest.
Proof.
  apply (fullOrgPagesRead_page _ _ _ _ _ _ _ _ 1 _ rest _ [] 2 rest).
  - exists "a hundred orgs". split; [|reflexivity].
    eexists. split; reflexivity.
  - vm_compute. discriminate.
  - apply fullOrgPagesRead_none.
Qed.

(** X5 at work: a page of a hundred orgs is followed by a request for page
    2, whose two orgs end the fetch. *)
Lemma FetchOrgs_reads_until_short_page_witness :
  2 = 1 + Z.of_nat (length [Demo.hundredOrgs])
  /\ demoFetchOrgs "group-1" [Demo.ok "a hundred orgs"; Demo.ok "two orgs"]
     = (Some (Ok (concat [Demo.hundredOrgs] ++ Demo.twoOrgs)), []).
Proof.
  apply (FetchOrgs_reads_until_short_page Demo.Remote Demo.url_PathEscape
           Demo.http_NewRequest Demo.DoWithRetry Demo.baseURL Demo.token
           Demo.pageBudget Demo.json_Unmarshal_orgs "group-1"
           [Demo.ok "a hundred orgs"; Demo.ok "two orgs"] [Demo.ok "two orgs"] []
           [Demo.hundredOrgs] 2 Demo.twoOrgs).
  - vm_compute. lia.
  - apply demo_full_page.
  - exists "two orgs". split; [|reflexivity]. eexists. split; reflexivity.
  - vm_compute. reflexivity.
Defined.

(** X6 at work: a 404 for page 2 fails the fetch, and the hundred orgs of
    page 1 are not returned. *)
Lemma FetchOrgs_fails_on_other_status_witness :
  demoFetchOrgs "group-1"
    [Demo.ok "a hundred orgs"; Http.mkResponse 404 "not found"]
  = (Some (Err (StatusError "fetch orgs" 404 "not found")), []).
Proof.
  apply (FetchOrgs_fails_on_other_status Demo.Remote Demo.url_PathEscape
           Demo.http_NewRequest Demo.DoWithRetry Demo.baseURL Demo.token
           Demo.pageBudget Demo.json_Unmarshal_orgs "group-1"
           [Demo.ok "a hundred orgs"; Http.mkResponse 404 "not found"]
           [Http.mkResponse 404 "not found"] [] [Demo.hundredOrgs] 2).
  - vm_compute. lia.
  - apply demo_full_page.
  - eexists. split; reflexivity.
  - discriminate.
Defined.

(** ** The requests of a run *)

Section Requests.

Variable R : Type.
Variable url_Parse : string -> option Url.t.
Variable url_PathEscape : string -> string.
Variable http_NewRequest : string -> string -> result Http.Request.
Variable send : Http.Request -> R -> result Http.Response * R.
Variable json_Unmarshal_page : string -> result Page.t.
Variable json_Unmarshal_integrations : string -> result (gmap string string).
Variable sort_Slice :
  (Project.t -> Project.t -> bool) -> list Project.t -> list Project.t.
Variable baseURL : string.
Variable token : string.
Variable pageBudget : nat.
Variable json_Unmarshal_orgs : string -> result (list Org.t).

Local Abbreviation Logged := (R * list Http.Request)%type.

#[local] Instance sends_preorder (P : Http.Request -> Prop) :
  PreOrder (@sends R P).
Proof.
  split.
  - intros rl. exists []. rewrite app_nil_r. auto.
  - intros a b c (new1 & H1 & Hall1) (new2 & H2 & Hall2).
    exists (new1 ++ new2). rewrite H2, H1, app_assoc. split; [reflexivity|].
    apply Forall_app. auto.
Qed.

Lemma logged_fetchLoop {A : Type} (what : string) (record : Page.Item -> A)
    (budget : nat) (url : string) (records : list A) (r : R)
    (log : list Http.Request) :
  requestAsAsked http_NewRequest ->
  exists new,
    (fetchLoop Logged url_Parse http_NewRequest (logged send)
       json_Unmarshal_page baseURL token what record budget url records
       (r, log)).2.2 = log ++ new
    /\ (length new <= budget)%nat
    /\ match new with
       | [] => True
       | first :: rest =>
           pageRequest token url first
           /\ Forall (fun req => exists u, withinAPI url_Parse baseURL u
                                           /\ pageRequest token u req) rest
       end.
Proof.
  intros Hasked. revert url records r log.
  induction budget as [|budget IH]; intros url records r log; cbn [fetchLoop].
  { destruct (String.eqb url EmptyString); exists []; simpl;
      rewrite app_nil_r; auto. }
  destruct (String.eqb url EmptyString).
  { exists []. simpl. rewrite app_nil_r. split; [reflexivity|]. split; [lia | exact I]. }
  unfold fetchPage.
  destruct (http_NewRequest "GET" url) as [req0|e] eqn:Hreq.
  2:{ exists []. simpl. rewrite app_nil_r. split; [reflexivity|]. split; [lia | exact I]. }
  assert (Hfirst : pageRequest token url
                     (withHeaders token "application/vnd.api+json" req0)).
  { destruct (withHeaders_asked http_NewRequest token
                "application/vnd.api+json" _ _ _ Hasked Hreq)
      as (H1 & H2 & H3 & H4).
    repeat split; assumption. }
  unfold logged at 1. cbn [fst snd].
  destruct (send (withHeaders token "application/vnd.api+json" req0) r)
    as [[resp|e] r1].
  2:{ eexists [_]. simpl. split; [reflexivity|]. split; [lia|]. auto. }
  destruct (Http.StatusCode resp =? 404).
  { eexists [_]. simpl. split; [reflexivity|]. split; [lia|]. auto. }
  destruct (negb (Http.StatusCode resp =? 200)).
  { eexists [_]. simpl. split; [reflexivity|]. split; [lia|]. auto. }
  destruct (json_Unmarshal_page (Http.Body resp)) as [page|e].
  2:{ eexists [_]. simpl. split; [reflexivity|]. split; [lia|]. auto. }
  destruct (nextPageURL_withinAPI url_Parse baseURL (Page.Links page))
    as [Hend|Hwithin].
  - rewrite Hend, fetchLoop_end. eexists [_]. simpl.
    split; [reflexivity|]. split; [lia|]. auto.
  - destruct (IH (nextPageURL url_Parse baseURL (Page.Links page))
                (records ++ map record (Page.Data page)) r1
                (log ++ [withHeaders token "application/vnd.api+json" req0]))
      as (new & Hlog & Hlen & Hnew).
    exists (withHeaders token "application/vnd.api+json" req0 :: new).
    split; [rewrite Hlog, <- app_assoc; reflexivity|].
    split; [simpl; lia|]. split; [exact Hfirst|].
    destruct new as [|second rest]; [constructor|].
    destruct Hnew as [Hsecond Hrest]. constructor; [|exact Hrest]. eauto.
Qed.

(** X7.  The requests of a paged fetch, as a logging transport sees them:
    there are at most as many as the fetch may read pages; each is a [GET]
    that carries the token and the JSON:API media type; the first goes to
    the first URL of the fetch, every further one to the base URL followed
    by a root-relative path or to an HTTPS URL on the allowed host or a
    subdomain of it. *)
Theorem paged_fetch_requests (orgID : string) (r : R) :
  requestAsAsked http_NewRequest ->
  (exists new,
      (FetchProjects Logged url_Parse url_PathEscape http_NewRequest
         (logged send) json_Unmarshal_page baseURL token pageBudget orgID
         (r, [])).2.2 = new
      /\ (length new <= pageBudget)%nat
      /\ match new with
         | [] => True
         | first :: rest =>
             pageRequest token (projectsFirstURL url_PathEscape baseURL orgID)
               first
             /\ Forall (fun req => exists u, withinAPI url_Parse baseURL u
                                             /\ pageRequest token u req) rest
         end)
  /\ (exists new,
         (FetchTargets Logged url_Parse url_PathEscape http_NewRequest
            (logged send) json_Unmarshal_page baseURL token pageBudget orgID
            (r, [])).2.2 = new
         /\ (length new <= pageBudget)%nat
         /\ match new with
            | [] => True
            | first :: rest =>
                pageRequest token (targetsFirstURL url_PathEscape baseURL orgID)
                  first
                /\ Forall (fun req => exists u, withinAPI url_Parse baseURL u
                                                /\ pageRequest token u req) rest
            end).
Proof.
  intros Hasked. split.
  - destruct (logged_fetchLoop "projects" projectOfItem pageBudget
                (projectsFirstURL url_PathEscape baseURL orgID) [] r [] Hasked)
      as (new & Hlog & H).
    exists new. split; [exact Hlog | exact H].
  - destruct (logged_fetchLoop "targets" targetOfItem pageBudget
                (targetsFirstURL url_PathEscape baseURL orgID) [] r [] Hasked)
      as (new & Hlog & H).
    exists new. split; [exact Hlog | exact H].
Qed.







Lemma logged_fetchOrgsLoop (groupID : string) (budget : nat) (page : Z)
    (allOrgs : list Org.t) (r : R) (log : list Http.Request) :
  requestAsAsked http_NewRequest ->
  exists new,
    (fetchOrgsLoop Logged url_PathEscape http_NewRequest (logged send) baseURL
       token json_Unmarshal_orgs groupID budget page allOrgs (r, log)).2.2
    = log ++ new
    /\ (length new <= budget)%nat
    /\ forall (i : nat) (req : Http.Request),
         new !! i = Some req ->
         Http.Method req = "GET"
         /\ Http.URL req
            = orgsPageURL url_PathEscape baseURL groupID (page + Z.of_nat i)
         /\ Http.Header req !! "Authorization" = Some ("token " +:+ token)
         /\ Http.Header req !! "Accept" = Some "application/json".
Proof.
  intros Hasked. revert page allOrgs r log.
  induction budget as [|budget IH]; intros page allOrgs r log;
    cbn [fetchOrgsLoop].
  { exists []. simpl. rewrite app_nil_r. split; [reflexivity|].
    split; [lia|]. intros i req Hi. discriminate. }
  unfold fetchOrgsPage.
  destruct (http_NewRequest "GET" _) as [req0|e] eqn:Hreq.
  2:{ exists []. simpl. rewrite app_nil_r. split; [reflexivity|].
      split; [lia|]. intros i req Hi. discriminate. }
  pose proof (withHeaders_asked http_NewRequest token "application/json"
                _ _ _ Hasked Hreq) as Hfirst.
  assert (Hone : forall (i : nat) (req : Http.Request),
             [withHeaders token "application/json" req0] !! i = Some req ->
             Http.Method req = "GET"
             /\ Http.URL req
                = orgsPageURL url_PathEscape baseURL groupID (page + Z.of_nat i)
             /\ Http.Header req !! "Authorization" = Some ("token " +:+ token)
             /\ Http.Header req !! "Accept" = Some "application/json").
  { intros [|i] req Hi; [|discriminate]. injection Hi as <-.
    replace (page + Z.of_nat 0) with page by lia. exact Hfirst. }
  unfold logged at 1. cbn [fst snd].
  destruct (send (withHeaders token "application/json" req0) r)
    as [[resp|e] r1].
  2:{ eexists [_]. simpl. split; [reflexivity|]. split; [lia | exact Hone]. }
  destruct (negb (Http.StatusCode resp =? 200)).
  { eexists [_]. simpl. split; [reflexivity|]. split; [lia | exact Hone]. }
  destruct (json_Unmarshal_orgs (Http.Body resp)) as [orgs|e].
  2:{ eexists [_]. simpl. split; [reflexivity|]. split; [lia | exact Hone]. }
  destruct (Z.of_nat (length orgs) <? perPage).
  { eexists [_]. simpl. split; [reflexivity|]. split; [lia | exact Hone]. }
  destruct (IH (page + 1) (allOrgs ++ orgs) r1
              (log ++ [withHeaders token "application/json" req0]))
    as (new & Hlog & Hlen & Hnew).
  exists (withHeaders token "application/json" req0 :: new).
  split; [rewrite Hlog, <- app_assoc; reflexivity|].
  split; [simpl; lia|].
  intros [|i] req Hi.
  - apply (Hone 0%nat). exact Hi.
  - replace (page + Z.of_nat (S i)) with (page + 1 + Z.of_nat i) by lia.
    apply Hnew. exact Hi.
Qed.

(** X18.  The requests of [FetchOrgs], as a logging transport sees them:
    the first asks for page 1, each further one for the page after, a
    hundred orgs a page, with no page skipped or asked for twice; every
    request is a [GET] that carries the token and accepts JSON; there are at
    most as many as the fetch may read pages. *)
Theorem FetchOrgs_requests (groupID : string) (r : R) :
  requestAsAsked http_NewRequest ->
  (length (FetchOrgs Logged url_PathEscape http_NewRequest (logged send)
             baseURL token pageBudget json_Unmarshal_orgs groupID (r, [])).2.2
   <= pageBudget)%nat
  /\ forall (i : nat) (req : Http.Request),
       (FetchOrgs Logged url_PathEscape http_NewRequest (logged send)
          baseURL token pageBudget json_Unmarshal_orgs groupID (r, [])).2.2
       !! i = Some req ->
       Http.Method req = "GET"
       /\ Http.URL req
          = baseURL +:+ "/v1/group/" +:+ url_PathEscape groupID
              +:+ "/orgs?perPage=100&page=" +:+ itoa (1 + Z.of_nat i)
       /\ Http.Header req !! "Authorization" = Some ("token " +:+ token)
       /\ Http.Header req !! "Accept" = Some "application/json".
Proof.
  intros Hasked. unfold FetchOrgs.
  destruct (logged_fetchOrgsLoop groupID pageBudget 1 [] r [] Hasked)
    as (new & Hlog & Hlen & Hnew).
  simpl in Hlog. rewrite Hlog. split; [exact Hlen|].
  intros i req Hi. destruct (Hnew i req Hi) as (Hm & Hu & Hauth & Haccept).
  split; [exact Hm|]. split; [|auto]. rewrite Hu. reflexivity.
Qed.

End Requests.

(** ** Whole runs on the small remote *)

Lemma Demo_requestAsAsked : requestAsAsked Demo.http_NewRequest.
Proof. intros method url req [= <-]. split; reflexivity. Qed.

Lemma Demo_sort_length (less : Project.t -> Project.t -> bool)
    (l : list Project.t) :
  length (Demo.sort_Slice less l) = length l.
Proof. apply Permutation_length. apply Demo_sortContract. Qed.

(** X7 at work: the two requests of the fetch of the two linked pages. *)
Lemma paged_fetch_requests_witness :
  exists new,
    (FetchProjects (Demo.Remote * list Http.Request) Demo.url_Parse
       Demo.url_PathEscape Demo.http_NewRequest (logged Demo.DoWithRetry)
       Demo.json_Unmarshal_linked Demo.baseURL Demo.token Demo.pageBudget
       "org-a"
       ([Demo.ok "projects, page 1"; Demo.ok "projects, page 2"], [])).2.2 = new
    /\ (length new <= Demo.pageBudget)%nat
    /\ match new with
       | [] => True
       | first :: rest =>
           pageRequest Demo.token
             (projectsFirstURL Demo.url_PathEscape Demo.baseURL "org-a") first
           /\ Forall (fun req =>
                        exists u, withinAPI Demo.url_Parse Demo.baseURL u
                                  /\ pageRequest Demo.token u req) rest
       end.
Proof.
  exact (proj1 (paged_fetch_requests Demo.Remote Demo.url_Parse
                  Demo.url_PathEscape Demo.http_NewRequest Demo.DoWithRetry
                  Demo.json_Unmarshal_linked Demo.baseURL Demo.token
                  Demo.pageBudget "org-a"
                  [Demo.ok "projects, page 1"; Demo.ok "projects, page 2"]
                  Demo_requestAsAsked)).
Defined.



Lemma demo_dedup_trace :
  trace Demo.Remote
    (demoRunDedup true false [Demo.orgA]
       (initialState Demo.Remote Demo.dedupReplies)).2
  = [ Called (CallFetchProjects "org-a");
      Printed (LogFetched "Org A (org-a)" 4);
      Printed (PrintOrg "Org A (org-a)");
      Printed (PrintDuplicate "acme/app:package.json");
      Printed (PrintKeep
                 (Project.mk "p1" "acme/app:package.json" "github" EmptyString
                    EmptyString "2024-01-01T00:00:00Z" "t-app-1"));
      Called (CallDeleteProject "org-a" "p2");
      Printed (PrintDeleted
                 (Project.mk "p2" "acme/app:package.json" "bitbucket-server"
                    EmptyString EmptyString "2024-02-01T00:00:00Z" "t-app-2"));
      Called (CallDeleteProject "org-a" "p3");
      Printed (PrintDeleted
                 (Project.mk "p3" "acme/app:package.json" "github" EmptyString
                    EmptyString "2024-03-01T00:00:00Z" "t-app-2"));
      Printed PrintCleaningUp;
      Called (CallFetchTargets "org-a");
      Called (CallFetchProjects "org-a");
      Called (CallDeleteTarget "org-a" "t-app-2");
      Printed (PrintTargetDeleted "org-a"
                 (APITarget.mk "t-app-2" "acme/app" EmptyString EmptyString
                    EmptyString));
      Printed (PrintSummaryDelete 2 1 2 0);
      Printed (PrintSummaryTargets 1 0) ].
Proof. vm_compute. reflexivity. Qed.


(** X11 at work: the run in delete mode ends. *)
Lemma runDedup_never_panics_witness :
  (demoRunDedup true false [Demo.orgA]
     (initialState Demo.Remote Demo.dedupReplies)).1 = Done tt
  \/ (demoRunDedup true false [Demo.orgA]
        (initialState Demo.Remote Demo.dedupReplies)).1 = Aborted OutOfPages.
Proof.
  exact (proj2 (runDedup_never_panics Demo.Remote Demo.url_Parse
                  Demo.url_PathEscape Demo.http_NewRequest Demo.DoWithRetry
                  Demo.json_Unmarshal_page Demo.sort_Slice Demo.baseURL
                  Demo.token Demo.pageBudget true false [Demo.orgA]
                  (initialState Demo.Remote Demo.dedupReplies)
                  Demo_sort_length)).
Defined.

(** X15 at work: the summary of the run in delete mode. *)
Lemma summary_is_truthful_witness :
  summaryTruthful true
    (trace Demo.Remote
       (demoRunDedup true false [Demo.orgA]
          (initialState Demo.Remote Demo.dedupReplies)).2)
    (PrintSummaryDelete 2 1 2 0).
Proof.
  apply (summary_is_truthful Demo.Remote Demo.url_Parse Demo.url_PathEscape
           Demo.http_NewRequest Demo.DoWithRetry Demo.json_Unmarshal_page
           Demo.sort_Slice Demo.baseURL Demo.token Demo.pageBudget
           true false [Demo.orgA] Demo.dedupReplies (PrintSummaryDelete 2 1 2 0)).
  rewrite demo_dedup_trace. do 14 right. left.
Defined.

(** X12 and X13 at work: the manifest of a refresh of two orgs. *)
Lemma manifest_entry_provenance_witness :
  match (demoRunRefresh "group-1" EmptyString
           [Org.mk "org-a" "Acme" "acme";
            Org.mk "org-b" EmptyString EmptyString]
           (initialState Demo.Remote
              [Demo.ok "integrations"; Demo.ok "projects of org-a";
               Demo.ok "integrations"; Demo.ok "projects of org-b"])).1 with
  | Done out =>
      forall e, e ∈ Targets Targets.Target out ->
                IntegrationID Targets.Target e <> EmptyString
  | Aborted _ => False
  end.
Proof.
  destruct (demoRunRefresh "group-1" EmptyString
              [Org.mk "org-a" "Acme" "acme";
               Org.mk "org-b" EmptyString EmptyString]
              (initialState Demo.Remote
                 [Demo.ok "integrations"; Demo.ok "projects of org-a";
                  Demo.ok "integrations"; Demo.ok "projects of org-b"]))
    as [[out|why] s'] eqn:Hrun; cbn [fst].
  - intros e He.
    destruct (manifest_entry_provenance Demo.Remote Demo.url_Parse
                Demo.url_PathEscape Demo.http_NewRequest Demo.DoWithRetry
                Demo.json_Unmarshal_page Demo.json_Unmarshal_integrations
                Demo.baseURL Demo.token Demo.pageBudget
                Targets.Target Targets.IsSCMOrigin
                Targets.OriginToIntegrationKey Targets.ProjectToTarget
                Targets.TargetID "group-1" EmptyString _ _ _ _ e Hrun He)
      as (o & integrations & ps & p & r0 & r1 & r2 & H).
    apply H.
  - vm_compute in Hrun. discriminate.
Defined.

Lemma manifest_tables_witness :
  match (demoRunRefresh "group-1" EmptyString
           [Org.mk "org-a" "Acme" "acme";
            Org.mk "org-b" EmptyString EmptyString]
           (initialState Demo.Remote
              [Demo.ok "integrations"; Demo.ok "projects of org-a";
               Demo.ok "integrations"; Demo.ok "projects of org-b"])).1 with
  | Done out =>
      GroupID Targets.Target out = "group-1"
      /\ forall e, e ∈ Targets Targets.Target out ->
                   is_Some (Integrations Targets.Target out
                              !! IntegrationID Targets.Target e)
  | Aborted _ => False
  end.
Proof.
  destruct (demoRunRefresh "group-1" EmptyString
              [Org.mk "org-a" "Acme" "acme";
               Org.mk "org-b" EmptyString EmptyString]
              (initialState Demo.Remote
                 [Demo.ok "integrations"; Demo.ok "projects of org-a";
                  Demo.ok "integrations"; Demo.ok "projects of org-b"]))
    as [[out|why] s'] eqn:Hrun; cbn [fst].
  - destruct (manifest_tables Demo.Remote Demo.url_Parse
                Demo.url_PathEscape Demo.http_NewRequest Demo.DoWithRetry
                Demo.json_Unmarshal_page Demo.json_Unmarshal_integrations
                Demo.baseURL Demo.token Demo.pageBudget
                Targets.Target Targets.IsSCMOrigin
                Targets.OriginToIntegrationKey Targets.ProjectToTarget
                Targets.TargetID "group-1" EmptyString _ _ _ _ Hrun)
      as (Hgroup & _ & Hcover & _).
    split; [exact Hgroup | exact Hcover].
  - vm_compute in Hrun. discriminate.
Defined.

(** X14 at work: a 202 to the deletion of a duplicate counts as a failure. *)
Lemma deletion_outcome_by_status_witness :
  resolveDuplicate Demo.Remote Demo.url_PathEscape Demo.http_NewRequest
    Demo.DoWithRetry Demo.baseURL Demo.token true "org-a"
    (Project.mk "p2" "acme/app:package.json" "bitbucket-server" EmptyString
       EmptyString "2024-02-01T00:00:00Z" "t-app-2")
    (initialState Demo.Remote [Http.mkResponse 202 "accepted"])
  = (Done tt,
     mkState Demo.Remote []
       [ Called (CallDeleteProject "org-a" "p2");
         Printed (PrintDeleteFailed
                    (Project.mk "p2" "acme/app:package.json" "bitbucket-server"
                       EmptyString EmptyString "2024-02-01T00:00:00Z" "t-app-2")
                    (StatusError "delete project" 202 "accepted")) ]
       (mkCounters 0 0 1 0 0)).
Proof.
  apply (proj1 (deletion_outcome_by_status Demo.Remote Demo.url_PathEscape
                  Demo.http_NewRequest Demo.DoWithRetry Demo.baseURL Demo.token
                  "org-a" (initialState Demo.Remote [Http.mkResponse 202 "accepted"])
                  202 "accepted" [])).
  eexists. split; reflexivity.
Defined.

(** X18 at work: the two requests for the orgs of a group with a full first
    page. *)
Lemma FetchOrgs_requests_witness :
  (length (FetchOrgs (Demo.Remote * list Http.Request) Demo.url_PathEscape
             Demo.http_NewRequest (logged Demo.DoWithRetry) Demo.baseURL
             Demo.token Demo.pageBudget Demo.json_Unmarshal_orgs "group-1"
             ([Demo.ok "a hundred orgs"; Demo.ok "two orgs"], [])).2.2
   <= Demo.pageBudget)%nat
  /\ forall (i : nat) (req : Http.Request),
       (FetchOrgs (Demo.Remote * list Http.Request) Demo.url_PathEscape
          Demo.http_NewRequest (logged Demo.DoWithRetry) Demo.baseURL
          Demo.token Demo.pageBudget Demo.json_Unmarshal_orgs "group-1"
          ([Demo.ok "a hundred orgs"; Demo.ok "two orgs"], [])).2.2
       !! i = Some req ->
       Http.Method req = "GET"
       /\ Http.URL req
          = Demo.baseURL +:+ "/v1/group/" +:+ Demo.url_PathEscape "group-1"
              +:+ "/orgs?perPage=100&page=" +:+ itoa (1 + Z.of_nat i)
       /\ Http.Header req !! "Authorization" = Some ("token " +:+ Demo.token)
       /\ Http.Header req !! "Accept" = Some "application/json".
Proof.
  exact (FetchOrgs_requests Demo.Remote Demo.url_PathEscape
           Demo.http_NewRequest Demo.DoWithRetry Demo.baseURL Demo.token
           Demo.pageBudget Demo.json_Unmarshal_orgs "group-1"
           [Demo.ok "a hundred orgs"; Demo.ok "two orgs"] Demo_requestAsAsked).
Defined.

Lemma demo_refresh_trace :
  trace Demo.Remote
    (demoRunRefresh "group-1" EmptyString
       [Org.mk "org-a" "Acme" "acme"; Org.mk "org-b" EmptyString EmptyString]
       (initialState Demo.Remote
          [Demo.ok "integrations"; Http.mkResponse 404 "none";
           Http.mkResponse 500 "boom"; Demo.ok "projects of org-b"])).2
  = [ Called (CallListIntegrations "org-a");
      Called (CallFetchProjects "org-a");
      Called (CallListIntegrations "org-b");
      Called (CallFetchProjects "org-b");
      Printed (LogNoSCMProjects "Acme (acme)");
      Printed (WarnFailedOrg "org-b"
                 (Wrapped "list integrations"
                    (StatusError "list integrations" 500 "boom")));
      Printed LogNoTargets ].
Proof. vm_compute. reflexivity. Qed.

(** X16 at work: the warning about an org whose integrations could not be
    listed. *)
Lemma refresh_log_is_truthful_witness :
  WarnFailedOrg "org-b"
    (Wrapped "list integrations" (StatusError "list integrations" 500 "boom"))
  = LogNoTargets
  \/ exists o res,
       o ∈ [Org.mk "org-a" "Acme" "acme"; Org.mk "org-b" EmptyString EmptyString]
       /\ resultOfOrg Demo.Remote Demo.url_Parse Demo.url_PathEscape
            Demo.http_NewRequest Demo.DoWithRetry Demo.json_Unmarshal_page
            Demo.json_Unmarshal_integrations Demo.baseURL Demo.token
            Demo.pageBudget Targets.Target Targets.IsSCMOrigin
            Targets.OriginToIntegrationKey Targets.ProjectToTarget
            Targets.TargetID EmptyString o res
       /\ logsResult Targets.Target res
            (WarnFailedOrg "org-b"
               (Wrapped "list integrations"
                  (StatusError "list integrations" 500 "boom"))).
Proof.
  apply (refresh_log_is_truthful Demo.Remote Demo.url_Parse
           Demo.url_PathEscape Demo.http_NewRequest Demo.DoWithRetry
           Demo.json_Unmarshal_page Demo.json_Unmarshal_integrations
           Demo.baseURL Demo.token Demo.pageBudget Targets.Target
           Targets.IsSCMOrigin Targets.OriginToIntegrationKey
           Targets.ProjectToTarget Targets.TargetID "group-1" EmptyString
           [Org.mk "org-a" "Acme" "acme"; Org.mk "org-b" EmptyString EmptyString]
           [Demo.ok "integrations"; Http.mkResponse 404 "none";
            Http.mkResponse 500 "boom"; Demo.ok "projects of org-b"]).
  rewrite demo_refresh_trace. do 5 right. left.
Defined.

(** X17 at work: the refresh of the one org [org-a], given by its ID. *)
Lemma refresh_command_modes_witness :
  exists outcome final,
    refreshCommand Demo.Remote Demo.url_Parse Demo.url_PathEscape
      Demo.http_NewRequest Demo.DoWithRetry Demo.json_Unmarshal_page
      Demo.json_Unmarshal_integrations Demo.baseURL Demo.token Demo.pageBudget
      Targets.Target Targets.IsSCMOrigin Targets.OriginToIntegrationKey
      Targets.ProjectToTarget Targets.TargetID Demo.json_Unmarshal_orgs
      EmptyString "org-a" EmptyString
      [Demo.ok "integrations"; Demo.ok "projects of org-a"]
    = Ran Demo.Remote (RefreshOutput Targets.Target) outcome final
    /\ (outcome, final)
       = demoRunRefresh EmptyString EmptyString
           [Org.mk "org-a" EmptyString EmptyString]
           (initialState Demo.Remote
              [Demo.ok "integrations"; Demo.ok "projects of org-a"])
    /\ (forall out, outcome = Done out ->
          GroupID Targets.Target out = EmptyString
          /\ Orgs Targets.Target out = ∅
          /\ forall e, e ∈ Targets Targets.Target out ->
                       OrgID Targets.Target e = "org-a")
    /\ (forall l, Printed l ∈ trace Demo.Remote final ->
          l = LogNoTargets
          \/ exists res, refresh_orgLabel Targets.Target res = "org-a"
                         /\ logsResult Targets.Target res l).
Proof.
  apply (proj2 (proj2
           (refresh_command_modes Demo.Remote Demo.url_Parse
              Demo.url_PathEscape Demo.http_NewRequest Demo.DoWithRetry
              Demo.json_Unmarshal_page Demo.json_Unmarshal_integrations
              Demo.baseURL Demo.token Demo.pageBudget Targets.Target
              Targets.IsSCMOrigin Targets.OriginToIntegrationKey
              Targets.ProjectToTarget Targets.TargetID Demo.json_Unmarshal_orgs
              EmptyString "org-a" EmptyString
              [Demo.ok "integrations"; Demo.ok "projects of org-a"])));
    [reflexivity | discriminate].
Defined.

(** X19 at work: a remote that keeps serving a page that links to itself. *)
Lemma paged_fetch_may_not_end_witness :
  (fetchLoop unit Demo.url_Parse Demo.http_NewRequest Demo.sameReply
     Demo.json_Unmarshal_selfLinked Demo.baseURL Demo.token
     "projects" projectOfItem 1000
     "https://api.snyk.io/rest/orgs/org-a/projects?version=2025-09-28&limit=100"
     [] tt).1 = None.
Proof.
  apply (paged_fetch_may_not_end unit Demo.url_Parse Demo.http_NewRequest
           Demo.sameReply Demo.json_Unmarshal_selfLinked Demo.baseURL
           Demo.token "projects" projectOfItem _ tt [Demo.selfLinkedPage]).
  - discriminate.
  - eapply pagesRead_page; [discriminate | |].
    + eexists _, _. repeat split.
    + change (nextPageURL _ _ (Page.Links Demo.selfLinkedPage))
        with "https://api.snyk.io/rest/orgs/org-a/projects?version=2025-09-28&limit=100".
      apply pagesRead_none.
Defined.

(** X20 at work: the fetch of the projects answers 404, and both targets
    named [acme/app] are deleted. *)
Lemma refetch_cut_short_empties_targets_witness :
  exists s' new,
    demoPhase2Org true "org-a"
      (initialState Demo.Remote
         [Demo.ok "targets of org-a"; Http.mkResponse 404 EmptyString;
          Http.mkResponse 204 EmptyString; Http.mkResponse 204 EmptyString])
    = (Done tt, s')
    /\ trace Demo.Remote s'
       = [Called (CallFetchTargets "org-a"); Called (CallFetchProjects "org-a")]
           ++ new
    /\ callsOf new
       = [CallDeleteTarget "org-a" "t-app-1"; CallDeleteTarget "org-a" "t-app-2"].
Proof.
  destruct (refetch_cut_short_empties_targets Demo.Remote Demo.url_Parse
              Demo.url_PathEscape Demo.http_NewRequest Demo.DoWithRetry
              Demo.json_Unmarshal_page Demo.baseURL Demo.token Demo.pageBudget
              true "org-a"
              (initialState Demo.Remote
                 [Demo.ok "targets of org-a"; Http.mkResponse 404 EmptyString;
                  Http.mkResponse 204 EmptyString; Http.mkResponse 204 EmptyString])
              [ APITarget.mk "t-app-1" "acme/app" EmptyString EmptyString EmptyString;
                APITarget.mk "t-app-2" "acme/app" EmptyString EmptyString EmptyString;
                APITarget.mk "t-lib" "acme/lib" EmptyString EmptyString EmptyString;
                APITarget.mk "t-old" "acme/old" EmptyString EmptyString EmptyString ]
              [Http.mkResponse 404 EmptyString; Http.mkResponse 204 EmptyString;
               Http.mkResponse 204 EmptyString]
              [Http.mkResponse 404 EmptyString; Http.mkResponse 204 EmptyString;
               Http.mkResponse 204 EmptyString]
              [Http.mkResponse 204 EmptyString; Http.mkResponse 204 EmptyString]
              []
              "https://api.snyk.io/rest/orgs/org-a/projects?version=2025-09-28&limit=100"
              EmptyString)
    as (s' & new & Hrun & Htrace & Hcalls & _).
  - vm_compute. lia.
  - vm_compute. reflexivity.
  - apply pagesRead_none.
  - discriminate.
  - eexists. split; reflexivity.
  - exists s', new. split; [exact Hrun|]. split; [exact Htrace|].
    rewrite Hcalls. vm_compute. reflexivity.
Defined.
